(** * citium: scheduled HTTP requests over a DynamoDB table

    A shallow embedding of the scheduler package (storage.go, http.go and the
    dispatch engine TriggerAPI/execute), of the schema and config packages, of
    the Lambda entry point, of the headers flag of the administration command
    and of the parts of the Go libraries they call, followed by the properties
    proved of them.

    Conventions.
    - A Go [error] value is an [option errval]; [None] is [nil].
    - A Go result pair [(T, error)] is a [result T].
    - The DynamoDB table and the log of the calls made to the outside world
      (backend and HTTP client) form the [World]; what the outside world
      answers is an [Env] of oracles that may look at the whole history. *)

From Stdlib Require Import NArith ZArith Ascii String List Permutation Lia.
From stdpp Require Import base option list gmap strings fin_maps pretty.

Set Warnings "-register-all".
Open Scope string_scope.
Open Scope list_scope.

(** ** Go values shared by every package *)

(** The concrete error values the program builds: [errors.New] (a backend or
    transport error is one of these), the wrapper of github.com/pkg/errors
    ([Wrap]/[Wrapf]) and the container of go.uber.org/multierr. *)
Inductive errval : Type :=
| errorString (msg : string)
| withMessage (cause : errval) (msg : string)
| multiError (errs : list errval).

Abbreviation error := (option errval).

Inductive result (T : Type) : Type :=
| Ok (v : T)
| Err (e : errval).
Arguments Ok {T} v.
Arguments Err {T} e.

#[global] Instance result_ret : MRet result := fun _ v => Ok v.
#[global] Instance result_bind : MBind result := fun _ _ f r =>
  match r with
  | Ok v => f v
  | Err e => Err e
  end.

(** A call either returns or panics: [Must] panics with the error it is
    given, an index out of range is a panic of the runtime. *)
Inductive outcome (T : Type) : Type :=
| Returns (v : T)
| Panics (msg : string).
Arguments Returns {T} v.
Arguments Panics {T} msg.

#[global] Instance outcome_bind : MBind outcome := fun _ _ f r =>
  match r with
  | Returns v => f v
  | Panics msg => Panics msg
  end.

Definition dquote : ascii := ascii_of_nat 34.

Fixpoint join (sep : string) (l : list string) : string :=
  match l with
  | [] => ""
  | [s] => s
  | s :: rest => s +:+ sep +:+ join sep rest
  end.

(** [err.Error()]: pkg/errors prints [msg: cause], multierr joins the
    messages of its members with [; ]. *)
Fixpoint Error (e : errval) : string :=
  match e with
  | errorString m => m
  | withMessage c m => m +:+ ": " +:+ Error c
  | multiError es => join "; " (List.map Error es)
  end.

(** [%t] and [%d] of fmt. *)
Definition fmt_bool (b : bool) : string := if b then "true" else "false".
Definition fmt_int (z : Z) : string := pretty z.

Module errors.

(** The error [errors.Wrap]/[errors.Wrapf] build around a non-nil error,
    once the format has been applied to its arguments. *)
Definition wrap (err : errval) (message : string) : errval :=
  withMessage err message.

(** [errors.Wrap(err, message)]: nil stays nil. *)
Definition Wrap (err : error) (message : string) : error :=
  match err with
  | None => None
  | Some e => Some (wrap e message)
  end.

End errors.

Module multierr.

Definition flatten (e : errval) : list errval :=
  match e with
  | multiError es => es
  | _ => [e]
  end.

(** [multierr.Errors(err)]: the errors an error is made of. *)
Definition Errors (err : error) : list errval :=
  match err with
  | None => []
  | Some e => flatten e
  end.

(** [fromSlice]: nil entries are skipped, a single entry is returned as it
    is, several are flattened one level into one [multiError]. *)
Definition fromSlice (errs : list error) : error :=
  match omap id errs with
  | [] => None
  | [e] => Some e
  | es => Some (multiError (flat_map flatten es))
  end.

Definition Combine (errs : list error) : error := fromSlice errs.

(** [multierr.Append(left, right)]; its fast paths build the value
    [fromSlice] builds. *)
Definition Append (left right : error) : error :=
  match left, right with
  | None, _ => right
  | _, None => left
  | _, _ => fromSlice [left; right]
  end.

End multierr.

(** ** Package time, for instants in UTC *)

Module gotime.

(** A UTC instant by its civil fields, as [time.Date] takes them. *)
Record Time : Type := Date {
  year : N; month : N; day : N; hour : N; minute : N; second : N;
  nanosecond : N }.

(** The zero [time.Time]: January 1, year 1, 00:00:00 UTC. *)
Definition zero : Time := Date 1 1 1 0 0 0 0.

Definition isLeap (y : N) : bool :=
  ((y mod 4 =? 0) && (negb (y mod 100 =? 0) || (y mod 400 =? 0)))%N.

Definition daysIn (m y : N) : N :=
  match m with
  | 2 => if isLeap y then 29 else 28
  | 4 | 6 | 9 | 11 => 30
  | _ => 31
  end%N.

(** The instants of the civil calendar whose year has four digits. *)
Definition wellformed (t : Time) : bool :=
  ((year t <=? 9999) && (1 <=? month t) && (month t <=? 12)
   && (1 <=? day t) && (day t <=? daysIn (month t) (year t))
   && (hour t <? 24) && (minute t <? 60) && (second t <? 60)
   && (nanosecond t <? 1000000000))%N.

Definition lexico (c d : comparison) : comparison :=
  match c with Eq => d | _ => c end.

(** The order of two instants down to the second. *)
Definition compareSeconds (t u : Time) : comparison :=
  lexico (year t ?= year u)%N
 (lexico (month t ?= month u)%N
 (lexico (day t ?= day u)%N
 (lexico (hour t ?= hour u)%N
 (lexico (minute t ?= minute u)%N (second t ?= second u)%N)))).

(** Chronological order of two UTC instants: [t.Before(u)], [t.Equal(u)],
    [t.After(u)] as a three-way comparison. *)
Definition compare (t u : Time) : comparison :=
  lexico (compareSeconds t u) (nanosecond t ?= nanosecond u)%N.

Definition After (t u : Time) : bool :=
  match compare t u with Gt => true | _ => false end.

(** [t.Truncate(time.Second)]. *)
Definition Truncate (t : Time) : Time :=
  Date (year t) (month t) (day t) (hour t) (minute t) (second t) 0.

Definition digit (n : N) : ascii := ascii_of_N (48 + n mod 10).

(** [appendInt(b, x, width)]: decimal, zero-padded to at least [width]
    digits. *)
Fixpoint appendInt (width : nat) (n : N) : string :=
  match width with
  | O => if (n =? 0)%N then "" else pretty n
  | S w => appendInt w (n / 10) +:+ String (digit n) ""
  end.

Fixpoint trimZeros (s : string) : string :=
  match s with
  | "" => ""
  | String c rest =>
      let r := trimZeros rest in
      if String.eqb r "" && Ascii.eqb c "0" then "" else String c r
  end.

(** The layout element [.999999999]: the fraction of the second without
    its trailing zeros, and nothing when it is zero. *)
Definition fraction (nsec : N) : string :=
  let ds := trimZeros (appendInt 9 nsec) in
  if String.eqb ds "" then "" else String "." ds.

(** The layout element at the head of a layout, with its length and what it
    prints for a UTC instant. These are the elements the layouts of the
    program are made of. *)
Definition elementAt (t : Time) (layout : string) : option (nat * string) :=
  if String.prefix "2006" layout then Some (4, appendInt 4 (year t))
  else if String.prefix "01" layout then Some (2, appendInt 2 (month t))
  else if String.prefix "02" layout then Some (2, appendInt 2 (day t))
  else if String.prefix "15" layout then Some (2, appendInt 2 (hour t))
  else if String.prefix "04" layout then Some (2, appendInt 2 (minute t))
  else if String.prefix "05" layout then Some (2, appendInt 2 (second t))
  else if String.prefix ".999999999" layout then Some (10, fraction (nanosecond t))
  else if String.prefix "Z07:00" layout then Some (6, "Z")
  else if String.prefix "-0700" layout then Some (5, "+0000")
  else if String.prefix "MST" layout then Some (3, "UTC")
  else None.

(** [skip] characters of the layout belong to the element that was just
    printed. *)
Fixpoint FormatFrom (t : Time) (skip : nat) (layout : string) : string :=
  match layout with
  | "" => ""
  | String c rest =>
      match skip with
      | S k => FormatFrom t k rest
      | O =>
          match elementAt t layout with
          | Some (len, text) => text +:+ FormatFrom t (len - 1) rest
          | None => String c (FormatFrom t 0 rest)
          end
      end
  end.

(** [t.Format(layout)]: what is not a layout element is copied. *)
Definition Format (t : Time) (layout : string) : string := FormatFrom t 0 layout.

(** [t.String()]. *)
Definition String_ (t : Time) : string :=
  Format t "2006-01-02 15:04:05.999999999 -0700 MST".

(** Reading an instant back. *)
Definition digitVal (c : ascii) : option N :=
  let n := N_of_ascii c in
  if ((48 <=? n) && (n <=? 57))%N then Some (n - 48)%N else None.

Fixpoint readInt (width : nat) (acc : N) (s : string) : option (N * string) :=
  match width with
  | O => Some (acc, s)
  | S w =>
      match s with
      | String c rest =>
          match digitVal c with
          | Some d => readInt w (10 * acc + d) rest
          | None => None
          end
      | "" => None
      end
  end.

Definition readChar (c : ascii) (s : string) : option string :=
  match s with
  | String c' rest => if Ascii.eqb c c' then Some rest else None
  | "" => None
  end.

(** The digits at the head of [s]: the value of the first [room] of them,
    scaled to [room] more places, and what follows all of them. *)
Fixpoint readDigits (room : nat) (acc : N) (s : string) : N * string :=
  match s with
  | String c rest =>
      match digitVal c with
      | Some d =>
          match room with
          | S r => readDigits r (10 * acc + d) rest
          | O => readDigits O acc rest
          end
      | None => (acc * 10 ^ N.of_nat room, s)%N
      end
  | "" => (acc * 10 ^ N.of_nat room, s)%N
  end.

(** A fractional second may follow the seconds: a period and at least one
    digit, of which nine count. *)
Definition readFraction (s : string) : N * string :=
  match s with
  | String "." (String c rest) =>
      match digitVal c with
      | Some _ => readDigits 9 0 (String c rest)
      | None => (0%N, s)
      end
  | _ => (0%N, s)
  end.

(** [time.Parse(time.RFC3339, s)] of a text in UTC,
    [YYYY-MM-DDTHH:MM:SS[.fraction]Z]; a text with a numeric offset is
    outside what the table stores and is rejected here. *)
Definition Parse (s : string) : option Time :=
  '(y, s) ← readInt 4 0 s; s ← readChar "-" s;
  '(mo, s) ← readInt 2 0 s; s ← readChar "-" s;
  '(d, s) ← readInt 2 0 s; s ← readChar "T" s;
  '(h, s) ← readInt 2 0 s; s ← readChar ":" s;
  '(mi, s) ← readInt 2 0 s; s ← readChar ":" s;
  '(se, s) ← readInt 2 0 s;
  let '(ns, s) := readFraction s in
  s ← readChar "Z" s;
  let t := Date y mo d h mi se ns in
  if String.eqb s "" && wellformed t then Some t else None.

End gotime.

(** ** Package schema *)

Module schema.

(** [ScheduledRequest]: the parameters of one scheduled call. A Go map of
    headers is kept as the list of its entries, in iteration order. *)
Record ScheduledRequest : Type := {
  ID : string;
  CreatedAt : gotime.Time;
  ExecutedAt : gotime.Time;
  EffectiveAfter : gotime.Time;
  Locking : bool;
  FailureReason : string;
  Method : string;
  URL : string;
  Payload : string;
  Headers : list (string * string);
  PersistentStore : bool;
  ExecutionResult : string }.

(** The value [new(schema.ScheduledRequest)] points to. *)
Definition zero : ScheduledRequest := {|
  ID := ""; CreatedAt := gotime.zero; ExecutedAt := gotime.zero;
  EffectiveAfter := gotime.zero; Locking := false; FailureReason := "";
  Method := ""; URL := ""; Payload := ""; Headers := [];
  PersistentStore := false; ExecutionResult := "" |}.

Definition ToString (req : ScheduledRequest) : string :=
  "id=" +:+ ID req +:+ " effective_after=" +:+ gotime.String_ (EffectiveAfter req)
  +:+ " locking=" +:+ fmt_bool (Locking req).

(** [Response]: the status code and body of an executed call. *)
Record Response : Type := { Code : Z; Body : string }.

Definition Response_ToString (resp : Response) : string :=
  "code=" +:+ fmt_int (Code resp) +:+ " body=" +:+ Body resp.

End schema.

(** ** encoding/json on a [schema.Response] *)

Module json.

Definition hex (n : N) : ascii :=
  if (n <? 10)%N then ascii_of_N (48 + n) else ascii_of_N (87 + n).

(** One byte of a string literal: quote and backslash are escaped with a
    backslash, newline, carriage return and tab by their letter, the other
    control bytes and the HTML-sensitive [<], [>], [&] as [\u00XX]; every
    other byte is copied (the body is taken to be valid UTF-8 without
    U+2028 and U+2029). *)
Definition escapeByte (c : ascii) : string :=
  let n := N_of_ascii c in
  if (n =? 34)%N || (n =? 92)%N then String "\"%char (String c "")
  else if (n =? 10)%N then "\n"
  else if (n =? 13)%N then "\r"
  else if (n =? 9)%N then "\t"
  else if (n <? 32)%N || (n =? 60)%N || (n =? 62)%N || (n =? 38)%N
    then "\u00" +:+ String (hex (n / 16)) (String (hex (n mod 16)) "")
  else String c "".

Fixpoint escape (s : string) : string :=
  match s with
  | "" => ""
  | String c rest => escapeByte c +:+ escape rest
  end.

Definition quoted (s : string) : string :=
  String dquote s +:+ String dquote "".

(** [json.Marshal(resp)] of a [*schema.Response], with its field tags
    [code] and [body]; it cannot fail on this type. *)
Definition Marshal (resp : schema.Response) : result string :=
  Ok ("{" +:+ quoted "code" +:+ ":" +:+ fmt_int (schema.Code resp)
  +:+ "," +:+ quoted "body" +:+ ":" +:+ quoted (escape (schema.Body resp)) +:+ "}").

End json.

(** ** The DynamoDB backend (dynamodbiface.DynamoDBAPI)

    The backend is a service outside the repository. Its five operations
    the program calls are modelled on one table, after the behaviour the
    DynamoDB API documents for them; any of them can also be refused with an
    error, as the [scanErr], [getErr], [putErr], [updateErr] and [delErr] of
    the repository's [mockDynamoDB] do. *)

Module dynamodb.

(** The attribute values the table holds: strings, booleans, a map of
    strings (the headers) and NULL. *)
Inductive AttributeValue : Type :=
| AttrS (s : string)
| AttrBOOL (b : bool)
| AttrM (m : list (string * string))
| AttrNULL.

Abbreviation Item := (gmap string AttributeValue).

(** The fragment of the expression language the program writes: a
    conjunction of comparisons [name <= :value] and [name = :value], and an
    update [SET name = :value, ...]. *)
Inductive Condition : Type :=
| CondLe (name value : string)
| CondEq (name value : string)
| CondAnd (c1 c2 : Condition).

Fixpoint wordsFrom (cur : string) (s : string) : list string :=
  match s with
  | "" => [cur]
  | String c rest =>
      if Ascii.eqb c " " then cur :: wordsFrom "" rest
      else wordsFrom (cur +:+ String c "") rest
  end.

Definition words (s : string) : list string := wordsFrom "" s.

Definition parseComparison (name op value : string) : option Condition :=
  if String.eqb op "<=" then Some (CondLe name value)
  else if String.eqb op "=" then Some (CondEq name value)
  else None.

Fixpoint parseConjunction (toks : list string) : option Condition :=
  match toks with
  | [name; op; value] => parseComparison name op value
  | name :: op :: value :: kw :: rest =>
      if String.eqb kw "and" then
        c1 ← parseComparison name op value;
        c2 ← parseConjunction rest;
        Some (CondAnd c1 c2)
      else None
  | _ => None
  end.

Definition parseCondition (expr : string) : option Condition :=
  parseConjunction (words expr).

Definition stripComma (s : string) : string * bool :=
  match String.rev s with
  | String c rest => if Ascii.eqb c "," then (String.rev rest, true) else (s, false)
  | "" => (s, false)
  end.

Fixpoint parseAssignments (toks : list string) : option (list (string * string)) :=
  match toks with
  | name :: op :: value :: rest =>
      if String.eqb op "=" then
        match stripComma value, rest with
        | (v, false), [] => Some [(name, v)]
        | (v, true), _ :: _ => more ← parseAssignments rest; Some ((name, v) :: more)
        | _, _ => None
        end
      else None
  | _ => None
  end.

Definition parseUpdate (expr : string) : option (list (string * string)) :=
  match words expr with
  | kw :: toks => if String.eqb kw "SET" then parseAssignments toks else None
  | [] => None
  end.

(** Strings are ordered by their bytes. *)
Fixpoint bytesCompare (a b : string) : comparison :=
  match a, b with
  | "", "" => Eq
  | "", String _ _ => Lt
  | String _ _, "" => Gt
  | String x a', String y b' =>
      match (N_of_ascii x ?= N_of_ascii y)%N with
      | Eq => bytesCompare a' b'
      | c => c
      end
  end.

Definition valueEqb (v1 v2 : AttributeValue) : bool :=
  match v1, v2 with
  | AttrS a, AttrS b => String.eqb a b
  | AttrBOOL a, AttrBOOL b => Bool.eqb a b
  | AttrM a, AttrM b => bool_decide (a = b)
  | AttrNULL, AttrNULL => true
  | _, _ => false
  end.

(** A comparison holds only between two values of the same, ordered
    type. *)
Definition valueLeb (v1 v2 : AttributeValue) : bool :=
  match v1, v2 with
  | AttrS a, AttrS b =>
      match bytesCompare a b with Gt => false | _ => true end
  | _, _ => false
  end.

Definition lookupValue (values : list (string * AttributeValue)) (name : string)
  : option AttributeValue :=
  snd <$> List.find (fun kv => String.eqb (fst kv) name) values.

(** [None]: the expression names a value that was not supplied. A
    comparison on an attribute the item lacks is false. *)
Fixpoint evalCondition (c : Condition) (values : list (string * AttributeValue))
    (item : Item) : option bool :=
  match c with
  | CondLe name value =>
      v ← lookupValue values value;
      Some (match item !! name with Some a => valueLeb a v | None => false end)
  | CondEq name value =>
      v ← lookupValue values value;
      Some (match item !! name with Some a => valueEqb a v | None => false end)
  | CondAnd c1 c2 =>
      b1 ← evalCondition c1 values item;
      b2 ← evalCondition c2 values item;
      Some (b1 && b2)
  end.

Record ScanInput : Type := {
  Scan_TableName : string;
  FilterExpression : string;
  Scan_ExpressionAttributeValues : list (string * AttributeValue) }.

Record ScanOutput : Type := { Items : list Item }.

Record GetItemInput : Type := {
  Get_TableName : string;
  Get_Key : list (string * AttributeValue) }.

(** [Item] is absent from the output when no item has the key. *)
Record GetItemOutput : Type := { Item_ : option Item }.

Record PutItemInput : Type := {
  Put_Item : Item;
  Put_TableName : string }.

Record UpdateItemInput : Type := {
  Update_TableName : string;
  Update_Key : list (string * AttributeValue);
  UpdateExpression : string;
  Update_ExpressionAttributeValues : list (string * AttributeValue) }.

Record DeleteItemInput : Type := {
  Delete_TableName : string;
  Delete_Key : list (string * AttributeValue) }.

Definition ScanInput_GoString (input : ScanInput) : string :=
  "{ FilterExpression: " +:+ FilterExpression input
  +:+ ", TableName: " +:+ Scan_TableName input +:+ " }".

Definition ScanOutput_GoString (output : ScanOutput) : string :=
  "{ Count: " +:+ pretty (length (Items output)) +:+ " }".

Definition GetItemOutput_GoString (output : GetItemOutput) : string :=
  match Item_ output with
  | Some _ => "{ Item: {...} }"
  | None => "{ }"
  end.

(** The table's key schema: the partition key [ID], a string. *)
Definition keyOf (key : list (string * AttributeValue)) : option string :=
  match key with
  | [(name, AttrS k)] => if String.eqb name "ID" then Some k else None
  | _ => None
  end.

Definition ValidationException : errval := errorString "ValidationException".

End dynamodb.

(** ** The world outside the program *)

(** A call that leaves the program: to the backend or to the HTTP client. *)
Inductive Call : Type :=
| CallScan (input : dynamodb.ScanInput)
| CallGetItem (input : dynamodb.GetItemInput)
| CallPutItem (input : dynamodb.PutItemInput)
| CallUpdateItem (input : dynamodb.UpdateItemInput)
| CallDeleteItem (input : dynamodb.DeleteItemInput)
| CallDoRequest (method urlStr : string) (headers : list (string * string)) (body : string).

(** A call and the error it came back with. *)
Abbreviation Event := (Call * error)%type.

(** The table named by the configuration, keyed by [ID], and the history of
    the calls made so far, oldest first. *)
Record World : Type := {
  table : gmap string dynamodb.Item;
  trace : list Event }.

Definition record (w : World) (c : Call) (err : error) : World :=
  {| table := table w; trace := trace w ++ [(c, err)] |}.

Definition setTable (w : World) (t : gmap string dynamodb.Item) : World :=
  {| table := t; trace := trace w |}.

(** What the outside world answers. [fault] is the error with which the
    backend refuses a call (network, throttling, ...), [DoRequest] is the
    [Requester] the engine is given and [Now] the clock; each may depend on
    everything that has happened so far. *)
Record Env : Type := {
  fault : World -> Call -> error;
  DoRequest : World -> string -> string -> list (string * string) -> string
              -> result schema.Response;
  Now : World -> gotime.Time }.

Module conn.

Import dynamodb.

(** [conn.Scan(input)]: the items that satisfy the filter, in the order the
    table yields them. The table is taken to fit the one page a [Scan] call
    reads; the program makes a single call. *)
Definition Scan (env : Env) (w : World) (input : ScanInput)
  : result ScanOutput * World :=
  let c := CallScan input in
  match fault env w c with
  | Some e => (Err e, record w c (Some e))
  | None =>
      let items := (map_to_list (table w)).*2 in
      match cond ← parseCondition (FilterExpression input);
            mapM (fun it => b ← evalCondition cond (Scan_ExpressionAttributeValues input) it;
                            Some (it, b)) items with
      | Some marked =>
          (Ok {| Items := fst <$> List.filter snd marked |}, record w c None)
      | None => (Err ValidationException, record w c (Some ValidationException))
      end
  end.

(** [conn.GetItem(input)]: a key without an item is answered without an
    error and without an [Item] (the API reports no error for a missing
    item; the repository's mock likewise returns its canned item, empty
    unless a test sets it, with a nil error). *)
Definition GetItem (env : Env) (w : World) (input : GetItemInput)
  : result GetItemOutput * World :=
  let c := CallGetItem input in
  match fault env w c with
  | Some e => (Err e, record w c (Some e))
  | None =>
      match keyOf (Get_Key input) with
      | Some k => (Ok {| Item_ := table w !! k |}, record w c None)
      | None => (Err ValidationException, record w c (Some ValidationException))
      end
  end.

(** [conn.PutItem(input)]: stores the item under its key, replacing any
    item that has it. *)
Definition PutItem (env : Env) (w : World) (input : PutItemInput) : error * World :=
  let c := CallPutItem input in
  match fault env w c with
  | Some e => (Some e, record w c (Some e))
  | None =>
      match Put_Item input !! "ID" with
      | Some (AttrS k) =>
          (None, record (setTable w (<[k := Put_Item input]> (table w))) c None)
      | _ => (Some ValidationException, record w c (Some ValidationException))
      end
  end.

Definition applyAssignments (item : Item) (assigns : list (string * AttributeValue)) : Item :=
  foldl (fun it kv => <[fst kv := snd kv]> it) item assigns.

(** [conn.UpdateItem(input)]: sets the named attributes of the item with
    the key and leaves its other attributes alone; an item is created
    when none has the key. The key attribute cannot be assigned. A refused
    update leaves the table as it was. *)
Definition UpdateItem (env : Env) (w : World) (input : UpdateItemInput) : error * World :=
  let c := CallUpdateItem input in
  match fault env w c with
  | Some e => (Some e, record w c (Some e))
  | None =>
      match k ← keyOf (Update_Key input);
            names ← parseUpdate (UpdateExpression input);
            assigns ← mapM (fun nv => v ← lookupValue (Update_ExpressionAttributeValues input) (snd nv);
                                      Some (fst nv, v)) names;
            if bool_decide ("ID" ∈ assigns.*1) then None else Some (k, assigns) with
      | Some (k, assigns) =>
          let item := default {[ "ID" := AttrS k ]} (table w !! k) in
          (None, record (setTable w (<[k := applyAssignments item assigns]> (table w))) c None)
      | None => (Some ValidationException, record w c (Some ValidationException))
      end
  end.

(** [conn.DeleteItem(input)]: removes the item with the key, if any. *)
Definition DeleteItem (env : Env) (w : World) (input : DeleteItemInput) : error * World :=
  let c := CallDeleteItem input in
  match fault env w c with
  | Some e => (Some e, record w c (Some e))
  | None =>
      match keyOf (Delete_Key input) with
      | Some k => (None, record (setTable w (delete k (table w))) c None)
      | None => (Some ValidationException, record w c (Some ValidationException))
      end
  end.

End conn.

(** ** Package dynamodbattribute on a [schema.ScheduledRequest]

    The encoder and decoder of the AWS SDK, on the one struct type the
    program hands them. *)

Module dynamodbattribute.

Import dynamodb schema.

(** An empty string and a nil map are stored as NULL; an instant is stored
    as its text in the layout [time.RFC3339Nano]. *)
Definition RFC3339Nano : string := "2006-01-02T15:04:05.999999999Z07:00".

Definition encodeString (s : string) : AttributeValue :=
  if String.eqb s "" then AttrNULL else AttrS s.

Definition encodeTime (t : gotime.Time) : AttributeValue :=
  AttrS (gotime.Format t RFC3339Nano).

Definition encodeMap (m : list (string * string)) : AttributeValue :=
  match m with
  | [] => AttrNULL
  | _ => AttrM m
  end.

(** One attribute per field, under the field's name. *)
Definition encode (req : ScheduledRequest) : Item :=
  list_to_map [
    ("ID", encodeString (ID req));
    ("CreatedAt", encodeTime (CreatedAt req));
    ("ExecutedAt", encodeTime (ExecutedAt req));
    ("EffectiveAfter", encodeTime (EffectiveAfter req));
    ("Locking", AttrBOOL (Locking req));
    ("FailureReason", encodeString (FailureReason req));
    ("Method", encodeString (Method req));
    ("URL", encodeString (URL req));
    ("Payload", encodeString (Payload req));
    ("Headers", encodeMap (Headers req));
    ("PersistentStore", AttrBOOL (PersistentStore req));
    ("ExecutionResult", encodeString (ExecutionResult req)) ].

(** The error of the encoder for a map that has an empty key. *)
Definition InvalidMarshalError : errval :=
  errorString "InvalidMarshalError: map key cannot be empty".

(** [dynamodbattribute.MarshalMap(req)]: the encoder refuses a map of
    headers that has an empty key; nothing else can fail on this type. *)
Definition MarshalMap (req : ScheduledRequest) : result Item :=
  if existsb (fun kv => String.eqb (fst kv) "") (Headers req)
  then Err InvalidMarshalError
  else Ok (encode req).

Definition UnmarshalTypeError (field : string) : errval :=
  errorString ("UnmarshalTypeError: cannot unmarshal into field " +:+ field).

(** A field whose attribute is absent or NULL keeps its zero value. *)
Definition decodeString (field : string) (m : Item) : result string :=
  match m !! field with
  | None | Some AttrNULL => Ok ""
  | Some (AttrS s) => Ok s
  | Some _ => Err (UnmarshalTypeError field)
  end.

Definition decodeBool (field : string) (m : Item) : result bool :=
  match m !! field with
  | None | Some AttrNULL => Ok false
  | Some (AttrBOOL b) => Ok b
  | Some _ => Err (UnmarshalTypeError field)
  end.

Definition decodeTime (field : string) (m : Item) : result gotime.Time :=
  match m !! field with
  | None | Some AttrNULL => Ok gotime.zero
  | Some (AttrS s) =>
      match gotime.Parse s with
      | Some t => Ok t
      | None => Err (errorString ("parsing time " +:+ s))
      end
  | Some _ => Err (UnmarshalTypeError field)
  end.

Definition decodeMap (field : string) (m : Item) : result (list (string * string)) :=
  match m !! field with
  | None | Some AttrNULL => Ok []
  | Some (AttrM h) => Ok h
  | Some _ => Err (UnmarshalTypeError field)
  end.

(** [dynamodbattribute.UnmarshalMap(m, req)] into a fresh request. *)
Definition UnmarshalMap (m : Item) : result ScheduledRequest :=
  id ← decodeString "ID" m;
  createdAt ← decodeTime "CreatedAt" m;
  executedAt ← decodeTime "ExecutedAt" m;
  effectiveAfter ← decodeTime "EffectiveAfter" m;
  locking ← decodeBool "Locking" m;
  failureReason ← decodeString "FailureReason" m;
  method ← decodeString "Method" m;
  url ← decodeString "URL" m;
  payload ← decodeString "Payload" m;
  headers ← decodeMap "Headers" m;
  persistentStore ← decodeBool "PersistentStore" m;
  executionResult ← decodeString "ExecutionResult" m;
  Ok {| ID := id; CreatedAt := createdAt; ExecutedAt := executedAt;
        EffectiveAfter := effectiveAfter; Locking := locking;
        FailureReason := failureReason; Method := method; URL := url;
        Payload := payload; Headers := headers;
        PersistentStore := persistentStore; ExecutionResult := executionResult |}.

(** [dynamodbattribute.UnmarshalListOfMaps(l, &records)]. *)
Fixpoint UnmarshalListOfMaps (l : list Item) : result (list ScheduledRequest) :=
  match l with
  | [] => Ok []
  | m :: rest =>
      req ← UnmarshalMap m;
      reqs ← UnmarshalListOfMaps rest;
      Ok (req :: reqs)
  end.

End dynamodbattribute.

(** ** Package config *)

Module config.

Record Configuration : Type := {
  TableName : string;
  BaseURL : string;
  Token : string;
  UserAgent : string }.

(** [NewConfiguration]: returns config initalized from environment
    variables. [getenv] is [os.Getenv], which gives the empty string for a
    variable that is not set. *)
Definition NewConfiguration (getenv : string -> string) : result Configuration :=
  let table := getenv "TABLE_NAME" in
  if String.eqb table "" then
    Err (errorString "Require environment variable TABLE_NAME")
  else
    Ok {| TableName := table;
          BaseURL := getenv "BASE_URL";
          Token := getenv "API_TOKEN";
          UserAgent := getenv "USER_AGENT" |}.

(** [Must]: ensures configuration is properly initialized. *)
Definition Must (r : result Configuration) : outcome Configuration :=
  match r with
  | Err err => Panics (Error err)
  | Ok conf => Returns conf
  end.

End config.

(** ** Packages net/textproto, net/http and net/url *)

Module http.

(** The bytes of a header field name (RFC 7230 token). *)
Definition validHeaderFieldByte (c : ascii) : bool :=
  let n := N_of_ascii c in
  ((48 <=? n) && (n <=? 57) || (65 <=? n) && (n <=? 90) || (97 <=? n) && (n <=? 122))%N
  || bool_decide (c ∈ list_ascii_of_string "!#$%&'*+-.^_`|~").

Definition isLower (c : ascii) : bool :=
  let n := N_of_ascii c in ((97 <=? n) && (n <=? 122))%N.
Definition isUpper (c : ascii) : bool :=
  let n := N_of_ascii c in ((65 <=? n) && (n <=? 90))%N.

Fixpoint canonicalize (upper : bool) (s : string) : string :=
  match s with
  | "" => ""
  | String c rest =>
      let c' := if upper && isLower c then ascii_of_N (N_of_ascii c - 32)
                else if negb upper && isUpper c then ascii_of_N (N_of_ascii c + 32)
                else c in
      String c' (canonicalize (Ascii.eqb c' "-") rest)
  end.

(** [textproto.CanonicalMIMEHeaderKey]: the first letter and the letters
    after a hyphen in upper case, the others in lower case; a key with a
    byte that is not allowed in a field name is left as it is. *)
Definition CanonicalMIMEHeaderKey (s : string) : string :=
  if forallb validHeaderFieldByte (list_ascii_of_string s)
  then canonicalize true s else s.

(** [http.Header]: the values of each canonical key, in the order they were
    added. *)
Abbreviation Header := (gmap string (list string)).

(** [h.Add(key, value)] appends to the values of the key. *)
Definition Add (h : Header) (key value : string) : Header :=
  let k := CanonicalMIMEHeaderKey key in
  <[k := default [] (h !! k) ++ [value]]> h.

(** [h.Set(key, value)] replaces the values of the key. *)
Definition Set_ (h : Header) (key value : string) : Header :=
  <[CanonicalMIMEHeaderKey key := [value]]> h.

(** [h.Get(key)]: the first value of the key, or the empty string. *)
Definition Get (h : Header) (key : string) : string :=
  match h !! CanonicalMIMEHeaderKey key with
  | Some (v :: _) => v
  | _ => ""
  end.

(** [h.Values(key)]: all the values of the key. *)
Definition Values (h : Header) (key : string) : list string :=
  default [] (h !! CanonicalMIMEHeaderKey key).

Record Request : Type := {
  Method : string;
  URL : string;
  Body : string;
  Header_ : Header }.

Definition withHeader (req : Request) (h : Header) : Request :=
  {| Method := Method req; URL := URL req; Body := Body req; Header_ := h |}.

(** What [c.Do(req)] answers when the call completes: the status code,
    what reading the body gives and what closing it gives. *)
Record Response : Type := {
  StatusCode : Z;
  ReadAll : result string;
  Close : error }.

(** The library functions [DoRequest] calls, for a type [U] of parsed
    URLs: [url.Parse], [u.ResolveReference], [u.String], the checks of
    [http.NewRequest] on the method as it is given (an empty one stands
    for GET) and on the URL, and the transport. *)
Record Net (U : Type) : Type := {
  Parse : string -> result U;
  ResolveReference : U -> U -> U;
  String_ : U -> string;
  NewRequestError : string -> string -> error;
  Do : Request -> result Response }.
Arguments Parse {U} _ _.
Arguments ResolveReference {U} _ _ _.
Arguments String_ {U} _ _.
Arguments NewRequestError {U} _ _ _.
Arguments Do {U} _ _.

(** [http.NewRequest(method, url, body)]: a request without headers; an
    empty method means GET. *)
Definition NewRequest {U} (net : Net U) (method url body : string) : result Request :=
  match NewRequestError net method url with
  | Some e => Err e
  | None =>
      Ok {| Method := if String.eqb method "" then "GET" else method;
            URL := url; Body := body; Header_ := ∅ |}
  end.

End http.

(** ** Package scheduler: storage.go *)

Module scheduler.

Import dynamodb schema.

Definition unixFormat : string := "2006-01-02T15:04:05Z".

Definition keyID (reqID : string) : list (string * AttributeValue) :=
  [("ID", AttrS reqID)].

(** [FetchSchedRequests]: the scheduled records with
    [EffectiveAfter <= current] and [Locking = false]. *)
Definition FetchSchedRequests (env : Env) (w : World) (tableName : string)
    (current : gotime.Time) : result (list ScheduledRequest) * World :=
  let currentStr := gotime.Format current unixFormat in
  let input := {|
    Scan_TableName := tableName;
    FilterExpression := "EffectiveAfter <= :d and Locking = :l";
    Scan_ExpressionAttributeValues :=
      [(":d", AttrS currentStr); (":l", AttrBOOL false)] |} in
  match conn.Scan env w input with
  | (Err err, w) =>
      (Err (errors.wrap err ("conn.Scan table_name=" +:+ tableName
                             +:+ " input=" +:+ ScanInput_GoString input)), w)
  | (Ok output, w) =>
      match dynamodbattribute.UnmarshalListOfMaps (Items output) with
      | Err err =>
          (Err (errors.wrap err ("dynamodbattribute.UnmarshalListOfMaps table_name="
                                 +:+ tableName +:+ " output="
                                 +:+ ScanOutput_GoString output)), w)
      | Ok records => (Ok records, w)
      end
  end.

(** [Create]: put a new record into storage. *)
Definition Create (env : Env) (w : World) (tableName : string)
    (req : ScheduledRequest) : error * World :=
  match dynamodbattribute.MarshalMap req with
  | Err err =>
      (Some (errors.wrap err ("dynamodbattribute.MarshalMap req " +:+ ToString req)), w)
  | Ok av =>
      match conn.PutItem env w {| Put_Item := av; Put_TableName := tableName |} with
      | (Some err, w) =>
          (Some (errors.wrap err ("conn.PutItem req " +:+ ToString req
                                  +:+ " table_name=" +:+ tableName)), w)
      | (None, w) => (None, w)
      end
  end.

(** [Get]: retrieve a record from storage. *)
Definition Get (env : Env) (w : World) (tableName reqID : string)
  : result ScheduledRequest * World :=
  let input := {| Get_TableName := tableName; Get_Key := keyID reqID |} in
  match conn.GetItem env w input with
  | (Err err, w) =>
      (Err (errors.wrap err ("conn.GetItem table_name=" +:+ tableName
                             +:+ " id=" +:+ reqID)), w)
  | (Ok output, w) =>
      match dynamodbattribute.UnmarshalMap (default ∅ (Item_ output)) with
      | Err err =>
          (Err (errors.wrap err ("dynamodbattribute.UnmarshalMap table_name="
                                 +:+ tableName +:+ " output="
                                 +:+ GetItemOutput_GoString output)), w)
      | Ok req => (Ok req, w)
      end
  end.

Definition updateResult (env : Env) (w : World) (tableName reqID : string)
    (resp : Response) (current : gotime.Time) : error * World :=
  match json.Marshal resp with
  | Err err =>
      (Some (errors.wrap err ("json.Marshal resp " +:+ Response_ToString resp)), w)
  | Ok serialized =>
      let result := serialized in
      match conn.UpdateItem env w {|
              Update_TableName := tableName;
              Update_Key := keyID reqID;
              UpdateExpression := "SET ExecutionResult = :r, ExecutedAt = :e";
              Update_ExpressionAttributeValues :=
                [(":r", AttrS result);
                 (":e", AttrS (gotime.Format current unixFormat))] |} with
      | (Some err, w) =>
          (Some (errors.wrap err ("conn.UpdateItem id=" +:+ reqID +:+ " table_name="
                                  +:+ tableName +:+ " result=" +:+ result)), w)
      | (None, w) => (None, w)
      end
  end.

Definition removeRequest (env : Env) (w : World) (tableName reqID : string)
  : error * World :=
  match conn.DeleteItem env w {|
          Delete_TableName := tableName; Delete_Key := keyID reqID |} with
  | (Some err, w) =>
      (Some (errors.wrap err ("conn.DeleteItem id=" +:+ reqID
                              +:+ " table_name=" +:+ tableName)), w)
  | (None, w) => (None, w)
  end.

Definition logFailure (env : Env) (w : World) (tableName reqID : string)
    (lerr : errval) : error * World :=
  let failure := Error lerr in
  match conn.UpdateItem env w {|
          Update_TableName := tableName;
          Update_Key := keyID reqID;
          UpdateExpression := "SET FailureReason = :f";
          Update_ExpressionAttributeValues := [(":f", AttrS failure)] |} with
  | (Some err, w) =>
      (Some (errors.wrap err ("conn.UpdateItem id=" +:+ reqID +:+ " table_name="
                              +:+ tableName +:+ " failure_reason=" +:+ failure)), w)
  | (None, w) => (None, w)
  end.

Definition setLocking (env : Env) (w : World) (tableName reqID : string)
    (status : bool) : error * World :=
  match conn.UpdateItem env w {|
          Update_TableName := tableName;
          Update_Key := keyID reqID;
          UpdateExpression := "SET Locking = :l";
          Update_ExpressionAttributeValues := [(":l", AttrBOOL status)] |} with
  | (Some err, w) =>
      (Some (errors.wrap err ("conn.UpdateItem id=" +:+ reqID
                              +:+ " table_name=" +:+ tableName)), w)
  | (None, w) => (None, w)
  end.

(** [Lock]: set record Locking=true. *)
Definition Lock (env : Env) (w : World) (tableName reqID : string) : error * World :=
  setLocking env w tableName reqID true.

(** [Unlock]: set record Locking=false. *)
Definition Unlock (env : Env) (w : World) (tableName reqID : string) : error * World :=
  setLocking env w tableName reqID false.

(** *** http.go *)

(** [HTTPClient]: manages http request communication. *)
Record HTTPClient (U : Type) : Type := {
  baseURL : U;
  userAgent : string;
  token : string }.
Arguments baseURL {U} _.
Arguments userAgent {U} _.
Arguments token {U} _.

(** [NewClient]: returns initialized http client. *)
Definition NewClient {U} (net : http.Net U) (conf : config.Configuration)
  : result (HTTPClient U) :=
  match http.Parse net (config.BaseURL conf) with
  | Err err => Err (errors.wrap err "url.Parse")
  | Ok baseURL =>
      Ok {| baseURL := baseURL;
            userAgent := config.UserAgent conf;
            token := config.Token conf |}
  end.

(** [Must]: ensures http client is properly initialized. *)
Definition Must {U} (r : result (HTTPClient U)) : outcome (HTTPClient U) :=
  match r with
  | Err err => Panics (Error err)
  | Ok client => Returns client
  end.

(** The first half of [DoRequest], up to [req.WithContext(ctx)]: the
    request that is handed to [c.Do]. The caller's headers are added in
    the order the map yields them. *)
Definition outgoing {U} (net : http.Net U) (c : HTTPClient U)
    (method urlStr : string) (headers : list (string * string)) (body : string)
  : result http.Request :=
  match http.Parse net urlStr with
  | Err err => Err (errors.wrap err ("url.Parse rawurl=" +:+ urlStr))
  | Ok rel =>
      let u := http.ResolveReference net (baseURL c) rel in
      match http.NewRequest net method (http.String_ net u) body with
      | Err err =>
          Err (errors.wrap err ("http.NewRequest method=" +:+ method
                                +:+ " url=" +:+ http.String_ net u))
      | Ok req =>
          let h := foldl (fun h kv => http.Add h (fst kv) (snd kv))
                         (http.Header_ req) headers in
          let h := if negb (String.eqb (userAgent c) "")
                   then http.Add h "User-Agent" (userAgent c) else h in
          let h := if negb (String.eqb (token c) "")
                   then http.Set_ h "Authorization" ("Bearer " +:+ token c) else h in
          Ok (http.withHeader req h)
      end
  end.

(** [DoRequest]: performs http request call by given parameters. The
    deferred [resp.Body.Close()] assigns its error to a local variable
    after the results are set, so it does not reach the caller. *)
Definition HTTPClient_DoRequest {U} (net : http.Net U) (c : HTTPClient U)
    (method urlStr : string) (headers : list (string * string)) (body : string)
  : result Response :=
  match outgoing net c method urlStr headers body with
  | Err err => Err err
  | Ok req =>
      match http.Do net req with
      | Err err => Err (errors.wrap err "c.Do")
      | Ok resp =>
          match http.ReadAll resp with
          | Err err => Err (errors.wrap err "ioutil.ReadAll resp.Body")
          | Ok raw => Ok {| Code := http.StatusCode resp; Body := raw |}
          end
      end
  end.

Definition errorOf {T} (r : result T) : error :=
  match r with
  | Ok _ => None
  | Err e => Some e
  end.

Definition execRequest (env : Env) (w : World) (req : ScheduledRequest)
  : result Response * World :=
  let r := DoRequest env w (Method req) (URL req) (Headers req) (Payload req) in
  let w := record w (CallDoRequest (Method req) (URL req) (Headers req) (Payload req))
                  (errorOf r) in
  match r with
  | Err err =>
      (Err (errors.wrap err ("client.DoRequest method=" +:+ Method req
                             +:+ " url=" +:+ URL req)), w)
  | Ok resp => (Ok resp, w)
  end.

(** *** The dispatch engine *)

Definition execute (env : Env) (w : World) (req : ScheduledRequest) (table : string)
  : error * World :=
  (* Always lock the request to be executing. *)
  match Lock env w table (ID req) with
  | (Some err, w) =>
      (Some (errors.wrap err ("lock id=" +:+ ID req +:+ " table_name=" +:+ table)), w)
  | (None, w) =>
      match execRequest env w req with
      | (Err err, w) =>
          let err := errors.wrap err ("execRequest " +:+ ToString req) in
          let '(lerr, w) := logFailure env w table (ID req) err in
          (multierr.Append (Some err) lerr, w)
      | (Ok resp, w) =>
          if PersistentStore req then
            match updateResult env w table (ID req) resp (Now env w) with
            | (Some err, w) =>
                (Some (errors.wrap err ("storeResult req[" +:+ ToString req
                                        +:+ "] resp[" +:+ Response_ToString resp +:+ "]")), w)
            | (None, w) => (None, w)
            end
          else
            match removeRequest env w table (ID req) with
            | (Some err, w) =>
                (Some (errors.wrap err ("removeRequest " +:+ ToString req)), w)
            | (None, w) => (None, w)
            end
      end
  end.

(** The goroutines of [TriggerAPI], one per request, run here one after
    the other in the order of the slice; each sends its error, if it has
    one, on the channel. The result is the sequence of the values sent. *)
Fixpoint spawn (env : Env) (w : World) (requests : list ScheduledRequest)
    (tableName : string) : list error * World :=
  match requests with
  | [] => ([], w)
  | req :: rest =>
      let '(gErr, w) := execute env w req tableName in
      let sent :=
        match gErr with
        | Some e => [Some (errors.wrap e ("execute " +:+ ToString req
                                          +:+ " table_name=" +:+ tableName))]
        | None => []
        end in
      let '(more, w) := spawn env w rest tableName in
      (sent ++ more, w)
  end.

(** [for gErr := range errc]: the receiving loop. *)
Definition drain (errc : list error) (err : error) : error :=
  foldl (fun err gErr =>
           match gErr with
           | Some _ => multierr.Combine [err; gErr]
           | None => err
           end) err errc.

(** [TriggerAPI]: executes the pre-scheduled rest API calls. *)
Definition TriggerAPI (env : Env) (w : World) (conf : config.Configuration)
  : error * World :=
  match FetchSchedRequests env w (config.TableName conf) (Now env w) with
  | (Err err, w) => (errors.Wrap (Some err) "fetchSchedRequests", w)
  | (Ok requests, w) =>
      let '(errc, w) := spawn env w requests (config.TableName conf) in
      (drain errc None, w)
  end.

End scheduler.

(** ** Package session of the AWS SDK *)

Module session.

(** [session.Must(session.NewSession(nil))], given the error with which
    [NewSession] comes back: it panics with that error. *)
Definition Must (err : error) : outcome unit :=
  match err with
  | Some e => Panics (Error e)
  | None => Returns tt
  end.

End session.

(** ** The Lambda entry point (main.go) *)

Module lambda.

(** [handler(conf, conn, client)(ctx)]: one pass, its error wrapped. *)
Definition handler (env : Env) (w : World) (conf : config.Configuration) : error * World :=
  let '(err, w) := scheduler.TriggerAPI env w conf in
  (errors.Wrap err "scheduler.TriggerAPI", w).

(** [main], up to [lambda.Start]: the configuration and the client the
    handler is started with. Between the two [main] opens the AWS session
    for the backend connection; [newSession] is the error with which
    [session.NewSession(nil)] comes back. *)
Definition main {U} (getenv : string -> string) (newSession : error) (net : http.Net U)
  : outcome (config.Configuration * scheduler.HTTPClient U) :=
  conf ← config.Must (config.NewConfiguration getenv);
  _ ← session.Must newSession;
  client ← scheduler.Must (scheduler.NewClient net conf);
  Returns (conf, client).

End lambda.

(** ** The administration command (cli) *)

Module cli.

(** [strings.Split(s, sep)] for a separator of one byte, which is what both
    calls of the command pass: the pieces of [s] between the separators,
    and [s] itself when it has none. *)
Fixpoint Split (s : string) (sep : ascii) : list string :=
  match s with
  | "" => [""]
  | String c rest =>
      if Ascii.eqb c sep then "" :: Split rest sep
      else match Split rest sep with
           | piece :: more => String c piece :: more
           | [] => [String c ""]
           end
  end.

(** The [-headers] flag of the [create] action, a comma separated list of
    [key:value], as [main] turns it into the headers of the request: the
    map stays nil for an empty flag, and [parts[1]] is an index out of
    range for an entry without a colon. *)
Definition headersFlag (headers : string) : outcome (gmap string string) :=
  if negb (String.eqb headers "") then
    foldl (fun acc v =>
             m ← acc;
             match Split v ":" with
             | k :: val :: _ => Returns (<[k := val]> m)
             | _ => Panics "runtime error: index out of range"
             end)
          (Returns ∅) (Split headers ",")
  else Returns ∅.

End cli.

(** ** Vocabulary of the properties *)

Section Vocabulary.

Import dynamodb schema scheduler.

(** The calls the engine makes for a record. *)
Definition lockCall (table id : string) (status : bool) : Call :=
  CallUpdateItem {|
    Update_TableName := table;
    Update_Key := keyID id;
    UpdateExpression := "SET Locking = :l";
    Update_ExpressionAttributeValues := [(":l", AttrBOOL status)] |}.

Definition claimCall (table id : string) : Call := lockCall table id true.

Definition failureCall (table id failure : string) : Call :=
  CallUpdateItem {|
    Update_TableName := table;
    Update_Key := keyID id;
    UpdateExpression := "SET FailureReason = :f";
    Update_ExpressionAttributeValues := [(":f", AttrS failure)] |}.

Definition resultCall (table id result : string) (current : gotime.Time) : Call :=
  CallUpdateItem {|
    Update_TableName := table;
    Update_Key := keyID id;
    UpdateExpression := "SET ExecutionResult = :r, ExecutedAt = :e";
    Update_ExpressionAttributeValues :=
      [(":r", AttrS result); (":e", AttrS (gotime.Format current unixFormat))] |}.

Definition removeCall (table id : string) : Call :=
  CallDeleteItem {| Delete_TableName := table; Delete_Key := keyID id |}.

Definition execCall (req : ScheduledRequest) : Call :=
  CallDoRequest (Method req) (URL req) (Headers req) (Payload req).

Definition scanCall (table : string) (current : gotime.Time) : Call :=
  CallScan {|
    Scan_TableName := table;
    FilterExpression := "EffectiveAfter <= :d and Locking = :l";
    Scan_ExpressionAttributeValues :=
      [(":d", AttrS (gotime.Format current unixFormat)); (":l", AttrBOOL false)] |}.

Definition getCall (table id : string) : Call :=
  CallGetItem {| Get_TableName := table; Get_Key := keyID id |}.

(** The item under a key, or the item an update creates there. *)
Definition itemAt (t : gmap string Item) (id : string) : Item :=
  default {[ "ID" := AttrS id ]} (t !! id).

(** The world after the claim of the record [id] has been written. *)
Definition claimed (w : World) (table_ id : string) : World :=
  record (setTable w (<[id := <["Locking" := AttrBOOL true]> (itemAt (table w) id)]>
                        (table w)))
         (claimCall table_ id) None.

(** A request as it reads once it is claimed and its result recorded. *)
Definition withResult (req : ScheduledRequest) (result : string)
    (current : gotime.Time) : ScheduledRequest := {|
  ID := ID req; CreatedAt := CreatedAt req; ExecutedAt := current;
  EffectiveAfter := EffectiveAfter req; Locking := true;
  FailureReason := FailureReason req; Method := Method req; URL := URL req;
  Payload := Payload req; Headers := Headers req;
  PersistentStore := PersistentStore req; ExecutionResult := result |}.

(** An error that is not a [multiError]. *)
Definition single (err : error) : Prop :=
  match err with
  | Some (multiError _) => False
  | _ => True
  end.

(** The values the caller's headers give to a key, in the order they are
    added. *)
Definition callerValues (headers : list (string * string)) (key : string)
  : list string :=
  snd <$> List.filter
            (fun kv => String.eqb (http.CanonicalMIMEHeaderKey (fst kv))
                                  (http.CanonicalMIMEHeaderKey key))
            headers.

(** A network on which every URL parses to itself, a reference resolves
    to itself, every request is well formed and the server answers any
    request with the given status and body. *)
Definition answering (code : Z) (body : string) : http.Net string := {|
  http.Parse := fun s => Ok s;
  http.ResolveReference := fun _ rel => rel;
  http.String_ := fun u => u;
  http.NewRequestError := fun _ _ => None;
  http.Do := fun _ => Ok {| http.StatusCode := code;
                            http.ReadAll := Ok body;
                            http.Close := None |} |}.

(** A call came back with an error. *)
Definition failed (ev : Event) : Prop := ev.2 <> None.

(** A record is due at [current]: its [EffectiveAfter], down to the second,
    is not after [current], down to the second, and it is not locked. *)
Definition due (current : gotime.Time) (req : ScheduledRequest) : bool :=
  negb (gotime.After (gotime.Truncate (EffectiveAfter req)) (gotime.Truncate current))
  && negb (Locking req).

Definition wellformedRequest (req : ScheduledRequest) : bool :=
  gotime.wellformed (CreatedAt req) && gotime.wellformed (ExecutedAt req)
  && gotime.wellformed (EffectiveAfter req).

(** The table that holds the given records, each as [Create] stores it. *)
Definition store (recs : list ScheduledRequest) : gmap string Item :=
  list_to_map ((fun req => (ID req, dynamodbattribute.encode req)) <$> recs).

(** The due-query's predicate on a stored item. *)
Definition dueItem (current : gotime.Time) (it : Item) : bool :=
  match it !! "EffectiveAfter" with
  | Some a => valueLeb a (AttrS (gotime.Format current unixFormat))
  | None => false
  end
  && match it !! "Locking" with
     | Some a => valueEqb a (AttrBOOL false)
     | None => false
     end.

(** [t'] is [t] after a field-level update of the item under [id]: the
    attributes [attrs] have their new values, every other attribute of the
    item and every other item are as before. *)
Definition partialUpdate (t t' : gmap string Item) (id : string)
    (attrs : list (string * AttributeValue)) : Prop :=
  (forall k, k <> id -> t' !! k = t !! k) /\
  exists item', t' !! id = Some item' /\
    (forall a v, (a, v) ∈ attrs -> item' !! a = Some v) /\
    (forall a, a ∉ attrs.*1 -> item' !! a = itemAt t id !! a).

(** Every item carries its key. *)
Definition keyed (t : gmap string Item) : Prop :=
  forall k it, t !! k = Some it -> it !! "ID" = Some (AttrS k).

(** The [w] low decimal digits of [n], and the text of a well-formed
    instant up to its seconds, followed by [rest]. *)
Fixpoint digits (w : nat) (n : N) : string :=
  match w with
  | O => ""
  | S w' => digits w' (n / 10) +:+ String (gotime.digit n) ""
  end.

Definition layoutWith (t : gotime.Time) (rest : string) : string :=
  digits 4 (gotime.year t) +:+ String "-" (
  digits 2 (gotime.month t) +:+ String "-" (
  digits 2 (gotime.day t) +:+ String "T" (
  digits 2 (gotime.hour t) +:+ String ":" (
  digits 2 (gotime.minute t) +:+ String ":" (
  digits 2 (gotime.second t) +:+ rest))))).

(** The number a string of digits reads as, after [acc]. *)
Fixpoint valueOf (acc : N) (s : string) : N :=
  match s with
  | "" => acc
  | String c rest =>
      match gotime.digitVal c with
      | Some d => valueOf (10 * acc + d) rest
      | None => acc
      end
  end.

Fixpoint allDigits (s : string) : bool :=
  match s with
  | "" => true
  | String c rest =>
      match gotime.digitVal c with
      | Some _ => allDigits rest
      | None => false
      end
  end.

(** *** Sample data on which the properties are exercised *)

Definition sampleClock : gotime.Time := gotime.Date 2018 9 3 0 2 3 500000000.

Definition sampleRequest (id : string) (effectiveAfter : gotime.Time)
    (locking persistent : bool) : ScheduledRequest := {|
  ID := id; CreatedAt := gotime.Date 2018 9 1 0 2 3 0; ExecutedAt := gotime.zero;
  EffectiveAfter := effectiveAfter; Locking := locking; FailureReason := "";
  Method := "GET"; URL := "http://example.com/ping"; Payload := "";
  Headers := [("Accept", "application/json")];
  PersistentStore := persistent; ExecutionResult := "" |}.

(** Due, not yet due, locked, and due and persistent. *)
Definition requestA : ScheduledRequest :=
  sampleRequest "a" (gotime.Date 2018 9 2 0 2 3 0) false false.
Definition requestB : ScheduledRequest :=
  sampleRequest "b" (gotime.Date 2018 9 4 0 2 3 0) false false.
Definition requestC : ScheduledRequest :=
  sampleRequest "c" (gotime.Date 2018 9 2 0 2 3 0) true false.
Definition requestD : ScheduledRequest :=
  sampleRequest "d" (gotime.Date 2018 9 3 0 2 3 0) false true.

(** Due four tenths of a second after the sample clock's reading. *)
Definition requestF : ScheduledRequest :=
  sampleRequest "f" (gotime.Date 2018 9 3 0 2 3 900000000) false false.

Definition requestE : ScheduledRequest :=
  sampleRequest "e" (gotime.Date 2018 9 1 12 0 0 0) false false.

Definition sampleConf : config.Configuration := {|
  config.TableName := "citium_schedule"; config.BaseURL := "";
  config.Token := ""; config.UserAgent := "" |}.

Definition sampleWorld (recs : list ScheduledRequest) : World :=
  {| table := store recs; trace := [] |}.

(** An outside world that refuses the calls [refused] selects, answers
    every request with [answer] and whose clock stands still. *)
Definition sampleEnv (refused : Call -> error) (answer : result Response) : Env := {|
  fault := fun _ c => refused c;
  DoRequest := fun _ _ _ _ _ => answer;
  Now := fun _ => sampleClock |}.

Definition sampleAnswer : result Response := Ok {| Code := 200; Body := "" |}.

Definition refuseNothing (c : Call) : error := None.

Definition refuseUpdates (c : Call) : error :=
  match c with
  | CallUpdateItem _ => Some (errorString "Internal error")
  | _ => None
  end.

Definition isUpdate (ev : Event) : bool :=
  match ev.1 with
  | CallUpdateItem _ => true
  | _ => false
  end.

Definition isExec (ev : Event) : bool :=
  match ev.1 with
  | CallDoRequest _ _ _ _ => true
  | _ => false
  end.

Definition refuseDeletes (c : Call) : error :=
  match c with
  | CallDeleteItem _ => Some (errorString "Internal error")
  | _ => None
  end.

(** The backend of the repository's tests: [updateErr] is returned by the
    first [UpdateItem] only. *)
Definition onceEnv (answer : result Response) : Env := {|
  fault := fun w c =>
    match c with
    | CallUpdateItem _ =>
        if existsb isUpdate (trace w) then None else Some (errorString "Internal error")
    | _ => None
    end;
  DoRequest := fun _ _ _ _ _ => answer;
  Now := fun _ => sampleClock |}.

(** How many times the Request Executor was invoked. *)
Definition execCalls (w : World) : nat := length (List.filter isExec (trace w)).

Definition refuseScan (c : Call) : error :=
  match c with
  | CallScan _ => Some (errorString "internal error")
  | _ => None
  end.

Definition sampleClient : HTTPClient string :=
  {| baseURL := ""; userAgent := "citium/0.0.1"; token := "" |}.

(** An outside world whose requester is the HTTP client on a network that
    answers with the given status and body. *)
Definition clientEnv (code : Z) (body : string) : Env := {|
  fault := fun _ _ => None;
  DoRequest := fun _ => HTTPClient_DoRequest (answering code body) sampleClient;
  Now := fun _ => sampleClock |}.

End Vocabulary.

(** ** Vocabulary of the further properties *)

Section FurtherVocabulary.

Import dynamodb schema scheduler.

Definition putCall (table : string) (req : ScheduledRequest) : Call :=
  CallPutItem {| Put_Item := dynamodbattribute.encode req; Put_TableName := table |}.

(** The encoder accepts the request: no header has an empty key. *)
Definition encodable (req : ScheduledRequest) : bool :=
  negb (existsb (fun kv => String.eqb (fst kv) "") (Headers req)).

(** A request that has nothing but its key and its [Locking]. *)
Definition stub (id : string) (status : bool) : ScheduledRequest := {|
  ID := id; CreatedAt := gotime.zero; ExecutedAt := gotime.zero;
  EffectiveAfter := gotime.zero; Locking := status; FailureReason := "";
  Method := ""; URL := ""; Payload := ""; Headers := [];
  PersistentStore := false; ExecutionResult := "" |}.

(** The due-query cannot return what is under the key: there is no item,
    or its [Locking] is not false. *)
Definition settled (t : gmap string Item) (id : string) : Prop :=
  forall item, t !! id = Some item -> item !! "Locking" <> Some (AttrBOOL false).

(** The call is one the engine makes for the record [id] of the table: the
    request itself, or a write under the record's key. *)
Definition concerns (tableName id : string) (c : Call) : Prop :=
  match c with
  | CallUpdateItem input =>
      Update_TableName input = tableName /\ Update_Key input = keyID id
  | CallDeleteItem input =>
      Delete_TableName input = tableName /\ Delete_Key input = keyID id
  | CallDoRequest _ _ _ _ => True
  | _ => False
  end.

(** The event is a write of [Locking]; it is one the backend accepted. *)
Definition isSetLocking (ev : Event) : bool :=
  match ev.1 with
  | CallUpdateItem input => String.eqb (UpdateExpression input) "SET Locking = :l"
  | _ => false
  end.

Definition accepted (ev : Event) : bool :=
  isSetLocking ev && match ev.2 with None => true | Some _ => false end.


(** The byte [sep] does not occur in [s]. *)
Fixpoint free (sep : ascii) (s : string) : bool :=
  match s with
  | "" => true
  | String c rest => negb (Ascii.eqb c sep) && free sep rest
  end.

(** A header as the [-headers] flag takes it, and a key or value that has
    neither a comma nor a colon. *)
Definition entry (kv : string * string) : string := kv.1 +:+ ":" +:+ kv.2.

Definition plain (s : string) : bool := free "," s && free ":" s.

(** A stored item whose [Method] is not a string, and a table that holds
    it beside a well-formed record. *)
Definition brokenItem : Item :=
  <["Method" := AttrBOOL true]> (dynamodbattribute.encode requestA).

Definition brokenWorld : World :=
  {| table := <["a" := brokenItem]> (store [requestE]); trace := [] |}.

End FurtherVocabulary.

(** * Properties *)

(** ** The stored layout of instants *)

Section TimeLayout.

Import gotime.

Lemma append_cons (x : ascii) (a b : string) : String x a +:+ b = String x (a +:+ b).
Proof. reflexivity. Qed.

Lemma append_assoc (a b c : string) : (a +:+ b) +:+ c = a +:+ (b +:+ c).
Proof.
  induction a as [|x a IH]; [reflexivity|].
  now rewrite !append_cons, IH.
Qed.

Lemma append_nil_r (a : string) : a +:+ "" = a.
Proof.
  induction a as [|x a IH]; [reflexivity|].
  now rewrite append_cons, IH.
Qed.

Lemma length_append (a b : string) :
  String.length (a +:+ b) = String.length a + String.length b.
Proof.
  induction a as [|x a IH]; [reflexivity|].
  rewrite append_cons. simpl. now rewrite IH.
Qed.

Lemma length_digits w n : String.length (digits w n) = w.
Proof.
  revert n; induction w as [|w IH]; intros n; simpl; [reflexivity|].
  rewrite length_append, IH. simpl. lia.
Qed.

Lemma appendInt_digits w n :
  (n < 10 ^ N.of_nat w)%N -> appendInt w n = digits w n.
Proof.
  revert n; induction w as [|w IH]; intros n Hn.
  - simpl in *. assert (n = 0%N) as -> by lia. reflexivity.
  - cbn [appendInt digits]. rewrite IH; [reflexivity|].
    rewrite Nat2N.inj_succ, N.pow_succ_r' in Hn.
    apply N.Div0.div_lt_upper_bound. lia.
Qed.


Lemma N_of_digit n : N_of_ascii (digit n) = (48 + n mod 10)%N.
Proof.
  unfold digit. apply N_ascii_embedding.
  pose proof (N.mod_upper_bound n 10). lia.
Qed.

Lemma lexico_assoc a b c : lexico (lexico a b) c = lexico a (lexico b c).
Proof. now destruct a. Qed.

Lemma bytesCompare_append a b s t :
  String.length a = String.length b ->
  dynamodb.bytesCompare (a +:+ s) (b +:+ t)
  = lexico (dynamodb.bytesCompare a b) (dynamodb.bytesCompare s t).
Proof.
  revert b; induction a as [|x a IH]; intros [|y b] Hlen; simpl in Hlen; try discriminate.
  - reflexivity.
  - rewrite !append_cons. simpl. destruct (N_of_ascii x ?= N_of_ascii y)%N; simpl; auto.
Qed.

Lemma bytesCompare_cons c s t :
  dynamodb.bytesCompare (String c s) (String c t) = dynamodb.bytesCompare s t.
Proof. simpl. now rewrite N.compare_refl. Qed.

Lemma compare_base10 (qa ra qb rb : N) :
  (ra < 10)%N -> (rb < 10)%N ->
  (10 * qa + ra ?= 10 * qb + rb)%N = lexico (qa ?= qb)%N (ra ?= rb)%N.
Proof.
  intros Ha Hb.
  destruct (N.compare_spec qa qb); simpl.
  - destruct (N.compare_spec ra rb).
    + apply N.compare_eq_iff. lia.
    + apply N.compare_lt_iff. lia.
    + apply N.compare_gt_iff. lia.
  - apply N.compare_lt_iff. lia.
  - apply N.compare_gt_iff. lia.
Qed.

Lemma compare_div10 a b :
  (a ?= b)%N = lexico (a / 10 ?= b / 10)%N (a mod 10 ?= b mod 10)%N.
Proof.
  rewrite (N.div_mod a 10) at 1 by lia.
  rewrite (N.div_mod b 10) at 1 by lia.
  apply compare_base10; apply N.mod_upper_bound; lia.
Qed.

Lemma compare_add_l (p x y : N) : (p + x ?= p + y)%N = (x ?= y)%N.
Proof.
  destruct (N.compare_spec x y).
  - apply N.compare_eq_iff. lia.
  - apply N.compare_lt_iff. lia.
  - apply N.compare_gt_iff. lia.
Qed.

Lemma div10_lt w n : (n < 10 ^ N.of_nat (S w))%N -> (n / 10 < 10 ^ N.of_nat w)%N.
Proof.
  rewrite Nat2N.inj_succ, N.pow_succ_r'. intros Hn.
  apply N.Div0.div_lt_upper_bound. lia.
Qed.

Lemma bytesCompare_digits w a b :
  (a < 10 ^ N.of_nat w)%N -> (b < 10 ^ N.of_nat w)%N ->
  dynamodb.bytesCompare (digits w a) (digits w b) = (a ?= b)%N.
Proof.
  revert a b; induction w as [|w IH]; intros a b Ha Hb.
  - simpl in *. assert (a = 0%N) as -> by lia. assert (b = 0%N) as -> by lia.
    reflexivity.
  - cbn [digits]. rewrite bytesCompare_append by now rewrite !length_digits.
    rewrite IH by now apply div10_lt.
    rewrite (compare_div10 a b). f_equal.
    simpl. rewrite !N_of_digit, compare_add_l.
    now destruct (a mod 10 ?= b mod 10)%N.
Qed.

Lemma lexico_Eq_r c : lexico c Eq = c.
Proof. now destruct c. Qed.

Lemma daysIn_le m y : (daysIn m y <= 31)%N.
Proof.
  unfold daysIn.
  repeat match goal with
         | |- context [match ?x with _ => _ end] => destruct x
         end; lia.
Qed.

Lemma wellformed_bounds t :
  wellformed t = true ->
  (year t < 10 ^ N.of_nat 4 /\ month t < 10 ^ N.of_nat 2 /\ day t < 10 ^ N.of_nat 2
   /\ hour t < 10 ^ N.of_nat 2 /\ minute t < 10 ^ N.of_nat 2
   /\ second t < 10 ^ N.of_nat 2)%N.
Proof.
  unfold wellformed. rewrite !andb_true_iff.
  rewrite !N.leb_le, !N.ltb_lt.
  pose proof (daysIn_le (month t) (year t)).
  change (10 ^ N.of_nat 4)%N with 10000%N.
  change (10 ^ N.of_nat 2)%N with 100%N.
  lia.
Qed.

Lemma wellformed_Truncate t : wellformed t = true -> wellformed (Truncate t) = true.
Proof.
  unfold wellformed, Truncate. cbn [year month day hour minute second nanosecond].
  rewrite !andb_true_iff. intuition.
Qed.

Lemma wellformed_nanosecond t :
  wellformed t = true -> (nanosecond t < 10 ^ N.of_nat 9)%N.
Proof.
  unfold wellformed. rewrite !andb_true_iff, !N.ltb_lt.
  change (10 ^ N.of_nat 9)%N with 1000000000%N. tauto.
Qed.

Lemma Format_unixFormat t :
  wellformed t = true -> Format t scheduler.unixFormat = layoutWith t "Z".
Proof.
  intros Hwf. apply wellformed_bounds in Hwf as (Hy & Hmo & Hd & Hh & Hmi & Hs).
  unfold layoutWith.
  rewrite <- !appendInt_digits by assumption.
  reflexivity.
Qed.

Lemma Format_RFC3339Nano t :
  wellformed t = true ->
  Format t dynamodbattribute.RFC3339Nano = layoutWith t (fraction (nanosecond t) +:+ "Z").
Proof.
  intros Hwf. apply wellformed_bounds in Hwf as (Hy & Hmo & Hd & Hh & Hmi & Hs).
  unfold layoutWith.
  rewrite <- !appendInt_digits by assumption.
  reflexivity.
Qed.

Lemma bytesCompare_layoutWith t u s1 s2 :
  wellformed t = true -> wellformed u = true ->
  dynamodb.bytesCompare (layoutWith t s1) (layoutWith u s2)
  = lexico (compareSeconds t u) (dynamodb.bytesCompare s1 s2).
Proof.
  intros Ht Hu.
  apply wellformed_bounds in Ht as (? & ? & ? & ? & ? & ?).
  apply wellformed_bounds in Hu as (? & ? & ? & ? & ? & ?).
  unfold layoutWith, compareSeconds.
  repeat (rewrite bytesCompare_append by (now rewrite !length_digits);
          rewrite bytesCompare_digits by assumption;
          rewrite ?bytesCompare_cons).
  now rewrite !lexico_assoc.
Qed.

(** For an instant on a whole second, being after another down to the
    second is being after it. *)
Lemma After_Truncate t u :
  nanosecond t = 0%N -> After (Truncate t) (Truncate u) = After t u.
Proof.
  intros Hns. unfold After, compare.
  change (compareSeconds (Truncate t) (Truncate u)) with (compareSeconds t u).
  cbn [Truncate nanosecond]. rewrite Hns.
  destruct (compareSeconds t u); cbn [lexico]; try reflexivity.
  now destruct (nanosecond u).
Qed.

Lemma fraction_head nsec :
  fraction nsec = "" \/ exists ds, fraction nsec = String "." ds.
Proof.
  unfold fraction. destruct (String.eqb _ _); eauto.
Qed.

(** The stored text of an instant is at most the text of the clock's
    reading exactly when the instant is not after the reading down to the
    second: a stored fraction sorts before the final [Z]. *)
Lemma bytesCompare_stored t u :
  wellformed t = true -> wellformed u = true ->
  match dynamodb.bytesCompare (Format t dynamodbattribute.RFC3339Nano)
                              (Format u scheduler.unixFormat) with
  | Gt => false
  | _ => true
  end
  = negb (After (Truncate t) (Truncate u)).
Proof.
  intros Ht Hu. rewrite Format_RFC3339Nano, Format_unixFormat by assumption.
  rewrite bytesCompare_layoutWith by assumption.
  unfold After, compare.
  change (compareSeconds (Truncate t) (Truncate u)) with (compareSeconds t u).
  cbn [Truncate nanosecond]. rewrite N.compare_refl, lexico_Eq_r.
  destruct (compareSeconds t u); cbn [lexico negb]; try reflexivity.
  destruct (fraction_head (nanosecond t)) as [->|[ds ->]]; reflexivity.
Qed.

Lemma digitVal_digit n : digitVal (digit n) = Some (n mod 10)%N.
Proof.
  unfold digitVal. rewrite N_of_digit.
  pose proof (N.mod_upper_bound n 10 ltac:(lia)).
  generalize dependent (n mod 10)%N. intros r Hr.
  replace (48 <=? 48 + r)%N with true by (symmetry; apply N.leb_le; lia).
  replace (48 + r <=? 57)%N with true by (symmetry; apply N.leb_le; lia).
  simpl. f_equal. lia.
Qed.

Lemma readInt_snoc w acc s :
  readInt (S w) acc s
  = match readInt w acc s with
    | Some (a, s') => readInt 1 a s'
    | None => None
    end.
Proof.
  revert acc s; induction w as [|w IH]; intros acc s; [reflexivity|].
  cbn [readInt] in *. destruct s as [|c rest]; [reflexivity|].
  destruct (digitVal c); [|reflexivity]. apply IH.
Qed.

Lemma readInt_digits w acc n rest :
  (n < 10 ^ N.of_nat w)%N ->
  readInt w acc (digits w n +:+ rest) = Some (acc * 10 ^ N.of_nat w + n, rest)%N.
Proof.
  revert acc n rest; induction w as [|w IH]; intros acc n rest Hn.
  - simpl in *. f_equal. f_equal. lia.
  - rewrite readInt_snoc. cbn [digits]. rewrite append_assoc, append_cons.
    rewrite IH by now apply div10_lt.
    cbn [readInt]. rewrite digitVal_digit. cbn [readInt append]. f_equal. f_equal.
    rewrite Nat2N.inj_succ, N.pow_succ_r'.
    rewrite (N.div_mod n 10) at 3 by lia.
    generalize (n / 10)%N (n mod 10)%N (10 ^ N.of_nat w)%N. intros. lia.
Qed.

(** *** Reading a stored instant back *)

Lemma valueOf_snoc acc s c d :
  allDigits s = true -> digitVal c = Some d ->
  valueOf acc (s +:+ String c "") = (10 * valueOf acc s + d)%N.
Proof.
  intros Hs Hc. revert acc. induction s as [|x s IH]; intros acc.
  - change ("" +:+ String c "") with (String c ""). cbn [valueOf]. now rewrite Hc.
  - rewrite append_cons. cbn [valueOf allDigits] in *.
    destruct (digitVal x); [|discriminate]. now apply IH.
Qed.

Lemma allDigits_snoc s c d :
  allDigits s = true -> digitVal c = Some d -> allDigits (s +:+ String c "") = true.
Proof.
  intros Hs Hc. induction s as [|x s IH].
  - change ("" +:+ String c "") with (String c ""). cbn [allDigits]. now rewrite Hc.
  - rewrite append_cons. cbn [allDigits] in *.
    destruct (digitVal x); [|discriminate]. now apply IH.
Qed.

Lemma allDigits_digits w n : allDigits (digits w n) = true.
Proof.
  revert n. induction w as [|w IH]; intros n; [reflexivity|].
  cbn [digits]. eapply allDigits_snoc; [apply IH|apply digitVal_digit].
Qed.

Lemma valueOf_digits w n :
  (n < 10 ^ N.of_nat w)%N -> valueOf 0 (digits w n) = n.
Proof.
  revert n. induction w as [|w IH]; intros n Hn.
  - cbn in *. lia.
  - cbn [digits].
    rewrite (valueOf_snoc 0 _ _ (n mod 10)) by (apply allDigits_digits || apply digitVal_digit).
    rewrite IH by now apply div10_lt.
    rewrite (N.div_mod n 10) at 3 by lia. reflexivity.
Qed.

Lemma digitVal_0 : digitVal "0" = Some 0%N.
Proof. reflexivity. Qed.

(** Dropping the trailing zeros of a string of digits divides its value by
    a power of ten. *)
Lemma trimZeros_spec s :
  allDigits s = true ->
  allDigits (trimZeros s) = true
  /\ String.length (trimZeros s) <= String.length s
  /\ forall acc,
       valueOf acc s
       = (valueOf acc (trimZeros s)
          * 10 ^ N.of_nat (String.length s - String.length (trimZeros s)))%N.
Proof.
  induction s as [|c s IH]; intros Hs.
  - split; [reflexivity|]. split; [reflexivity|]. intros acc. cbn. lia.
  - cbn [allDigits] in Hs. destruct (digitVal c) as [d|] eqn:Hc; [|discriminate].
    destruct (IH Hs) as (Hd & Hlen & Hval). cbn [trimZeros].
    destruct (String.eqb_spec (trimZeros s) "") as [He|Hne]; cbn [andb].
    + destruct (Ascii.eqb_spec c "0") as [->|Hc0].
      * split; [reflexivity|]. split; [cbn; lia|]. intros acc. cbn [valueOf].
        rewrite digitVal_0, Hval, He. cbn [valueOf String.length].
        rewrite !Nat.sub_0_r, Nat2N.inj_succ, N.pow_succ_r'. lia.
      * cbn [allDigits]. rewrite Hc.
        split; [assumption|]. split; [cbn; lia|].
        intros acc. cbn [valueOf String.length]. rewrite Hc. apply Hval.
    + cbn [allDigits]. rewrite Hc.
      split; [assumption|]. split; [cbn; lia|].
      intros acc. cbn [valueOf String.length]. rewrite Hc. apply Hval.
Qed.

Lemma readDigits_spec s room acc rest :
  allDigits s = true -> String.length s <= room ->
  readDigits room acc (s +:+ String "Z" rest)
  = ((valueOf acc s * 10 ^ N.of_nat (room - String.length s))%N, String "Z" rest).
Proof.
  revert room acc. induction s as [|c s IH]; intros room acc Hs Hlen.
  - cbn. rewrite Nat.sub_0_r. now destruct room.
  - rewrite append_cons. cbn [allDigits String.length valueOf] in *.
    destruct (digitVal c) as [d|] eqn:Hc; [|discriminate].
    destruct room as [|room]; [lia|]. cbn [readDigits]. rewrite Hc.
    rewrite IH by (assumption || lia). reflexivity.
Qed.

Lemma readFraction_fraction nsec :
  (nsec < 10 ^ N.of_nat 9)%N ->
  readFraction (fraction nsec +:+ "Z") = (nsec, "Z").
Proof.
  intros Hn. unfold fraction. rewrite appendInt_digits by assumption.
  destruct (trimZeros_spec (digits 9 nsec) (allDigits_digits 9 nsec)) as (Hd & Hlen & Hval).
  specialize (Hval 0%N). rewrite valueOf_digits, length_digits in Hval by assumption.
  rewrite length_digits in Hlen.
  destruct (trimZeros (digits 9 nsec)) as [|c ds] eqn:Hds.
  - cbn in Hval. subst nsec. reflexivity.
  - cbn [String.eqb]. rewrite !append_cons.
    cbn [allDigits] in Hd. destruct (digitVal c) as [d|] eqn:Hc; [|discriminate].
    cbn [readFraction]. rewrite Hc. rewrite <- append_cons.
    rewrite readDigits_spec; [|cbn [allDigits]; now rewrite Hc|assumption].
    now rewrite <- Hval.
Qed.

(** Reading back the stored text of an instant gives the instant. *)
Lemma Parse_layoutWith t :
  wellformed t = true ->
  Parse (layoutWith t (fraction (nanosecond t) +:+ "Z")) = Some t.
Proof.
  intros Hwf.
  pose proof (wellformed_bounds t Hwf) as (? & ? & ? & ? & ? & ?).
  pose proof (wellformed_nanosecond t Hwf).
  unfold Parse, layoutWith.
  repeat (rewrite readInt_digits by assumption; cbn [mbind option_bind readChar Ascii.eqb Bool.eqb]).
  rewrite readFraction_fraction by assumption.
  cbn [mbind option_bind readChar Ascii.eqb Bool.eqb].
  rewrite !N.mul_0_l, !N.add_0_l.
  destruct t as [y mo d h mi se ns]; cbn [year month day hour minute second nanosecond].
  rewrite Hwf. reflexivity.
Qed.

Lemma Parse_RFC3339Nano t :
  wellformed t = true -> Parse (Format t dynamodbattribute.RFC3339Nano) = Some t.
Proof.
  intros Hwf. rewrite Format_RFC3339Nano by assumption. now apply Parse_layoutWith.
Qed.

(** Reading back the text of the due-query's layout gives the instant, down
    to the second. *)
Lemma Parse_Format t :
  wellformed t = true -> Parse (Format t scheduler.unixFormat) = Some (Truncate t).
Proof.
  intros Hwf. rewrite Format_unixFormat by assumption.
  pose proof (Parse_layoutWith (Truncate t) (wellformed_Truncate t Hwf)) as Hp.
  exact Hp.
Qed.

End TimeLayout.

(** ** What the backend calls of storage.go do *)

Section Backend.

Import dynamodb schema scheduler.

Lemma UpdateItem_run env w tableName reqID expr values assigns :
  (names ← parseUpdate expr;
   mapM (fun nv => v ← lookupValue values (snd nv); Some (fst nv, v)) names)
  = Some assigns ->
  "ID" ∉ assigns.*1 ->
  let input := {| Update_TableName := tableName; Update_Key := keyID reqID;
                  UpdateExpression := expr;
                  Update_ExpressionAttributeValues := values |} in
  conn.UpdateItem env w input
  = match fault env w (CallUpdateItem input) with
    | Some e => (Some e, record w (CallUpdateItem input) (Some e))
    | None =>
        (None, record (setTable w (<[reqID := conn.applyAssignments
                                                (itemAt (table w) reqID) assigns]> (table w)))
                      (CallUpdateItem input) None)
    end.
Proof.
  intros Hparse Hkey input. unfold conn.UpdateItem.
  destruct (fault env w (CallUpdateItem input)); [reflexivity|].
  subst input. cbn [Update_Key UpdateExpression Update_ExpressionAttributeValues].
  change (keyOf (keyID reqID)) with (Some reqID). cbn [mbind option_bind].
  destruct (parseUpdate expr) as [names|]; [|discriminate].
  cbn [mbind option_bind] in *. rewrite Hparse. cbn [mbind option_bind].
  rewrite bool_decide_eq_false_2 by assumption. reflexivity.
Qed.

Lemma setLocking_run env w tableName reqID status :
  setLocking env w tableName reqID status
  = match fault env w (lockCall tableName reqID status) with
    | Some e =>
        (Some (errors.wrap e ("conn.UpdateItem id=" +:+ reqID
                              +:+ " table_name=" +:+ tableName)),
         record w (lockCall tableName reqID status) (Some e))
    | None =>
        (None,
         record (setTable w (<[reqID := <["Locking" := AttrBOOL status]>
                                          (itemAt (table w) reqID)]> (table w)))
                (lockCall tableName reqID status) None)
    end.
Proof.
  unfold setLocking, lockCall.
  rewrite (UpdateItem_run env w tableName reqID _ _ [("Locking", AttrBOOL status)]);
    [|reflexivity|compute_done].
  cbv zeta. now destruct (fault env w _).
Qed.

Lemma logFailure_run env w tableName reqID lerr :
  logFailure env w tableName reqID lerr
  = match fault env w (failureCall tableName reqID (Error lerr)) with
    | Some e =>
        (Some (errors.wrap e ("conn.UpdateItem id=" +:+ reqID +:+ " table_name="
                              +:+ tableName +:+ " failure_reason=" +:+ Error lerr)),
         record w (failureCall tableName reqID (Error lerr)) (Some e))
    | None =>
        (None,
         record (setTable w (<[reqID := <["FailureReason" := AttrS (Error lerr)]>
                                          (itemAt (table w) reqID)]> (table w)))
                (failureCall tableName reqID (Error lerr)) None)
    end.
Proof.
  unfold logFailure, failureCall.
  rewrite (UpdateItem_run env w tableName reqID _ _ [("FailureReason", AttrS (Error lerr))]);
    [|reflexivity|compute_done].
  cbv zeta. now destruct (fault env w _).
Qed.

Lemma Marshal_Ok resp : exists s, json.Marshal resp = Ok s.
Proof. eexists. reflexivity. Qed.

Lemma updateResult_run env w tableName reqID resp current s :
  json.Marshal resp = Ok s ->
  updateResult env w tableName reqID resp current
  = match fault env w (resultCall tableName reqID s current) with
    | Some e =>
        (Some (errors.wrap e ("conn.UpdateItem id=" +:+ reqID +:+ " table_name="
                              +:+ tableName +:+ " result=" +:+ s)),
         record w (resultCall tableName reqID s current) (Some e))
    | None =>
        (None,
         record (setTable w (<[reqID :=
                   <["ExecutedAt" := AttrS (gotime.Format current unixFormat)]>
                     (<["ExecutionResult" := AttrS s]> (itemAt (table w) reqID))]>
                   (table w)))
                (resultCall tableName reqID s current) None)
    end.
Proof.
  intros Hs. unfold updateResult, resultCall. rewrite Hs.
  rewrite (UpdateItem_run env w tableName reqID _ _
             [("ExecutionResult", AttrS s);
              ("ExecutedAt", AttrS (gotime.Format current unixFormat))]);
    [|reflexivity|compute_done].
  cbv zeta. now destruct (fault env w _).
Qed.

Lemma removeRequest_run env w tableName reqID :
  removeRequest env w tableName reqID
  = match fault env w (removeCall tableName reqID) with
    | Some e =>
        (Some (errors.wrap e ("conn.DeleteItem id=" +:+ reqID
                              +:+ " table_name=" +:+ tableName)),
         record w (removeCall tableName reqID) (Some e))
    | None =>
        (None, record (setTable w (delete reqID (table w)))
                      (removeCall tableName reqID) None)
    end.
Proof.
  unfold removeRequest, removeCall, conn.DeleteItem.
  now destruct (fault env w _).
Qed.

Lemma Get_run env w tableName reqID :
  Get env w tableName reqID
  = match fault env w (getCall tableName reqID) with
    | Some e =>
        (Err (errors.wrap e ("conn.GetItem table_name=" +:+ tableName
                             +:+ " id=" +:+ reqID)),
         record w (getCall tableName reqID) (Some e))
    | None =>
        (match dynamodbattribute.UnmarshalMap (default ∅ (table w !! reqID)) with
         | Err err =>
             Err (errors.wrap err ("dynamodbattribute.UnmarshalMap table_name="
                                   +:+ tableName +:+ " output="
                                   +:+ GetItemOutput_GoString {| Item_ := table w !! reqID |}))
         | Ok req => Ok req
         end,
         record w (getCall tableName reqID) None)
    end.
Proof.
  unfold Get, getCall, conn.GetItem.
  destruct (fault env w _); [reflexivity|].
  change (keyOf (Get_Key _)) with (Some reqID). cbn [Item_].
  now destruct (dynamodbattribute.UnmarshalMap _).
Qed.

End Backend.

(** ** Field-level updates and point lookup *)

Section FieldUpdates.

Import dynamodb schema scheduler.

Lemma partialUpdate_one t id a v :
  partialUpdate t (<[id := <[a := v]> (itemAt t id)]> t) id [(a, v)].
Proof.
  split; [intros k Hk; now rewrite lookup_insert_ne|].
  eexists; split; [apply lookup_insert_eq|]. split.
  - intros a' v' [= -> ->]%list_elem_of_singleton. apply lookup_insert_eq.
  - intros a' Ha'. apply lookup_insert_ne. intros ->. apply Ha'. now left.
Qed.

Lemma partialUpdate_two t id a v b u :
  a <> b ->
  partialUpdate t (<[id := <[b := u]> (<[a := v]> (itemAt t id))]> t) id [(a, v); (b, u)].
Proof.
  intros Hab. split; [intros k Hk; now rewrite lookup_insert_ne|].
  eexists; split; [apply lookup_insert_eq|]. split.
  - intros a' v' [[= -> ->]|[= -> ->]%list_elem_of_singleton]%elem_of_cons.
    + rewrite lookup_insert_ne by congruence. apply lookup_insert_eq.
    + apply lookup_insert_eq.
  - intros a' Ha'. cbn in Ha'. apply not_elem_of_cons in Ha' as [Ha Hb].
    apply not_elem_of_cons in Hb as [Hb _].
    rewrite !lookup_insert_ne by congruence. reflexivity.
Qed.

(** C9. Every store mutation is a field-level update: [setLocking] sets
    only [Locking], [logFailure] only [FailureReason], and [updateResult]
    sets [ExecutionResult] and [ExecutedAt] together in one update; a
    refused update changes nothing. *)
Theorem mutations_are_field_level env w tableName reqID status lerr resp current :
  (match setLocking env w tableName reqID status with
   | (None, w') =>
       partialUpdate (table w) (table w') reqID [("Locking", AttrBOOL status)]
   | (Some _, w') => table w' = table w
   end)
  /\ (match logFailure env w tableName reqID lerr with
      | (None, w') =>
          partialUpdate (table w) (table w') reqID [("FailureReason", AttrS (Error lerr))]
      | (Some _, w') => table w' = table w
      end)
  /\ (exists s, json.Marshal resp = Ok s /\
      match updateResult env w tableName reqID resp current with
      | (None, w') =>
          partialUpdate (table w) (table w') reqID
            [("ExecutionResult", AttrS s);
             ("ExecutedAt", AttrS (gotime.Format current unixFormat))]
      | (Some _, w') => table w' = table w
      end).
Proof.
  split; [|split].
  - rewrite setLocking_run. destruct (fault env w _); [reflexivity|].
    apply partialUpdate_one.
  - rewrite logFailure_run. destruct (fault env w _); [reflexivity|].
    apply partialUpdate_one.
  - destruct (Marshal_Ok resp) as [s Hs]. exists s. split; [assumption|].
    rewrite (updateResult_run _ _ _ _ _ _ s Hs).
    destruct (fault env w _); [reflexivity|].
    now apply partialUpdate_two.
Qed.

(** C7. For an id without an item and a backend that answers the call,
    [Get] returns the zero-valued request and no error. *)
Theorem Get_absent_returns_zero env w tableName reqID :
  fault env w (getCall tableName reqID) = None ->
  table w !! reqID = None ->
  (Get env w tableName reqID).1 = Ok schema.zero.
Proof.
  intros Hf Hn. rewrite Get_run, Hf, Hn. reflexivity.
Qed.

Lemma Get_absent_returns_zero_witness :
  (Get {| fault := fun _ _ => None;
          DoRequest := fun _ _ _ _ _ => Ok {| Code := 200; Body := "" |};
          Now := fun _ => gotime.zero |}
       {| table := ∅; trace := [] |} "citium_schedule" "missing").1
  = Ok schema.zero.
Proof.
  apply Get_absent_returns_zero; reflexivity.
Defined.

(** The other half of [Get]: a refused call is reported, wrapped. *)
Lemma Get_refused env w tableName reqID e :
  fault env w (getCall tableName reqID) = Some e ->
  (Get env w tableName reqID).1
  = Err (errors.wrap e ("conn.GetItem table_name=" +:+ tableName +:+ " id=" +:+ reqID)).
Proof.
  intros Hf. now rewrite Get_run, Hf.
Qed.

End FieldUpdates.

(** ** The due-query *)

Section Decoding.

Import dynamodb schema scheduler dynamodbattribute.

Lemma decodeString_encode field m s :
  m !! field = Some (encodeString s) -> decodeString field m = Ok s.
Proof.
  intros Hm. unfold decodeString, encodeString in *. rewrite Hm.
  destruct (String.eqb_spec s ""); subst; reflexivity.
Qed.

Lemma decodeTime_encode field m t :
  gotime.wellformed t = true ->
  m !! field = Some (encodeTime t) -> decodeTime field m = Ok t.
Proof.
  intros Hwf Hm. unfold decodeTime, encodeTime in *. rewrite Hm.
  now rewrite Parse_RFC3339Nano.
Qed.

Lemma decodeBool_encode field m b :
  m !! field = Some (AttrBOOL b) -> decodeBool field m = Ok b.
Proof. intros Hm. unfold decodeBool. now rewrite Hm. Qed.

Lemma decodeMap_encode field m h :
  m !! field = Some (encodeMap h) -> decodeMap field m = Ok h.
Proof.
  intros Hm. unfold decodeMap, encodeMap in *. rewrite Hm. now destruct h.
Qed.

(** What [Create] stores decodes to the record that was stored. *)
Lemma UnmarshalMap_encode req :
  wellformedRequest req = true -> UnmarshalMap (encode req) = Ok req.
Proof.
  unfold wellformedRequest. rewrite !andb_true_iff. intros [[Hc He] Hf].
  unfold UnmarshalMap.
  rewrite (decodeString_encode "ID" _ (ID req)) by reflexivity.
  rewrite (decodeTime_encode "CreatedAt" _ (CreatedAt req)) by (assumption || reflexivity).
  rewrite (decodeTime_encode "ExecutedAt" _ (ExecutedAt req)) by (assumption || reflexivity).
  rewrite (decodeTime_encode "EffectiveAfter" _ (EffectiveAfter req)) by (assumption || reflexivity).
  rewrite (decodeBool_encode "Locking" _ (Locking req)) by reflexivity.
  rewrite (decodeString_encode "FailureReason" _ (FailureReason req)) by reflexivity.
  rewrite (decodeString_encode "Method" _ (Method req)) by reflexivity.
  rewrite (decodeString_encode "URL" _ (URL req)) by reflexivity.
  rewrite (decodeString_encode "Payload" _ (Payload req)) by reflexivity.
  rewrite (decodeMap_encode "Headers" _ (Headers req)) by reflexivity.
  rewrite (decodeBool_encode "PersistentStore" _ (PersistentStore req)) by reflexivity.
  rewrite (decodeString_encode "ExecutionResult" _ (ExecutionResult req)) by reflexivity.
  now destruct req.
Qed.

Lemma UnmarshalListOfMaps_encode reqs :
  Forall (fun req => wellformedRequest req = true) reqs ->
  UnmarshalListOfMaps (encode <$> reqs) = Ok reqs.
Proof.
  induction 1 as [|req reqs Hwf _ IH]; [reflexivity|].
  cbn [fmap list_fmap UnmarshalListOfMaps].
  rewrite UnmarshalMap_encode by assumption. cbn [mbind result_bind].
  now rewrite IH.
Qed.

(** The due-query's predicate, read on a stored record. *)
Lemma dueItem_encode current req :
  gotime.wellformed current = true ->
  gotime.wellformed (EffectiveAfter req) = true ->
  dueItem current (encode req) = due current req.
Proof.
  intros Hc He. unfold dueItem, due.
  change (encode req !! "EffectiveAfter") with (Some (encodeTime (EffectiveAfter req))).
  change (encode req !! "Locking") with (Some (AttrBOOL (Locking req))).
  unfold encodeTime. cbn [valueLeb valueEqb].
  rewrite bytesCompare_stored by assumption.
  now destruct (Locking req).
Qed.

End Decoding.

Section DueQuery.

Import dynamodb schema scheduler dynamodbattribute.

Lemma mark_items cond values (items : list Item) (f : Item -> bool) :
  (forall it, evalCondition cond values it = Some (f it)) ->
  mapM (fun it => b ← evalCondition cond values it; Some (it, b)) items
  = Some ((fun it => (it, f it)) <$> items).
Proof.
  intros Hf. induction items as [|it items IH]; [reflexivity|].
  cbn [mapM fmap list_fmap]. rewrite Hf. cbn [mbind option_bind].
  rewrite IH. reflexivity.
Qed.

Lemma filter_marked (items : list Item) (f : Item -> bool) :
  fst <$> List.filter snd ((fun it => (it, f it)) <$> items) = List.filter f items.
Proof.
  induction items as [|it items IH]; [reflexivity|].
  cbn [fmap list_fmap List.filter snd]. destruct (f it); cbn [fmap list_fmap fst]; now rewrite <- IH.
Qed.

Lemma Scan_run env w tableName current :
  let input := {|
    Scan_TableName := tableName;
    FilterExpression := "EffectiveAfter <= :d and Locking = :l";
    Scan_ExpressionAttributeValues :=
      [(":d", AttrS (gotime.Format current unixFormat)); (":l", AttrBOOL false)] |} in
  conn.Scan env w input
  = match fault env w (scanCall tableName current) with
    | Some e => (Err e, record w (scanCall tableName current) (Some e))
    | None =>
        (Ok {| Items := List.filter (dueItem current) (map_to_list (table w)).*2 |},
         record w (scanCall tableName current) None)
    end.
Proof.
  intros input. unfold conn.Scan. fold (scanCall tableName current).
  destruct (fault env w _); [reflexivity|].
  change (parseCondition (FilterExpression input))
    with (Some (CondAnd (CondLe "EffectiveAfter" ":d") (CondEq "Locking" ":l"))).
  cbn [mbind option_bind].
  rewrite (mark_items _ _ _ (dueItem current)) by reflexivity.
  now rewrite filter_marked.
Qed.

Lemma filter_Permutation {A} (f : A -> bool) (l l' : list A) :
  Permutation l l' -> Permutation (List.filter f l) (List.filter f l').
Proof.
  induction 1 as [|x l l' _ IH|x y l|l l' l'' _ IH1 _ IH2]; cbn [List.filter].
  - constructor.
  - destruct (f x); [now constructor|assumption].
  - destruct (f x), (f y); try reflexivity. constructor.
  - now transitivity (List.filter f l').
Qed.

Lemma filter_encode current reqs :
  gotime.wellformed current = true ->
  Forall (fun req => wellformedRequest req = true) reqs ->
  List.filter (dueItem current) (encode <$> reqs)
  = encode <$> List.filter (due current) reqs.
Proof.
  intros Hc. induction 1 as [|req reqs Hwf _ IH]; [reflexivity|].
  cbn [fmap list_fmap List.filter].
  rewrite dueItem_encode; [|assumption|].
  2:{ unfold wellformedRequest in Hwf. now apply andb_true_iff in Hwf as [_ ?]. }
  destruct (due current req); cbn [fmap list_fmap]; now rewrite IH.
Qed.

Lemma Forall_filter {A} (P : A -> Prop) (f : A -> bool) (l : list A) :
  Forall P l -> Forall P (List.filter f l).
Proof.
  induction 1 as [|x l Hx _ IH]; cbn [List.filter]; [constructor|].
  destruct (f x); [now constructor|assumption].
Qed.

End DueQuery.

(** ** One record *)

Section Engine.

Import dynamodb schema scheduler.

Lemma execRequest_run env w req :
  execRequest env w req
  = (match DoRequest env w (Method req) (URL req) (Headers req) (Payload req) with
     | Err err => Err (errors.wrap err ("client.DoRequest method=" +:+ Method req
                                        +:+ " url=" +:+ URL req))
     | Ok resp => Ok resp
     end,
     record w (execCall req)
            (errorOf (DoRequest env w (Method req) (URL req) (Headers req) (Payload req)))).
Proof.
  unfold execRequest, execCall. now destruct (DoRequest env w _ _ _ _).
Qed.

Lemma Lock_run env w tableName reqID :
  Lock env w tableName reqID
  = match fault env w (claimCall tableName reqID) with
    | Some e =>
        (Some (errors.wrap e ("conn.UpdateItem id=" +:+ reqID
                              +:+ " table_name=" +:+ tableName)),
         record w (claimCall tableName reqID) (Some e))
    | None => (None, claimed w tableName reqID)
    end.
Proof. unfold Lock. now rewrite setLocking_run. Qed.

(** The error of a record whose claim was refused with [e]. *)
Lemma execute_claim_refused env w req tableName e :
  fault env w (claimCall tableName (ID req)) = Some e ->
  execute env w req tableName
  = (Some (errors.wrap
             (errors.wrap e ("conn.UpdateItem id=" +:+ ID req
                             +:+ " table_name=" +:+ tableName))
             ("lock id=" +:+ ID req +:+ " table_name=" +:+ tableName)),
     record w (claimCall tableName (ID req)) (Some e)).
Proof. intros Hf. unfold execute. now rewrite Lock_run, Hf. Qed.

Lemma execute_execution_failed env w req tableName e :
  fault env w (claimCall tableName (ID req)) = None ->
  DoRequest env (claimed w tableName (ID req))
            (Method req) (URL req) (Headers req) (Payload req) = Err e ->
  let execErr :=
    errors.wrap (errors.wrap e ("client.DoRequest method=" +:+ Method req
                                +:+ " url=" +:+ URL req))
                ("execRequest " +:+ ToString req) in
  let w2 := record (claimed w tableName (ID req)) (execCall req) (Some e) in
  execute env w req tableName
  = (multierr.Append (Some execErr) (logFailure env w2 tableName (ID req) execErr).1,
     (logFailure env w2 tableName (ID req) execErr).2).
Proof.
  intros Hf Hd execErr w2. unfold execute.
  rewrite Lock_run, Hf, execRequest_run, Hd. cbn [errorOf].
  fold execErr w2. now destruct (logFailure env w2 tableName (ID req) execErr).
Qed.

Lemma execute_executed env w req tableName resp :
  fault env w (claimCall tableName (ID req)) = None ->
  DoRequest env (claimed w tableName (ID req))
            (Method req) (URL req) (Headers req) (Payload req) = Ok resp ->
  let w2 := record (claimed w tableName (ID req)) (execCall req) None in
  execute env w req tableName
  = if PersistentStore req then
      match updateResult env w2 tableName (ID req) resp (Now env w2) with
      | (Some err, w3) =>
          (Some (errors.wrap err ("storeResult req[" +:+ ToString req
                                  +:+ "] resp[" +:+ Response_ToString resp +:+ "]")), w3)
      | (None, w3) => (None, w3)
      end
    else
      match removeRequest env w2 tableName (ID req) with
      | (Some err, w3) => (Some (errors.wrap err ("removeRequest " +:+ ToString req)), w3)
      | (None, w3) => (None, w3)
      end.
Proof.
  intros Hf Hd w2. unfold execute.
  now rewrite Lock_run, Hf, execRequest_run, Hd.
Qed.

(** C3. A record whose claim succeeds and whose execution fails: the
    failure is recorded with the text of the execution error (the text of
    the executor's error behind the prefixes of the two wrappers), which is
    not empty; neither the result is recorded nor the record removed; the
    record stays locked; and when recording the failure fails too, both
    errors are returned together. *)
Theorem execution_failure_is_recorded env w req tableName e :
  fault env w (claimCall tableName (ID req)) = None ->
  DoRequest env (claimed w tableName (ID req))
            (Method req) (URL req) (Headers req) (Payload req) = Err e ->
  let execErr :=
    errors.wrap (errors.wrap e ("client.DoRequest method=" +:+ Method req
                                +:+ " url=" +:+ URL req))
                ("execRequest " +:+ ToString req) in
  let w2 := record (claimed w tableName (ID req)) (execCall req) (Some e) in
  let fcall := failureCall tableName (ID req) (Error execErr) in
  Error execErr
  = ("execRequest " +:+ ToString req) +:+ ": "
    +:+ ("client.DoRequest method=" +:+ Method req +:+ " url=" +:+ URL req) +:+ ": "
    +:+ Error e
  /\ Error execErr <> ""
  /\ trace (execute env w req tableName).2
     = trace w ++ [(claimCall tableName (ID req), None);
                   (execCall req, Some e);
                   (fcall, fault env w2 fcall)]
  /\ (exists item, table (execute env w req tableName).2 !! ID req = Some item
                   /\ item !! "Locking" = Some (AttrBOOL true))
  /\ (execute env w req tableName).1
     = match fault env w2 fcall with
       | None => Some execErr
       | Some e2 =>
           Some (multiError
                   [execErr;
                    errors.wrap e2 ("conn.UpdateItem id=" +:+ ID req +:+ " table_name="
                                    +:+ tableName +:+ " failure_reason="
                                    +:+ Error execErr)])
       end.
Proof.
  intros Hf Hd execErr w2 fcall.
  rewrite (execute_execution_failed env w req tableName e Hf Hd).
  fold execErr w2. rewrite logFailure_run. fold fcall.
  split; [reflexivity|]. split; [discriminate|].
  destruct (fault env w2 fcall) as [e2|]; cbn [fst snd trace table record setTable];
    (split; [unfold w2, claimed; cbn [trace record setTable];
             rewrite <- !app_assoc; reflexivity|]);
    (split; [|reflexivity]).
  - eexists. split; [unfold w2, claimed; cbn [table record setTable]; apply lookup_insert_eq|].
    apply lookup_insert_eq.
  - eexists. split; [apply lookup_insert_eq|].
    rewrite lookup_insert_ne by discriminate.
    unfold w2, claimed, itemAt. cbn [table record setTable].
    rewrite lookup_insert_eq. cbn [default]. apply lookup_insert_eq.
Qed.

End Engine.

(** ** One pass *)

Section Pass.

Import dynamodb schema scheduler.

(** *** The receiving loop *)

Lemma Errors_Combine (acc : error) (g : errval) :
  single (Some g) ->
  multierr.Errors (multierr.Combine [acc; Some g]) = multierr.Errors acc ++ [g].
Proof.
  intros Hg. destruct acc as [a|]; cbn.
  - f_equal. now destruct g.
  - now destruct g.
Qed.

Lemma Errors_drain errc acc :
  Forall single errc ->
  multierr.Errors (drain errc acc) = multierr.Errors acc ++ omap id errc.
Proof.
  intros Hs. revert acc. induction Hs as [|gErr errc Hg _ IH]; intros acc.
  - cbn. now rewrite app_nil_r.
  - unfold drain in *. cbn [foldl]. rewrite IH. destruct gErr as [g|].
    + rewrite Errors_Combine by assumption. cbn. now rewrite <- app_assoc.
    + reflexivity.
Qed.

Lemma drain_None errc acc :
  drain errc acc = None <-> acc = None /\ omap id errc = [].
Proof.
  revert acc. induction errc as [|gErr errc IH]; intros acc.
  - cbn. intuition.
  - unfold drain in *. cbn [foldl]. rewrite IH. destruct gErr as [g|]; cbn.
    + split; [|intros [_ [=]]]. intros [H _]. now destruct acc.
    + reflexivity.
Qed.

(** The text of an aggregate is the texts of its members, joined. *)
Lemma Error_aggregate agg :
  Error agg = join "; " (Error <$> multierr.Errors (Some agg)).
Proof. now destruct agg. Qed.

(** *** The goroutines *)

Lemma spawn_app env w pre post tableName :
  spawn env w (pre ++ post) tableName
  = ((spawn env w pre tableName).1
     ++ (spawn env (spawn env w pre tableName).2 post tableName).1,
     (spawn env (spawn env w pre tableName).2 post tableName).2).
Proof.
  revert w. induction pre as [|req pre IH]; intros w.
  - cbn. now destruct (spawn env w post tableName).
  - cbn [app spawn]. destruct (execute env w req tableName) as [gErr w1].
    rewrite IH. destruct (spawn env w1 pre tableName) as [e1 w2]. cbn [fst snd].
    destruct (spawn env w2 post tableName) as [e2 w3]. cbn [fst snd].
    now rewrite app_assoc.
Qed.

Lemma spawn_cons env w req rest tableName :
  spawn env w (req :: rest) tableName
  = (match (execute env w req tableName).1 with
     | Some e => [Some (errors.wrap e ("execute " +:+ ToString req
                                       +:+ " table_name=" +:+ tableName))]
     | None => []
     end ++ (spawn env (execute env w req tableName).2 rest tableName).1,
     (spawn env (execute env w req tableName).2 rest tableName).2).
Proof.
  cbn [spawn]. destruct (execute env w req tableName) as [gErr w1]. cbn [fst snd].
  now destruct (spawn env w1 rest tableName).
Qed.

Lemma spawn_single env w requests tableName :
  Forall single (spawn env w requests tableName).1.
Proof.
  revert w. induction requests as [|req rest IH]; intros w; [constructor|].
  rewrite spawn_cons. cbn [fst]. apply Forall_app. split; [|apply IH].
  destruct (execute env w req tableName).1; repeat constructor.
Qed.

(** Every call of [execute] is logged, and [execute] returns an error
    exactly when one of its calls came back with one. *)
Lemma execute_events env w req tableName :
  exists evs,
    trace (execute env w req tableName).2 = trace w ++ evs
    /\ ((execute env w req tableName).1 <> None <-> Exists failed evs).
Proof.
  destruct (fault env w (claimCall tableName (ID req))) as [e|] eqn:Hf.
  { rewrite (execute_claim_refused _ _ _ _ e Hf). eexists. split; [reflexivity|].
    split; [intros _; now left|discriminate]. }
  destruct (DoRequest env (claimed w tableName (ID req))
              (Method req) (URL req) (Headers req) (Payload req)) as [resp|e] eqn:Hd.
  - rewrite (execute_executed _ _ _ _ resp Hf Hd).
    destruct (Marshal_Ok resp) as [s Hs].
    destruct (PersistentStore req).
    + rewrite (updateResult_run _ _ _ _ _ _ s Hs).
      destruct (fault env _ (resultCall _ _ _ _)) as [e2|];
        (eexists; split;
         [unfold claimed; cbn [snd trace record setTable]; rewrite <- !app_assoc; reflexivity|]).
      * split; [intros _|discriminate]. do 2 right. now left.
      * cbn [fst]. split; [intros H; congruence|].
        intros H. repeat (apply Exists_cons in H as [H|H]; [now destruct H|]).
        inversion H.
    + rewrite removeRequest_run.
      destruct (fault env _ (removeCall _ _)) as [e2|];
        (eexists; split;
         [unfold claimed; cbn [snd trace record setTable]; rewrite <- !app_assoc; reflexivity|]).
      * split; [intros _|discriminate]. do 2 right. now left.
      * cbn [fst]. split; [intros H; congruence|].
        intros H. repeat (apply Exists_cons in H as [H|H]; [now destruct H|]).
        inversion H.
  - rewrite (execute_execution_failed _ _ _ _ e Hf Hd). cbv zeta.
    rewrite logFailure_run.
    destruct (fault env (record _ _ _) (failureCall _ _ _)) as [e2|];
      (eexists; split;
       [unfold claimed; cbn [snd trace record setTable]; rewrite <- !app_assoc; reflexivity|]);
      (split; [intros _; right; left; discriminate|discriminate]).
Qed.

Lemma spawn_events env w requests tableName :
  exists evs,
    trace (spawn env w requests tableName).2 = trace w ++ evs
    /\ (omap id (spawn env w requests tableName).1 <> [] <-> Exists failed evs).
Proof.
  revert w. induction requests as [|req rest IH]; intros w.
  - exists []. cbn. rewrite app_nil_r. split; [reflexivity|].
    split; [congruence|inversion 1].
  - rewrite spawn_cons. cbn [fst snd].
    destruct (execute_events env w req tableName) as (evs1 & Ht1 & Hf1).
    destruct (IH (execute env w req tableName).2) as (evs2 & Ht2 & Hf2).
    exists (evs1 ++ evs2). split; [now rewrite Ht2, Ht1, app_assoc|].
    rewrite Exists_app, <- Hf1, <- Hf2, omap_app.
    destruct (execute env w req tableName).1; cbn; split; intros H.
    + now left.
    + discriminate.
    + now right.
    + now destruct H.
Qed.

End Pass.

Section PassTheorems.

Import dynamodb schema scheduler.

Lemma TriggerAPI_run env w conf requests w1 :
  FetchSchedRequests env w (config.TableName conf) (Now env w) = (Ok requests, w1) ->
  TriggerAPI env w conf
  = (drain (spawn env w1 requests (config.TableName conf)).1 None,
     (spawn env w1 requests (config.TableName conf)).2).
Proof.
  intros Hq. unfold TriggerAPI. rewrite Hq.
  now destruct (spawn env w1 requests (config.TableName conf)).
Qed.

(** A record's error is among the errors of the aggregate. *)
Lemma TriggerAPI_reports env w conf requests w1 pre req post g :
  FetchSchedRequests env w (config.TableName conf) (Now env w) = (Ok requests, w1) ->
  requests = pre ++ req :: post ->
  (execute env (spawn env w1 pre (config.TableName conf)).2 req (config.TableName conf)).1
  = Some g ->
  errors.wrap g ("execute " +:+ ToString req +:+ " table_name=" +:+ config.TableName conf)
  ∈ multierr.Errors (TriggerAPI env w conf).1.
Proof.
  intros Hq -> Hg. rewrite (TriggerAPI_run _ _ _ _ _ Hq). cbn [fst].
  rewrite Errors_drain by apply spawn_single. cbn [multierr.Errors app].
  rewrite spawn_app. cbn [fst]. rewrite spawn_cons. cbn [fst]. rewrite Hg.
  rewrite !omap_app. cbn [omap id]. rewrite !elem_of_app. right. left. now left.
Qed.

(** C2. A due record whose claim is refused: the claim is the only call
    made for it (the Request Executor is not invoked, no result, removal
    or failure reason is written), the table is as it was, and the wrapped
    claim error is among the errors of the pass's aggregate. *)
Theorem claim_failure_stops_record env w conf requests w1 pre req post e :
  FetchSchedRequests env w (config.TableName conf) (Now env w) = (Ok requests, w1) ->
  requests = pre ++ req :: post ->
  let tableName := config.TableName conf in
  let wk := (spawn env w1 pre tableName).2 in
  fault env wk (claimCall tableName (ID req)) = Some e ->
  let lockErr :=
    errors.wrap (errors.wrap e ("conn.UpdateItem id=" +:+ ID req
                                +:+ " table_name=" +:+ tableName))
                ("lock id=" +:+ ID req +:+ " table_name=" +:+ tableName) in
  (execute env wk req tableName).1 = Some lockErr
  /\ trace (execute env wk req tableName).2
     = trace wk ++ [(claimCall tableName (ID req), Some e)]
  /\ table (execute env wk req tableName).2 = table wk
  /\ errors.wrap lockErr ("execute " +:+ ToString req +:+ " table_name=" +:+ tableName)
     ∈ multierr.Errors (TriggerAPI env w conf).1.
Proof.
  intros Hq Hreqs tableName wk Hf lockErr.
  pose proof (execute_claim_refused env wk req tableName e Hf) as Hex.
  repeat split; try (rewrite Hex; reflexivity).
  apply (TriggerAPI_reports env w conf requests w1 pre req post lockErr Hq Hreqs).
  fold tableName wk. now rewrite Hex.
Qed.

(** C5. When the due-query succeeds, the aggregate is non-nil exactly
    when one of the calls made for the records (claim, execution,
    finalize, failure record) came back with an error; with nothing due it
    is nil; and it keeps every record's error: each is among its errors,
    and its text is their texts joined. *)
Theorem aggregate_reports_failures env w conf requests w1 :
  FetchSchedRequests env w (config.TableName conf) (Now env w) = (Ok requests, w1) ->
  (exists evs,
     trace (TriggerAPI env w conf).2 = trace w1 ++ evs
     /\ ((TriggerAPI env w conf).1 <> None <-> Exists failed evs))
  /\ (requests = [] -> (TriggerAPI env w conf).1 = None)
  /\ (forall pre req post g,
        requests = pre ++ req :: post ->
        (execute env (spawn env w1 pre (config.TableName conf)).2 req
                 (config.TableName conf)).1 = Some g ->
        errors.wrap g ("execute " +:+ ToString req +:+ " table_name="
                       +:+ config.TableName conf)
        ∈ multierr.Errors (TriggerAPI env w conf).1)
  /\ (forall agg,
        (TriggerAPI env w conf).1 = Some agg ->
        Error agg = join "; " (Error <$> multierr.Errors (Some agg))).
Proof.
  intros Hq. split; [|split; [|split]].
  - rewrite (TriggerAPI_run _ _ _ _ _ Hq). cbn [fst snd].
    destruct (spawn_events env w1 requests (config.TableName conf)) as (evs & Ht & Hf).
    exists evs. split; [exact Ht|]. rewrite <- Hf.
    pose proof (drain_None (spawn env w1 requests (config.TableName conf)).1 None) as Hd.
    split.
    + intros Hne Hnil. apply Hne, Hd. now split.
    + intros Hne Hnone. apply Hne. now apply Hd in Hnone as [_ ?].
  - intros ->. now rewrite (TriggerAPI_run _ _ _ _ _ Hq).
  - intros pre req post g Hreqs Hg.
    now apply (TriggerAPI_reports env w conf requests w1 pre req post g).
  - intros agg _. apply Error_aggregate.
Qed.

End PassTheorems.

(** ** Finalizing a record *)

Section Finalize.

Import dynamodb schema scheduler dynamodbattribute.

Lemma FetchSchedRequests_run env w tableName current :
  FetchSchedRequests env w tableName current
  = match fault env w (scanCall tableName current) with
    | Some e =>
        (Err (errors.wrap e
                ("conn.Scan table_name=" +:+ tableName +:+ " input="
                 +:+ ScanInput_GoString {|
                       Scan_TableName := tableName;
                       FilterExpression := "EffectiveAfter <= :d and Locking = :l";
                       Scan_ExpressionAttributeValues :=
                         [(":d", AttrS (gotime.Format current unixFormat));
                          (":l", AttrBOOL false)] |})),
         record w (scanCall tableName current) (Some e))
    | None =>
        let items := List.filter (dueItem current) (map_to_list (table w)).*2 in
        (match UnmarshalListOfMaps items with
         | Err err =>
             Err (errors.wrap err
                    ("dynamodbattribute.UnmarshalListOfMaps table_name=" +:+ tableName
                     +:+ " output=" +:+ ScanOutput_GoString {| Items := items |}))
         | Ok records => Ok records
         end,
         record w (scanCall tableName current) None)
    end.
Proof.
  unfold FetchSchedRequests. rewrite Scan_run.
  destruct (fault env w _); [reflexivity|]. cbv zeta. cbn [Items].
  now destruct (UnmarshalListOfMaps _).
Qed.

(** C6. When the due-query fails, [TriggerAPI] returns its error, wrapped,
    and has done nothing but the query: the scan is the only call made and
    the table is as it was. A refused scan is reported with its cause. *)
Theorem failed_query_is_fatal env w conf e w1 :
  FetchSchedRequests env w (config.TableName conf) (Now env w) = (Err e, w1) ->
  TriggerAPI env w conf = (Some (errors.wrap e "fetchSchedRequests"), w1)
  /\ table w1 = table w
  /\ (exists err, trace w1 = trace w ++ [(scanCall (config.TableName conf) (Now env w), err)])
  /\ (forall e0, fault env w (scanCall (config.TableName conf) (Now env w)) = Some e0 ->
                 exists msg, e = errors.wrap e0 msg).
Proof.
  intros Hq. split; [unfold TriggerAPI; now rewrite Hq|].
  rewrite FetchSchedRequests_run in Hq.
  destruct (fault env w _) as [e0|].
  - injection Hq as <- <-. repeat split; eauto. intros ? [= <-]. eauto.
  - cbv zeta in Hq. injection Hq as _ <-. repeat split; eauto. discriminate.
Qed.

(** *** Decoding an item field by field *)

Lemma UnmarshalMap_fields m req :
  UnmarshalMap m = Ok req ->
  decodeString "ID" m = Ok (ID req)
  /\ decodeTime "CreatedAt" m = Ok (CreatedAt req)
  /\ decodeTime "ExecutedAt" m = Ok (ExecutedAt req)
  /\ decodeTime "EffectiveAfter" m = Ok (EffectiveAfter req)
  /\ decodeBool "Locking" m = Ok (Locking req)
  /\ decodeString "FailureReason" m = Ok (FailureReason req)
  /\ decodeString "Method" m = Ok (Method req)
  /\ decodeString "URL" m = Ok (URL req)
  /\ decodeString "Payload" m = Ok (Payload req)
  /\ decodeMap "Headers" m = Ok (Headers req)
  /\ decodeBool "PersistentStore" m = Ok (PersistentStore req)
  /\ decodeString "ExecutionResult" m = Ok (ExecutionResult req).
Proof.
  unfold UnmarshalMap.
  destruct (decodeString "ID" m); [|discriminate].
  destruct (decodeTime "CreatedAt" m); [|discriminate].
  destruct (decodeTime "ExecutedAt" m); [|discriminate].
  destruct (decodeTime "EffectiveAfter" m); [|discriminate].
  destruct (decodeBool "Locking" m); [|discriminate].
  destruct (decodeString "FailureReason" m); [|discriminate].
  destruct (decodeString "Method" m); [|discriminate].
  destruct (decodeString "URL" m); [|discriminate].
  destruct (decodeString "Payload" m); [|discriminate].
  destruct (decodeMap "Headers" m); [|discriminate].
  destruct (decodeBool "PersistentStore" m); [|discriminate].
  destruct (decodeString "ExecutionResult" m); [|discriminate].
  cbn. intros [= <-]. cbn. repeat split.
Qed.

Lemma decodeString_insert_ne field a v (m : Item) :
  a <> field -> decodeString field (<[a := v]> m) = decodeString field m.
Proof. intros H. unfold decodeString. now rewrite lookup_insert_ne. Qed.

Lemma decodeTime_insert_ne field a v (m : Item) :
  a <> field -> decodeTime field (<[a := v]> m) = decodeTime field m.
Proof. intros H. unfold decodeTime. now rewrite lookup_insert_ne. Qed.

Lemma decodeBool_insert_ne field a v (m : Item) :
  a <> field -> decodeBool field (<[a := v]> m) = decodeBool field m.
Proof. intros H. unfold decodeBool. now rewrite lookup_insert_ne. Qed.

Lemma decodeMap_insert_ne field a v (m : Item) :
  a <> field -> decodeMap field (<[a := v]> m) = decodeMap field m.
Proof. intros H. unfold decodeMap. now rewrite lookup_insert_ne. Qed.

(** The item of a claimed record with its result recorded decodes to the
    record with [Locking], [ExecutionResult] and [ExecutedAt] set. *)
Lemma UnmarshalMap_withResult m req s current :
  UnmarshalMap m = Ok req ->
  gotime.wellformed current = true ->
  UnmarshalMap (<["ExecutedAt" := AttrS (gotime.Format current unixFormat)]>
                  (<["ExecutionResult" := AttrS s]>
                     (<["Locking" := AttrBOOL true]> m)))
  = Ok (withResult req s (gotime.Truncate current)).
Proof.
  intros Hm Hwf.
  apply UnmarshalMap_fields in Hm
    as (H1 & H2 & H3 & H4 & H5 & H6 & H7 & H8 & H9 & H10 & H11 & H12).
  unfold UnmarshalMap.
  rewrite !(decodeString_insert_ne "ID"), H1 by discriminate.
  rewrite !(decodeTime_insert_ne "CreatedAt"), H2 by discriminate.
  replace (decodeTime "ExecutedAt" _) with (@Ok gotime.Time (gotime.Truncate current)).
  2:{ unfold decodeTime. rewrite lookup_insert_eq. now rewrite Parse_Format. }
  rewrite !(decodeTime_insert_ne "EffectiveAfter"), H4 by discriminate.
  replace (decodeBool "Locking" _) with (@Ok bool true).
  2:{ unfold decodeBool. rewrite !lookup_insert_ne by discriminate.
      now rewrite lookup_insert_eq. }
  rewrite !(decodeString_insert_ne "FailureReason"), H6 by discriminate.
  rewrite !(decodeString_insert_ne "Method"), H7 by discriminate.
  rewrite !(decodeString_insert_ne "URL"), H8 by discriminate.
  rewrite !(decodeString_insert_ne "Payload"), H9 by discriminate.
  rewrite !(decodeMap_insert_ne "Headers"), H10 by discriminate.
  rewrite !(decodeBool_insert_ne "PersistentStore"), H11 by discriminate.
  replace (decodeString "ExecutionResult" _) with (@Ok string s).
  2:{ unfold decodeString. rewrite lookup_insert_ne by discriminate.
      now rewrite lookup_insert_eq. }
  reflexivity.
Qed.

(** C4. A due record whose claim and execution both succeed. If it is
    persistent, the result is recorded and the record is not removed; once
    that write is accepted the record is retrievable with its
    [ExecutionResult] set to the JSON text of the response, an object with
    the status code under [code] and the body under [body], which is not
    empty, with [ExecutedAt] the time of the write down to the second, and
    with [Locking] still true.
    If it is not persistent, the record is removed and no result is
    recorded; once the removal is accepted no item is left under its
    key. *)
Theorem successful_execution_is_finalized env w req tableName resp :
  fault env w (claimCall tableName (ID req)) = None ->
  DoRequest env (claimed w tableName (ID req))
            (Method req) (URL req) (Headers req) (Payload req) = Ok resp ->
  let w2 := record (claimed w tableName (ID req)) (execCall req) None in
  let w3 := (execute env w req tableName).2 in
  exists s, json.Marshal resp = Ok s /\
    s = "{" +:+ json.quoted "code" +:+ ":" +:+ fmt_int (Code resp) +:+ ","
        +:+ json.quoted "body" +:+ ":" +:+ json.quoted (json.escape (Body resp)) +:+ "}" /\
    s <> "" /\
    let rcall := resultCall tableName (ID req) s (Now env w2) in
    let dcall := removeCall tableName (ID req) in
    (PersistentStore req = true ->
       trace w3 = trace w ++ [(claimCall tableName (ID req), None);
                              (execCall req, None);
                              (rcall, fault env w2 rcall)]
       /\ (fault env w2 rcall = None ->
             (execute env w req tableName).1 = None
             /\ (exists item,
                   table w3 !! ID req = Some item
                   /\ item !! "ExecutionResult" = Some (AttrS s)
                   /\ item !! "ExecutedAt"
                      = Some (AttrS (gotime.Format (Now env w2) unixFormat))
                   /\ item !! "Locking" = Some (AttrBOOL true))
             /\ (forall item0 env' tr',
                   table w !! ID req = Some item0 ->
                   UnmarshalMap item0 = Ok req ->
                   gotime.wellformed (Now env w2) = true ->
                   fault env' {| table := table w3; trace := tr' |}
                         (getCall tableName (ID req)) = None ->
                   (Get env' {| table := table w3; trace := tr' |} tableName (ID req)).1
                   = Ok (withResult req s (gotime.Truncate (Now env w2))))))
    /\ (PersistentStore req = false ->
          trace w3 = trace w ++ [(claimCall tableName (ID req), None);
                                 (execCall req, None);
                                 (dcall, fault env w2 dcall)]
          /\ (fault env w2 dcall = None ->
                (execute env w req tableName).1 = None
                /\ table w3 !! ID req = None)).
Proof.
  intros Hf Hd w2 w3.
  assert (Hs : json.Marshal resp
               = Ok ("{" +:+ json.quoted "code" +:+ ":" +:+ fmt_int (Code resp) +:+ ","
                     +:+ json.quoted "body" +:+ ":" +:+ json.quoted (json.escape (Body resp))
                     +:+ "}")) by reflexivity.
  eexists. split; [exact Hs|]. split; [reflexivity|]. split; [discriminate|].
  set (s := "{" +:+ _) in *.
  intros rcall dcall.
  subst w3. rewrite (execute_executed env w req tableName resp Hf Hd). fold w2.
  split; intros Hp; rewrite Hp.
  - rewrite (updateResult_run _ _ _ _ _ _ s Hs). fold rcall.
    destruct (fault env w2 rcall) as [e2|]; cbn [fst snd].
    + split; [|discriminate].
      unfold w2, claimed. cbn [trace record setTable]. now rewrite <- !app_assoc.
    + split.
      { unfold w2, claimed. cbn [trace record setTable]. now rewrite <- !app_assoc. }
      intros _. split; [reflexivity|].
      assert (Hit : itemAt (table w2) (ID req)
                    = <["Locking" := AttrBOOL true]> (itemAt (table w) (ID req))).
      { unfold w2, claimed, itemAt at 1. cbn [table record setTable].
        now rewrite lookup_insert_eq. }
      cbn [table record setTable]. rewrite Hit. split.
      * eexists. split; [apply lookup_insert_eq|]. split; [|split].
        -- rewrite lookup_insert_ne by discriminate. apply lookup_insert_eq.
        -- apply lookup_insert_eq.
        -- rewrite !lookup_insert_ne by discriminate. apply lookup_insert_eq.
      * intros item0 env' tr' Hit0 Hdec Hwf Hg.
        rewrite Get_run, Hg. cbn [fst table]. rewrite lookup_insert_eq. cbn [default from_option id].
        unfold itemAt. rewrite Hit0. cbn [default from_option id].
        now rewrite (UnmarshalMap_withResult item0 req s (Now env w2)).
  - rewrite removeRequest_run. fold dcall.
    destruct (fault env w2 dcall) as [e2|]; cbn [fst snd].
    + split; [|discriminate].
      unfold w2, claimed. cbn [trace record setTable]. now rewrite <- !app_assoc.
    + split.
      { unfold w2, claimed. cbn [trace record setTable]. now rewrite <- !app_assoc. }
      intros _. split; [reflexivity|]. cbn [table record setTable].
      apply lookup_delete_eq.
Qed.

End Finalize.

(** ** The headers of the outgoing request *)

Section Headers.

Import schema scheduler.

Lemma Values_Add (h : http.Header) k v key :
  http.Values (http.Add h k v) key
  = if String.eqb (http.CanonicalMIMEHeaderKey k) (http.CanonicalMIMEHeaderKey key)
    then http.Values h key ++ [v] else http.Values h key.
Proof.
  unfold http.Values, http.Add.
  destruct (String.eqb_spec (http.CanonicalMIMEHeaderKey k) (http.CanonicalMIMEHeaderKey key))
    as [->|Hne].
  - now rewrite lookup_insert_eq.
  - now rewrite lookup_insert_ne.
Qed.

Lemma Values_Set (h : http.Header) k v key :
  http.Values (http.Set_ h k v) key
  = if String.eqb (http.CanonicalMIMEHeaderKey k) (http.CanonicalMIMEHeaderKey key)
    then [v] else http.Values h key.
Proof.
  unfold http.Values, http.Set_.
  destruct (String.eqb_spec (http.CanonicalMIMEHeaderKey k) (http.CanonicalMIMEHeaderKey key))
    as [->|Hne].
  - now rewrite lookup_insert_eq.
  - now rewrite lookup_insert_ne.
Qed.

Lemma Values_foldl_Add (h : http.Header) headers key :
  http.Values (foldl (fun h kv => http.Add h (fst kv) (snd kv)) h headers) key
  = http.Values h key ++ callerValues headers key.
Proof.
  revert h. induction headers as [|[k v] headers IH]; intros h.
  - cbn. now rewrite app_nil_r.
  - cbn [foldl fst snd]. rewrite IH, Values_Add. unfold callerValues.
    cbn [List.filter fst].
    destruct (String.eqb _ _); cbn [fmap list_fmap snd]; [|reflexivity].
    now rewrite <- app_assoc.
Qed.

Lemma Get_Values (h : http.Header) key :
  http.Get h key = hd "" (http.Values h key).
Proof.
  unfold http.Get, http.Values. destruct (h !! _) as [[|v vs]|]; reflexivity.
Qed.

Lemma elem_of_callerValues headers k v :
  (k, v) ∈ headers -> v ∈ callerValues headers k.
Proof.
  intros Hin. unfold callerValues.
  apply (list_elem_of_fmap_2 snd _ (k, v)).
  apply list_elem_of_In, filter_In. split; [now apply list_elem_of_In|].
  cbn. apply String.eqb_refl.
Qed.

Lemma outgoing_Header {U} (net : http.Net U) c method urlStr headers body req :
  outgoing net c method urlStr headers body = Ok req ->
  http.Header_ req
  = let h := foldl (fun h kv => http.Add h (fst kv) (snd kv)) ∅ headers in
    let h := if negb (String.eqb (userAgent c) "")
             then http.Add h "User-Agent" (userAgent c) else h in
    if negb (String.eqb (token c) "")
    then http.Set_ h "Authorization" ("Bearer " +:+ token c) else h.
Proof.
  unfold outgoing, http.NewRequest.
  destruct (http.Parse net urlStr); [|discriminate].
  destruct (http.NewRequestError net _ _); [discriminate|].
  now intros [= <-].
Qed.

(** C8, as amended. The caller's headers are added to the outgoing
    request, key by key in canonical form. A configured bearer token then
    replaces whatever [Authorization] values there are, so that the
    configured value is the only one. A configured user agent is appended
    after the caller's [User-Agent] values: it is what [Get] reads only
    when the caller gave none, otherwise the caller's first value is. *)
Theorem outgoing_headers {U} (net : http.Net U) c method urlStr headers body req :
  outgoing net c method urlStr headers body = Ok req ->
  (forall k v, (k, v) ∈ headers ->
               token c = "" \/ http.CanonicalMIMEHeaderKey k <> "Authorization" ->
               v ∈ http.Values (http.Header_ req) k)
  /\ (token c <> "" ->
      http.Values (http.Header_ req) "Authorization" = ["Bearer " +:+ token c])
  /\ (userAgent c <> "" ->
      http.Values (http.Header_ req) "User-Agent"
      = callerValues headers "User-Agent" ++ [userAgent c]
      /\ http.Get (http.Header_ req) "User-Agent"
         = hd (userAgent c) (callerValues headers "User-Agent")).
Proof.
  intros Hreq. rewrite (outgoing_Header net c method urlStr headers body req Hreq).
  cbv zeta. split; [|split].
  - intros k v Hin Hauth.
    assert (Hv : v ∈ http.Values
                   (if negb (String.eqb (userAgent c) "")
                    then http.Add (foldl (fun h kv => http.Add h (fst kv) (snd kv)) ∅ headers)
                                  "User-Agent" (userAgent c)
                    else foldl (fun h kv => http.Add h (fst kv) (snd kv)) ∅ headers) k).
    { destruct (negb _).
      - rewrite Values_Add, Values_foldl_Add.
        pose proof (elem_of_callerValues headers k v Hin).
        destruct (String.eqb _ _); rewrite !elem_of_app; auto.
      - rewrite Values_foldl_Add, elem_of_app. right.
        now apply elem_of_callerValues. }
    destruct (String.eqb_spec (token c) "") as [Ht|Ht]; cbn [negb]; [exact Hv|].
    rewrite Values_Set.
    destruct (String.eqb_spec (http.CanonicalMIMEHeaderKey "Authorization")
                (http.CanonicalMIMEHeaderKey k)) as [He|He]; [|exact Hv].
    destruct Hauth as [Hauth|Hauth]; [contradiction|].
    exfalso. apply Hauth. now rewrite <- He.
  - intros Ht. destruct (String.eqb_spec (token c) ""); [contradiction|]. cbn [negb].
    now rewrite Values_Set, String.eqb_refl.
  - intros Hua.
    assert (Hv : http.Values
                   (if negb (String.eqb (token c) "")
                    then http.Set_
                           (if negb (String.eqb (userAgent c) "")
                            then http.Add (foldl (fun h kv => http.Add h (fst kv) (snd kv))
                                                 ∅ headers)
                                          "User-Agent" (userAgent c)
                            else foldl (fun h kv => http.Add h (fst kv) (snd kv)) ∅ headers)
                           "Authorization" ("Bearer " +:+ token c)
                    else if negb (String.eqb (userAgent c) "")
                         then http.Add (foldl (fun h kv => http.Add h (fst kv) (snd kv))
                                              ∅ headers)
                                       "User-Agent" (userAgent c)
                         else foldl (fun h kv => http.Add h (fst kv) (snd kv)) ∅ headers)
                   "User-Agent"
                 = callerValues headers "User-Agent" ++ [userAgent c]).
    { destruct (String.eqb_spec (userAgent c) ""); [contradiction|]. cbn [negb].
      destruct (negb _).
      - rewrite Values_Set.
        change (String.eqb (http.CanonicalMIMEHeaderKey "Authorization")
                           (http.CanonicalMIMEHeaderKey "User-Agent")) with false.
        rewrite Values_Add, String.eqb_refl, Values_foldl_Add. reflexivity.
      - rewrite Values_Add, String.eqb_refl, Values_foldl_Add. reflexivity. }
    split; [exact Hv|]. rewrite Get_Values, Hv.
    now destruct (callerValues headers "User-Agent").
Qed.

Lemma outgoing_headers_witness :
  exists req,
    outgoing (answering 200 "") {| baseURL := ""; userAgent := "citium/0.0.1"; token := "secret" |}
             "GET" "http://example.com/ping"
             [("accept", "application/json"); ("Authorization", "Basic abc")] ""
    = Ok req
    /\ http.Values (http.Header_ req) "Accept" = ["application/json"]
    /\ http.Values (http.Header_ req) "Authorization" = ["Bearer secret"]
    /\ http.Get (http.Header_ req) "User-Agent" = "citium/0.0.1".
Proof.
  eexists. split; [reflexivity|].
  pose proof (outgoing_headers (answering 200 "")
                {| baseURL := ""; userAgent := "citium/0.0.1"; token := "secret" |}
                "GET" "http://example.com/ping"
                [("accept", "application/json"); ("Authorization", "Basic abc")] ""
                _ eq_refl) as (_ & Hauth & Hua).
  split; [vm_compute; reflexivity|]. split.
  - apply Hauth. discriminate.
  - apply Hua. discriminate.
Defined.

(** C8, as stated, fails: with a configured user agent and a caller that
    gives a [User-Agent] header, the caller's value is the one the request
    carries first, not the configured one. *)
Lemma configured_user_agent_does_not_win :
  exists req,
    outgoing (answering 200 "") {| baseURL := ""; userAgent := "citium/0.0.1"; token := "" |}
             "GET" "http://example.com/ping" [("User-Agent", "caller/1.0")] ""
    = Ok req
    /\ http.Values (http.Header_ req) "User-Agent" = ["caller/1.0"; "citium/0.0.1"]
    /\ http.Get (http.Header_ req) "User-Agent" = "caller/1.0"
    /\ http.Get (http.Header_ req) "User-Agent" <> "citium/0.0.1".
Proof.
  eexists. split; [reflexivity|]. split; [vm_compute; reflexivity|].
  split; [vm_compute; reflexivity|]. vm_compute. discriminate.
Qed.

End Headers.

(** ** Upstream status codes *)

Section Upstream.

Import dynamodb schema scheduler dynamodbattribute.

Lemma UnmarshalListOfMaps_Ok items records :
  UnmarshalListOfMaps items = Ok records ->
  Forall2 (fun it req => UnmarshalMap it = Ok req) items records.
Proof.
  revert records. induction items as [|it items IH]; intros records.
  - intros [= <-]. constructor.
  - cbn [UnmarshalListOfMaps]. destruct (UnmarshalMap it) as [req|] eqn:Hit; [|discriminate].
    cbn [mbind result_bind].
    destruct (UnmarshalListOfMaps items) as [reqs|]; [|discriminate].
    intros [= <-]. constructor; [assumption|now apply IH].
Qed.

(** On any table, every record the due-query returns is the reading of an
    item of the table that satisfies the query's predicate. *)
Lemma FetchSchedRequests_from_table env w tableName current records req :
  (FetchSchedRequests env w tableName current).1 = Ok records ->
  req ∈ records ->
  exists k it, table w !! k = Some it /\ dueItem current it = true
               /\ UnmarshalMap it = Ok req.
Proof.
  rewrite FetchSchedRequests_run. destruct (fault env w _); [discriminate|].
  cbv zeta. cbn [fst].
  destruct (UnmarshalListOfMaps _) as [reqs|] eqn:Hu; [|discriminate].
  intros [= <-] Hin. apply UnmarshalListOfMaps_Ok in Hu.
  apply list_elem_of_lookup in Hin as [i Hi].
  destruct (Forall2_lookup_r _ _ _ _ _ Hu Hi) as (it & Hit & Hdec).
  apply list_elem_of_lookup_2, list_elem_of_In, filter_In in Hit as [Hit Hdue].
  apply list_elem_of_In, list_elem_of_fmap in Hit as ([k it'] & -> & Hkit).
  apply elem_of_map_to_list in Hkit. eauto.
Qed.

Lemma keyed_ID (t : gmap string Item) k it req :
  keyed t -> t !! k = Some it -> UnmarshalMap it = Ok req -> ID req = k.
Proof.
  intros Hk Hit Hdec. apply UnmarshalMap_fields in Hdec as [Hid _].
  unfold decodeString in Hid. rewrite (Hk k it Hit) in Hid. congruence.
Qed.

(** C10. Whatever status code the upstream answers with, [DoRequest]
    returns that code and the raw body and no error, and the engine treats
    the execution as a success: a record that is not persistent is
    removed, no failure reason is written, and no later due-query returns
    it. *)
Theorem upstream_error_status_is_success {U} (net : http.Net U) (c : HTTPClient U)
    env w req tableName hreq hresp raw :
  fault env w (claimCall tableName (ID req)) = None ->
  DoRequest env (claimed w tableName (ID req))
            (Method req) (URL req) (Headers req) (Payload req)
  = HTTPClient_DoRequest net c (Method req) (URL req) (Headers req) (Payload req) ->
  outgoing net c (Method req) (URL req) (Headers req) (Payload req) = Ok hreq ->
  http.Do net hreq = Ok hresp ->
  http.ReadAll hresp = Ok raw ->
  PersistentStore req = false ->
  fault env (record (claimed w tableName (ID req)) (execCall req) None)
        (removeCall tableName (ID req)) = None ->
  HTTPClient_DoRequest net c (Method req) (URL req) (Headers req) (Payload req)
  = Ok {| Code := http.StatusCode hresp; Body := raw |}
  /\ (execute env w req tableName).1 = None
  /\ trace (execute env w req tableName).2
     = trace w ++ [(claimCall tableName (ID req), None);
                   (execCall req, None);
                   (removeCall tableName (ID req), None)]
  /\ table (execute env w req tableName).2 !! ID req = None
  /\ (keyed (table w) ->
      forall env' tr' tableName' current records r,
        (FetchSchedRequests env' {| table := table (execute env w req tableName).2;
                                    trace := tr' |} tableName' current).1 = Ok records ->
        r ∈ records -> ID r <> ID req).
Proof.
  intros Hf Hclient Hout Hdo Hread Hp Hrm.
  assert (Hresp : HTTPClient_DoRequest net c (Method req) (URL req) (Headers req) (Payload req)
                  = Ok {| Code := http.StatusCode hresp; Body := raw |}).
  { unfold HTTPClient_DoRequest. now rewrite Hout, Hdo, Hread. }
  split; [exact Hresp|]. rewrite Hresp in Hclient.
  rewrite (execute_executed env w req tableName _ Hf Hclient), Hp.
  rewrite removeRequest_run, Hrm. unfold claimed. cbn [fst snd trace table record setTable].
  split; [reflexivity|]. split; [now rewrite <- !app_assoc|].
  split; [apply lookup_delete_eq|].
  intros Hkeyed env' tr' tableName' current records r Hq Hin Heq.
  destruct (FetchSchedRequests_from_table _ _ _ _ _ _ Hq Hin) as (k & it & Hit & _ & Hdec).
  cbn [table] in Hit.
  assert (Hk : k <> ID req).
  { intros ->. rewrite lookup_delete_eq in Hit. discriminate. }
  rewrite lookup_delete_ne, lookup_insert_ne in Hit by congruence.
  apply Hk. rewrite <- Heq. symmetry. now apply (keyed_ID (table w) k it r).
Qed.

End Upstream.

(** ** What the due-query returns *)

Section DueQueryResult.

Import dynamodb schema scheduler dynamodbattribute.

Lemma dueItem_attributes current (it : Item) :
  dueItem current it = true ->
  it !! "Locking" = Some (AttrBOOL false)
  /\ exists text,
       it !! "EffectiveAfter" = Some (AttrS text)
       /\ bytesCompare text (gotime.Format current unixFormat) <> Gt.
Proof.
  unfold dueItem. intros [He Hl]%andb_true_iff. split.
  - destruct (it !! "Locking") as [[s|[]|m|]|]; cbn in Hl; congruence.
  - destruct (it !! "EffectiveAfter") as [[text|b|m|]|]; cbn in He; try discriminate.
    exists text. split; [reflexivity|].
    destruct (bytesCompare text _); congruence.
Qed.

(** C1, as amended. The due-query reads the table in the one [Scan] call
    the program makes, which is taken to read it in full. On any table,
    whatever it holds, a record that the
    due-query returns has [Locking] false and is the reading of an item
    whose stored [EffectiveAfter] is a text that is not greater, as a
    text, than [current] in the layout [unixFormat].
    On a table that holds the records [recs] as [Create] stores them, the
    due-query returns exactly the records that are due at [current] down
    to the second: those whose [EffectiveAfter], down to the second, is not
    after [current], down to the second, and whose [Locking] is false. A
    record whose [EffectiveAfter] is in a later second than [current], or
    whose [Locking] is true, is not in the result. For a record whose
    [EffectiveAfter] is on a whole second, being due is having
    [EffectiveAfter] not after [current]. *)
Theorem FetchSchedRequests_returns_due env tr tableName recs current :
  NoDup (ID <$> recs) ->
  Forall (fun req => wellformedRequest req = true) recs ->
  gotime.wellformed current = true ->
  fault env {| table := store recs; trace := tr |} (scanCall tableName current) = None ->
  (forall env' w' tableName' current' records' r,
     (FetchSchedRequests env' w' tableName' current').1 = Ok records' ->
     r ∈ records' ->
     Locking r = false
     /\ exists k it text,
          table w' !! k = Some it
          /\ UnmarshalMap it = Ok r
          /\ it !! "EffectiveAfter" = Some (AttrS text)
          /\ bytesCompare text (gotime.Format current' unixFormat) <> Gt)
  /\ exists records,
       (FetchSchedRequests env {| table := store recs; trace := tr |} tableName current).1
       = Ok records
       /\ Permutation records (List.filter (due current) recs)
       /\ (forall req,
             gotime.After (gotime.Truncate (EffectiveAfter req)) (gotime.Truncate current)
             = true
             \/ Locking req = true ->
             req ∉ records)
       /\ (forall req,
             gotime.nanosecond (EffectiveAfter req) = 0%N ->
             due current req
             = negb (gotime.After (EffectiveAfter req) current) && negb (Locking req)).
Proof.
  intros Hnd Hwf Hc Hf. split.
  { intros env' w' tableName' current' records' r Hq Hin.
    destruct (FetchSchedRequests_from_table _ _ _ _ _ _ Hq Hin)
      as (k & it & Hit & Hdue & Hdec).
    apply dueItem_attributes in Hdue as (Hl & text & He & Hle).
    split; [|now exists k, it, text].
    apply UnmarshalMap_fields in Hdec as (_ & _ & _ & _ & Hdl & _).
    unfold decodeBool in Hdl. rewrite Hl in Hdl. congruence. }
  unfold FetchSchedRequests.
  rewrite Scan_run, Hf. cbn [Items table].
  assert (Hperm : Permutation (map_to_list (store recs)).*2 (encode <$> recs)).
  { unfold store. rewrite map_to_list_to_map.
    - rewrite <- list_fmap_compose. reflexivity.
    - rewrite <- list_fmap_compose. exact Hnd. }
  apply Permutation_map_inv in Hperm as (recs' & Heq & Hperm).
  change (map encode recs') with (encode <$> recs') in Heq. rewrite Heq.
  assert (Hwf' : Forall (fun req => wellformedRequest req = true) recs').
  { now rewrite <- Hperm. }
  rewrite filter_encode by assumption.
  rewrite UnmarshalListOfMaps_encode by now apply Forall_filter.
  exists (List.filter (due current) recs'). split; [reflexivity|]. split; [|split].
  - apply filter_Permutation. now symmetry.
  - intros req Hreq Hin. apply list_elem_of_In, filter_In in Hin as [_ Hdue].
    unfold due in Hdue. apply andb_true_iff in Hdue as [Ha Hl].
    destruct Hreq as [Hreq|Hreq]; rewrite Hreq in *; discriminate.
  - intros req Hns. unfold due. now rewrite After_Truncate.
Qed.

(** C1, as stated, fails: a record stored with a fraction of a second is
    returned from the start of its second on, here four tenths of a second
    before its [EffectiveAfter]. *)
Lemma due_query_returns_record_before_its_time :
  (FetchSchedRequests (sampleEnv refuseNothing sampleAnswer) (sampleWorld [requestF])
                      "citium_schedule" sampleClock).1 = Ok [requestF]
  /\ gotime.After (EffectiveAfter requestF) sampleClock = true.
Proof. vm_compute. split; reflexivity. Qed.

End DueQueryResult.

(** * Further properties *)

(** ** Storing, reading and locking a record *)

Section Storage.

Import dynamodb schema scheduler dynamodbattribute.

Lemma Create_run env w tableName req :
  Create env w tableName req
  = if encodable req then
      match fault env w (putCall tableName req) with
      | Some e =>
          (Some (errors.wrap e ("conn.PutItem req " +:+ ToString req
                                +:+ " table_name=" +:+ tableName)),
           record w (putCall tableName req) (Some e))
      | None =>
          if String.eqb (ID req) "" then
            (Some (errors.wrap ValidationException
                     ("conn.PutItem req " +:+ ToString req +:+ " table_name="
                      +:+ tableName)),
             record w (putCall tableName req) (Some ValidationException))
          else
            (None, record (setTable w (<[ID req := encode req]> (table w)))
                          (putCall tableName req) None)
      end
    else
      (Some (errors.wrap InvalidMarshalError
               ("dynamodbattribute.MarshalMap req " +:+ ToString req)), w).
Proof.
  unfold Create, MarshalMap, encodable, conn.PutItem, putCall.
  destruct (existsb _ (Headers req)); cbn [negb]; [reflexivity|].
  destruct (fault env w _); [reflexivity|]. cbn [Put_Item].
  change (encode req !! "ID") with (Some (encodeString (ID req))).
  unfold encodeString. now destruct (String.eqb (ID req) "").
Qed.

(** X1. A record that [Create] has stored is what [Get] returns for its
    id: for a record with a non-empty id, well-formed instants and no
    header with an empty key, which the encoder refuses, and a backend that
    accepts both calls, [Create] returns nil and [Get] then returns the
    record as it was given, whatever was under the id before. *)
Theorem Create_then_Get env w tableName req :
  ID req <> "" ->
  wellformedRequest req = true ->
  encodable req = true ->
  fault env w (putCall tableName req) = None ->
  fault env (Create env w tableName req).2 (getCall tableName (ID req)) = None ->
  (Create env w tableName req).1 = None
  /\ (Get env (Create env w tableName req).2 tableName (ID req)).1 = Ok req.
Proof.
  intros Hid Hwf Henc Hput. rewrite Create_run, Henc, Hput.
  destruct (String.eqb_spec (ID req) ""); [contradiction|]. cbn [fst snd].
  intros Hget. split; [reflexivity|].
  rewrite Get_run, Hget. cbn [fst table record setTable].
  rewrite lookup_insert_eq. cbn [default from_option id].
  now rewrite UnmarshalMap_encode.
Qed.

Lemma Create_then_Get_witness :
  (Get (sampleEnv refuseNothing sampleAnswer)
       (Create (sampleEnv refuseNothing sampleAnswer) (sampleWorld [requestB])
               "citium_schedule" requestF).2
       "citium_schedule" "f").1 = Ok requestF.
Proof.
  refine (proj2 (Create_then_Get (sampleEnv refuseNothing sampleAnswer)
                   (sampleWorld [requestB]) "citium_schedule" requestF _ _ _ _ _));
    [discriminate|reflexivity|reflexivity|reflexivity|reflexivity].
Defined.

(** X2. [Create] makes at most one call and changes at most the item
    under the record's id. For a record that has a header with an empty
    key the encoder fails: [Create] returns its error, wrapped, and makes
    no call. Otherwise it makes one call, the put of the encoded record.
    When [Create] returns an error the table is as it was; besides the
    encoder's error it does so when the backend refuses the put, with the
    backend's error wrapped, and for a record with an empty id, whose key
    the encoder writes as NULL. *)
Theorem Create_changes_one_item env w tableName req :
  (forall k, k <> ID req -> table (Create env w tableName req).2 !! k = table w !! k)
  /\ ((Create env w tableName req).1 <> None -> table (Create env w tableName req).2 = table w)
  /\ (ID req = "" -> (Create env w tableName req).1 <> None)
  /\ (encodable req = false ->
      Create env w tableName req
      = (Some (errors.wrap InvalidMarshalError
                 ("dynamodbattribute.MarshalMap req " +:+ ToString req)), w))
  /\ (encodable req = true ->
      (forall e, fault env w (putCall tableName req) = Some e ->
         (Create env w tableName req).1
         = Some (errors.wrap e ("conn.PutItem req " +:+ ToString req
                                +:+ " table_name=" +:+ tableName)))
      /\ exists err, trace (Create env w tableName req).2
                     = trace w ++ [(putCall tableName req, err)]).
Proof.
  rewrite Create_run. destruct (encodable req).
  2:{ cbn [fst snd]. repeat split; try discriminate; try reflexivity. }
  destruct (fault env w _) as [e|]; cbn [fst snd table trace record setTable].
  - repeat split; eauto; try discriminate. intros e0 [= <-]. reflexivity.
  - destruct (String.eqb_spec (ID req) "") as [He|He]; cbn [fst snd table trace record setTable].
    + repeat split; eauto; discriminate.
    + repeat split; eauto; try congruence.
      intros k Hk. now rewrite lookup_insert_ne.
Qed.

(** X3. [Lock] and [Unlock] of a stored record write its [Locking] and
    nothing else. On a record that is not locked [Unlock] undoes [Lock]:
    the table is as it was before the two calls; on a record that is locked
    already [Lock] changes nothing. *)
Theorem Unlock_undoes_Lock env w tableName reqID item :
  table w !! reqID = Some item ->
  fault env w (lockCall tableName reqID true) = None ->
  fault env (Lock env w tableName reqID).2 (lockCall tableName reqID false) = None ->
  let w1 := (Lock env w tableName reqID).2 in
  let w2 := (Unlock env w1 tableName reqID).2 in
  (Lock env w tableName reqID).1 = None
  /\ (Unlock env w1 tableName reqID).1 = None
  /\ table w1 = <[reqID := <["Locking" := AttrBOOL true]> item]> (table w)
  /\ table w2 = <[reqID := <["Locking" := AttrBOOL false]> item]> (table w)
  /\ (item !! "Locking" = Some (AttrBOOL false) -> table w2 = table w)
  /\ (item !! "Locking" = Some (AttrBOOL true) -> table w1 = table w).
Proof.
  intros Hit Hl. unfold Lock, Unlock.
  rewrite (setLocking_run env w), Hl. cbn [fst snd]. intros Hu.
  rewrite setLocking_run, Hu. cbn [fst snd table record setTable].
  unfold itemAt. rewrite lookup_insert_eq, Hit. cbn [default from_option id].
  rewrite !insert_insert_eq.
  repeat split; try reflexivity.
  - intros Hf. now rewrite (insert_id item), (insert_id (table w)).
  - intros Ht. now rewrite (insert_id item), (insert_id (table w)).
Qed.

Lemma Unlock_undoes_Lock_witness :
  table (Unlock (sampleEnv refuseNothing sampleAnswer)
                (Lock (sampleEnv refuseNothing sampleAnswer) (sampleWorld [requestA; requestB])
                      "citium_schedule" "a").2
                "citium_schedule" "a").2
  = table (sampleWorld [requestA; requestB]).
Proof.
  refine (proj1 (proj2 (proj2 (proj2 (proj2
    (Unlock_undoes_Lock (sampleEnv refuseNothing sampleAnswer)
       (sampleWorld [requestA; requestB]) "citium_schedule" "a" (encode requestA) _ _ _))))) _);
    reflexivity.
Defined.

(** X4. [Lock] and [Unlock] do not check that the record exists. For an
    id without an item they return nil and leave under the id an item that
    holds the id and [Locking] only; [Get] reads it as a request that is
    zero-valued but for these two, and the due-query never returns it. *)
Theorem setLocking_absent_creates_stub env w tableName reqID status :
  table w !! reqID = None ->
  fault env w (lockCall tableName reqID status) = None ->
  let w1 := (setLocking env w tableName reqID status).2 in
  (setLocking env w tableName reqID status).1 = None
  /\ table w1 !! reqID
     = Some (<["Locking" := AttrBOOL status]> {[ "ID" := AttrS reqID ]})
  /\ (fault env w1 (getCall tableName reqID) = None ->
      (Get env w1 tableName reqID).1 = Ok (stub reqID status))
  /\ (forall current item, table w1 !! reqID = Some item -> dueItem current item = false).
Proof.
  intros Hn Hf w1. subst w1. rewrite setLocking_run, Hf.
  cbn [fst snd table record setTable]. unfold itemAt. rewrite Hn. cbn [default from_option id].
  rewrite lookup_insert_eq. repeat split.
  - intros Hg. rewrite Get_run, Hg. cbn [fst table record setTable]. rewrite lookup_insert_eq.
    cbn [default from_option id]. reflexivity.
  - intros current item [= <-]. reflexivity.
Qed.

Lemma setLocking_absent_creates_stub_witness :
  (Unlock (sampleEnv refuseNothing sampleAnswer) (sampleWorld [requestA])
          "citium_schedule" "missing").1 = None
  /\ table (Unlock (sampleEnv refuseNothing sampleAnswer) (sampleWorld [requestA])
                   "citium_schedule" "missing").2 !! "missing"
     = Some (<["Locking" := AttrBOOL false]> {[ "ID" := AttrS "missing" ]}).
Proof.
  destruct (setLocking_absent_creates_stub (sampleEnv refuseNothing sampleAnswer)
              (sampleWorld [requestA]) "citium_schedule" "missing" false eq_refl eq_refl)
    as (H1 & H2 & _).
  split; assumption.
Defined.

Lemma dueItem_Locking current (it : Item) :
  dueItem current it = true -> it !! "Locking" = Some (AttrBOOL false).
Proof.
  unfold dueItem. intros [_ Hl]%andb_true_iff.
  destruct (it !! "Locking") as [[s|[]|m|]|]; cbn in Hl; congruence.
Qed.

Lemma keyed_store recs :
  Forall (fun req => ID req <> "") recs -> keyed (store recs).
Proof.
  induction 1 as [|req recs Hid _ IH]; intros k it.
  - unfold store. cbn. now rewrite lookup_empty.
  - unfold store. cbn [fmap list_fmap list_to_map foldr fst snd].
    destruct (decide (k = ID req)) as [->|Hne].
    + rewrite lookup_insert_eq. intros [= <-].
      change (encode req !! "ID") with (Some (encodeString (ID req))).
      unfold encodeString. now destruct (String.eqb_spec (ID req) "").
    + rewrite lookup_insert_ne by congruence. apply IH.
Qed.

(** X5. Once [Lock] has been accepted for an id, no due-query on the
    table returns a record with that id, whatever the time of the query
    (on a table whose items carry their key). *)
Theorem locked_record_is_not_due
    env w tableName reqID env' tr' tableName' current records r :
  keyed (table w) ->
  fault env w (claimCall tableName reqID) = None ->
  (FetchSchedRequests env' {| table := table (Lock env w tableName reqID).2; trace := tr' |}
                      tableName' current).1 = Ok records ->
  r ∈ records ->
  ID r <> reqID.
Proof.
  intros Hkeyed Hf Hq Hin Heq.
  destruct (FetchSchedRequests_from_table _ _ _ _ _ _ Hq Hin) as (k & it & Hit & Hdue & Hdec).
  rewrite Lock_run, Hf in Hit. unfold claimed in Hit. cbn [snd table record setTable] in Hit.
  destruct (decide (k = reqID)) as [->|Hk].
  - rewrite lookup_insert_eq in Hit. injection Hit as <-.
    apply dueItem_Locking in Hdue. rewrite lookup_insert_eq in Hdue. discriminate.
  - rewrite lookup_insert_ne in Hit by congruence.
    apply Hk. rewrite <- Heq. symmetry. now apply (keyed_ID (table w) k it r).
Qed.

Lemma locked_record_is_not_due_witness :
  (FetchSchedRequests (sampleEnv refuseNothing sampleAnswer)
     {| table := table (Lock (sampleEnv refuseNothing sampleAnswer)
                             (sampleWorld [requestA; requestE]) "citium_schedule" "a").2;
        trace := [] |}
     "citium_schedule" sampleClock).1 = Ok [requestE]
  /\ ID requestE <> "a".
Proof.
  split; [reflexivity|].
  apply (locked_record_is_not_due (sampleEnv refuseNothing sampleAnswer)
           (sampleWorld [requestA; requestE]) "citium_schedule" "a"
           (sampleEnv refuseNothing sampleAnswer) [] "citium_schedule" sampleClock
           [requestE] requestE).
  - apply keyed_store. repeat constructor; discriminate.
  - reflexivity.
  - reflexivity.
  - now left.
Defined.

Lemma UnmarshalListOfMaps_Err items it e :
  it ∈ items -> UnmarshalMap it = Err e ->
  exists e', UnmarshalListOfMaps items = Err e'.
Proof.
  induction items as [|it0 items IH]; [now intros ?%elem_of_nil|].
  intros [->|Hin]%elem_of_cons He; cbn [UnmarshalListOfMaps].
  - rewrite He. eauto.
  - destruct (UnmarshalMap it0); cbn [mbind result_bind]; [|eauto].
    destruct (IH Hin He) as [e' ->]. eauto.
Qed.

(** X6. One item that passes the filter of the scan and that the decoder
    rejects makes the due-query fail as a whole, and with it the pass:
    [TriggerAPI] returns the decoder's error, wrapped twice, having made
    no call but the scan; no record is claimed or executed, the decodable
    ones included. *)
Theorem undecodable_item_fails_pass env w conf k it e :
  fault env w (scanCall (config.TableName conf) (Now env w)) = None ->
  table w !! k = Some it ->
  dueItem (Now env w) it = true ->
  UnmarshalMap it = Err e ->
  exists e' msg,
    (FetchSchedRequests env w (config.TableName conf) (Now env w)).1
    = Err (errors.wrap e' msg)
    /\ TriggerAPI env w conf
       = (Some (errors.wrap (errors.wrap e' msg) "fetchSchedRequests"),
          record w (scanCall (config.TableName conf) (Now env w)) None).
Proof.
  intros Hf Hit Hdue Hdec. unfold TriggerAPI.
  rewrite FetchSchedRequests_run, Hf. cbv zeta.
  destruct (UnmarshalListOfMaps_Err
              (List.filter (dueItem (Now env w)) (map_to_list (table w)).*2) it e)
    as [e' He']; [|assumption|].
  { apply list_elem_of_In, filter_In. split; [|assumption].
    apply list_elem_of_In, list_elem_of_fmap. exists (k, it). split; [reflexivity|].
    now apply elem_of_map_to_list. }
  rewrite He'. cbn [fst errors.Wrap]. eauto.
Qed.

Lemma undecodable_item_fails_pass_witness :
  exists e' msg,
    TriggerAPI (sampleEnv refuseNothing sampleAnswer) brokenWorld sampleConf
    = (Some (errors.wrap (errors.wrap e' msg) "fetchSchedRequests"),
       record brokenWorld (scanCall "citium_schedule" sampleClock) None).
Proof.
  destruct (undecodable_item_fails_pass (sampleEnv refuseNothing sampleAnswer)
              brokenWorld sampleConf "a" brokenItem (UnmarshalTypeError "Method"))
    as (e' & msg & _ & H); [reflexivity..|].
  exists e', msg. exact H.
Defined.

Lemma due_query_on_store env w tableName recs current :
  table w = store recs ->
  NoDup (ID <$> recs) ->
  Forall (fun req => wellformedRequest req = true) recs ->
  gotime.wellformed current = true ->
  fault env w (scanCall tableName current) = None ->
  exists records,
    (FetchSchedRequests env w tableName current).1 = Ok records
    /\ Permutation records (List.filter (due current) recs).
Proof.
  intros Ht Hnd Hwf Hc Hf. rewrite FetchSchedRequests_run, Hf. cbv zeta. rewrite Ht.
  assert (Hperm : Permutation (map_to_list (store recs)).*2 (encode <$> recs)).
  { unfold store. rewrite map_to_list_to_map.
    - rewrite <- list_fmap_compose. reflexivity.
    - rewrite <- list_fmap_compose. exact Hnd. }
  apply Permutation_map_inv in Hperm as (recs' & Heq & Hperm).
  change (map encode recs') with (encode <$> recs') in Heq. rewrite Heq.
  assert (Hwf' : Forall (fun req => wellformedRequest req = true) recs').
  { now rewrite <- Hperm. }
  rewrite filter_encode by assumption.
  rewrite UnmarshalListOfMaps_encode by now apply Forall_filter.
  exists (List.filter (due current) recs'). split; [reflexivity|].
  apply filter_Permutation. now symmetry.
Qed.

(** X7. A record that [Create] has added to a table of stored records
    is returned by the due-query exactly when it is due at the time of the
    query, down to the second; the records that were there are returned as
    before. The record is one the encoder accepts: it has no header with an
    empty key. *)
Theorem created_record_becomes_due env tr tableName recs req current :
  NoDup (ID <$> req :: recs) ->
  Forall (fun req => wellformedRequest req = true) (req :: recs) ->
  ID req <> "" ->
  encodable req = true ->
  gotime.wellformed current = true ->
  fault env {| table := store recs; trace := tr |} (putCall tableName req) = None ->
  fault env (Create env {| table := store recs; trace := tr |} tableName req).2
        (scanCall tableName current) = None ->
  exists records,
    (FetchSchedRequests env (Create env {| table := store recs; trace := tr |} tableName req).2
                        tableName current).1 = Ok records
    /\ Permutation records (List.filter (due current) (req :: recs))
    /\ (req ∈ records <-> due current req = true).
Proof.
  intros Hnd Hwf Hid Henc Hc Hput Hscan.
  set (w1 := (Create env {| table := store recs; trace := tr |} tableName req).2) in *.
  assert (Ht : table w1 = store (req :: recs)).
  { subst w1. rewrite Create_run, Henc, Hput.
    destruct (String.eqb_spec (ID req) ""); [contradiction|]. reflexivity. }
  destruct (due_query_on_store env w1 tableName (req :: recs) current Ht Hnd Hwf Hc Hscan)
    as (records & Hq & Hperm).
  exists records. split; [assumption|]. split; [assumption|].
  rewrite Hperm. cbn [List.filter]. split.
  - intros Hin. apply list_elem_of_In in Hin.
    destruct (due current req) eqn:Hd; [reflexivity|].
    apply filter_In in Hin as [_ Hin]. congruence.
  - intros ->. now left.
Qed.

Lemma created_record_becomes_due_witness :
  exists records,
    (FetchSchedRequests (sampleEnv refuseNothing sampleAnswer)
       (Create (sampleEnv refuseNothing sampleAnswer) (sampleWorld [requestB; requestC])
               "citium_schedule" requestA).2
       "citium_schedule" sampleClock).1 = Ok records
    /\ Permutation records (List.filter (due sampleClock) [requestA; requestB; requestC])
    /\ (requestA ∈ records <-> due sampleClock requestA = true).
Proof.
  apply (created_record_becomes_due (sampleEnv refuseNothing sampleAnswer) []
           "citium_schedule" [requestB; requestC] requestA sampleClock).
  - compute_done.
  - repeat constructor.
  - discriminate.
  - reflexivity.
  - reflexivity.
  - reflexivity.
  - reflexivity.
Defined.

End Storage.

(** ** What the engine does for a record, and what it leaves alone *)

Section Records.

Import dynamodb schema scheduler dynamodbattribute.

(** The seven ways [execute] can go: the claim refused; the request made
    and the result stored or refused, the record removed or the removal
    refused; the request failed and the failure recorded or refused. *)
Ltac execute_cases env w req tn :=
  let Hf := fresh "Hf" in
  let Hd := fresh "Hd" in
  let Hs := fresh "Hs" in
  let s := fresh "s" in
  destruct (fault env w (claimCall tn (ID req))) as [?e|] eqn:Hf;
  [ rewrite (execute_claim_refused _ _ _ _ _ Hf)
  | destruct (DoRequest env (claimed w tn (ID req))
                (Method req) (URL req) (Headers req) (Payload req)) as [?resp|?e] eqn:Hd;
    [ rewrite (execute_executed _ _ _ _ _ Hf Hd);
      destruct (Marshal_Ok resp) as [s Hs];
      destruct (PersistentStore req) eqn:?Hp;
      [ rewrite (updateResult_run _ _ _ _ _ _ s Hs);
        destruct (fault env _ (resultCall _ _ _ _)) as [?e|] eqn:?Hr
      | rewrite removeRequest_run;
        destruct (fault env _ (removeCall _ _)) as [?e|] eqn:?Hr ]
    | rewrite (execute_execution_failed _ _ _ _ _ Hf Hd); cbv zeta;
      rewrite logFailure_run;
      destruct (fault env (record _ _ _) (failureCall _ _ _)) as [?e|] eqn:?Hr ] ].

Lemma itemAt_claimed w tableName k c err :
  itemAt (table (record (claimed w tableName k) c err)) k
  = <["Locking" := AttrBOOL true]> (itemAt (table w) k).
Proof.
  unfold claimed, itemAt at 1. cbn [table record setTable]. now rewrite lookup_insert_eq.
Qed.

(** X8. A record whose request succeeded and whose finalize write is
    refused (the result of a persistent record, the removal of another):
    [execute] returns the backend's error, wrapped, and makes no further
    call; the record is left as the claim made it, locked, with no
    failure reason and no result written. *)
Theorem finalize_failure_leaves_record_claimed env w req tableName resp e2 :
  fault env w (claimCall tableName (ID req)) = None ->
  DoRequest env (claimed w tableName (ID req))
            (Method req) (URL req) (Headers req) (Payload req) = Ok resp ->
  let w2 := record (claimed w tableName (ID req)) (execCall req) None in
  exists s, json.Marshal resp = Ok s /\
    let fcall := if PersistentStore req
                 then resultCall tableName (ID req) s (Now env w2)
                 else removeCall tableName (ID req) in
    (fault env w2 fcall = Some e2 ->
     (execute env w req tableName).1
     = Some (if PersistentStore req
             then errors.wrap
                    (errors.wrap e2 ("conn.UpdateItem id=" +:+ ID req +:+ " table_name="
                                     +:+ tableName +:+ " result=" +:+ s))
                    ("storeResult req[" +:+ ToString req +:+ "] resp["
                     +:+ Response_ToString resp +:+ "]")
             else errors.wrap
                    (errors.wrap e2 ("conn.DeleteItem id=" +:+ ID req +:+ " table_name="
                                     +:+ tableName))
                    ("removeRequest " +:+ ToString req))
     /\ trace (execute env w req tableName).2
        = trace w ++ [(claimCall tableName (ID req), None); (execCall req, None);
                      (fcall, Some e2)]
     /\ table (execute env w req tableName).2
        = <[ID req := <["Locking" := AttrBOOL true]> (itemAt (table w) (ID req))]> (table w)).
Proof.
  intros Hf Hd w2. destruct (Marshal_Ok resp) as [s Hs]. exists s. split; [exact Hs|].
  intros fcall Hr. rewrite (execute_executed env w req tableName resp Hf Hd). fold w2.
  subst fcall. destruct (PersistentStore req).
  - rewrite (updateResult_run _ _ _ _ _ _ s Hs), Hr.
    unfold w2, claimed. cbn [fst snd table trace record setTable].
    now rewrite <- !app_assoc.
  - rewrite removeRequest_run, Hr.
    unfold w2, claimed. cbn [fst snd table trace record setTable].
    now rewrite <- !app_assoc.
Qed.

Lemma finalize_failure_leaves_record_claimed_witness :
  table (execute (sampleEnv refuseDeletes sampleAnswer) (sampleWorld [requestA]) requestA
                 "citium_schedule").2
  = <["a" := <["Locking" := AttrBOOL true]> (encode requestA)]> (store [requestA]).
Proof.
  destruct (finalize_failure_leaves_record_claimed
              (sampleEnv refuseDeletes sampleAnswer) (sampleWorld [requestA]) requestA
              "citium_schedule" {| Code := 200; Body := "" |} (errorString "Internal error")
              eq_refl eq_refl) as (s & _ & H).
  destruct (H eq_refl) as (_ & _ & Ht). exact Ht.
Defined.

Lemma execute_frame env w req tableName :
  (forall k, k <> ID req -> table (execute env w req tableName).2 !! k = table w !! k)
  /\ exists evs,
       trace (execute env w req tableName).2 = trace w ++ evs
       /\ Forall (fun ev => concerns tableName (ID req) ev.1) evs.
Proof.
  execute_cases env w req tableName;
    unfold claimed; cbn [fst snd table trace record setTable];
    (split; [intros k Hk; rewrite ?lookup_delete_ne, ?lookup_insert_ne by congruence;
             reflexivity|]);
    rewrite <- ?app_assoc; eexists; (split; [reflexivity|]);
    repeat constructor.
Qed.

(** X9. [execute] makes between one and three calls, the first of them
    the claim; each is the request itself or a write under the record's own
    key in the given table, so that it never scans, reads or puts, and
    every item but the record's own is as it was. *)
Theorem execute_touches_only_its_record env w req tableName :
  (forall k, k <> ID req -> table (execute env w req tableName).2 !! k = table w !! k)
  /\ exists err evs,
       trace (execute env w req tableName).2
       = trace w ++ (claimCall tableName (ID req), err) :: evs
       /\ Forall (fun ev => concerns tableName (ID req) ev.1) evs
       /\ length evs <= 2.
Proof.
  execute_cases env w req tableName;
    unfold claimed; cbn [fst snd table trace record setTable];
    (split; [intros k Hk; rewrite ?lookup_delete_ne, ?lookup_insert_ne by congruence;
             reflexivity|]);
    rewrite <- ?app_assoc; eexists _, _; (split; [reflexivity|]);
    (split; [repeat constructor|cbn; lia]).
Qed.

(** *** From one pass to the next *)

Lemma settled_insert (t : gmap string Item) id k item :
  settled t id ->
  (k = id -> item !! "Locking" <> Some (AttrBOOL false)) ->
  settled (<[k := item]> t) id.
Proof.
  intros Hs Hk item'. destruct (decide (k = id)) as [->|Hne].
  - rewrite lookup_insert_eq. intros [= <-]. now apply Hk.
  - rewrite lookup_insert_ne by congruence. apply Hs.
Qed.

Lemma settled_delete (t : gmap string Item) id k :
  settled t id -> settled (delete k t) id.
Proof.
  intros Hs item. destruct (decide (k = id)) as [->|Hne].
  - now rewrite lookup_delete_eq.
  - rewrite lookup_delete_ne by congruence. apply Hs.
Qed.

Lemma claimCall_inj tableName id id' (err err' : error) :
  (claimCall tableName id, err) = (claimCall tableName id', err') -> id = id' /\ err = err'.
Proof. now intros [= -> ->]. Qed.

(** What [execute] leaves behind: what was settled stays so, and the
    record is settled once its claim has been accepted. *)
Lemma execute_settles env w req tableName :
  (forall id, settled (table w) id -> settled (table (execute env w req tableName).2) id)
  /\ exists evs,
       trace (execute env w req tableName).2 = trace w ++ evs
       /\ forall id, (claimCall tableName id, None) ∈ evs ->
                     settled (table (execute env w req tableName).2) id.
Proof.
  execute_cases env w req tableName;
    rewrite ?itemAt_claimed;
    unfold claimed; cbn [fst snd table trace record setTable]; rewrite <- ?app_assoc;
    (split;
     [ intros k Hst;
       repeat first [ apply settled_delete
                    | apply settled_insert;
                      [|intros _; rewrite ?lookup_insert_ne by discriminate;
                        rewrite lookup_insert_eq; discriminate] ];
       assumption
     | eexists; split; [reflexivity|];
       intros k Hin;
       repeat (apply elem_of_cons in Hin as [Hin|Hin]; [try discriminate|]);
       try (now apply elem_of_nil in Hin);
       apply claimCall_inj in Hin as [-> _];
       intros item; rewrite ?lookup_delete_eq, ?lookup_insert_eq; intros [= <-];
       rewrite ?lookup_insert_ne by discriminate;
       rewrite lookup_insert_eq; discriminate ]).
Qed.

Lemma keyed_insert (t : gmap string Item) k item :
  keyed t -> item !! "ID" = Some (AttrS k) -> keyed (<[k := item]> t).
Proof.
  intros Hk Hid k' it. destruct (decide (k = k')) as [->|Hne].
  - rewrite lookup_insert_eq. now intros [= <-].
  - rewrite lookup_insert_ne by assumption. apply Hk.
Qed.

Lemma keyed_delete (t : gmap string Item) k : keyed t -> keyed (delete k t).
Proof.
  intros Hk k' it. destruct (decide (k = k')) as [->|Hne].
  - now rewrite lookup_delete_eq.
  - rewrite lookup_delete_ne by assumption. apply Hk.
Qed.

Lemma keyed_itemAt (t : gmap string Item) k :
  keyed t -> itemAt t k !! "ID" = Some (AttrS k).
Proof.
  intros Hk. unfold itemAt. destruct (t !! k) as [item|] eqn:Hit; cbn [default from_option id].
  - now apply Hk.
  - apply lookup_singleton_eq.
Qed.

Lemma execute_keyed env w req tableName :
  keyed (table w) -> keyed (table (execute env w req tableName).2).
Proof.
  intros Hk.
  execute_cases env w req tableName;
    rewrite ?itemAt_claimed;
    unfold claimed; cbn [fst snd table trace record setTable];
    repeat first [ apply keyed_delete
                 | apply keyed_insert;
                   [|rewrite ?lookup_insert_ne by discriminate; now apply keyed_itemAt] ];
    assumption.
Qed.

Lemma spawn_keyed env w requests tableName :
  keyed (table w) -> keyed (table (spawn env w requests tableName).2).
Proof.
  revert w. induction requests as [|req rest IH]; intros w Hk; [assumption|].
  rewrite spawn_cons. cbn [snd]. apply IH. now apply execute_keyed.
Qed.

Lemma spawn_settles env w requests tableName :
  (forall k, settled (table w) k -> settled (table (spawn env w requests tableName).2) k)
  /\ exists evs,
       trace (spawn env w requests tableName).2 = trace w ++ evs
       /\ forall k, (claimCall tableName k, None) ∈ evs ->
                    settled (table (spawn env w requests tableName).2) k.
Proof.
  revert w. induction requests as [|req rest IH]; intros w.
  - split; [tauto|]. exists []. cbn. rewrite app_nil_r. split; [reflexivity|].
    now intros k ?%elem_of_nil.
  - rewrite spawn_cons. cbn [snd].
    destruct (execute_settles env w req tableName) as (Hp1 & evs1 & Ht1 & Hc1).
    destruct (IH (execute env w req tableName).2) as (Hp2 & evs2 & Ht2 & Hc2).
    split; [intros k Hst; apply Hp2, Hp1, Hst|].
    exists (evs1 ++ evs2). split; [now rewrite Ht2, Ht1, app_assoc|].
    intros k [Hin|Hin]%elem_of_app.
    + apply Hp2, Hc1, Hin.
    + apply Hc2, Hin.
Qed.

(** X10. A record whose claim was accepted in a pass is not returned by
    any due-query on the table the pass leaves, whatever became of its
    request and of the writes after it: the pass removed it or left it
    locked (on a table whose items carry their key). *)
Theorem claimed_record_is_not_due_again env w conf :
  keyed (table w) ->
  exists evs,
    trace (TriggerAPI env w conf).2 = trace w ++ evs
    /\ forall id env' tr' tableName' current records r,
         (claimCall (config.TableName conf) id, None) ∈ evs ->
         (FetchSchedRequests env' {| table := table (TriggerAPI env w conf).2; trace := tr' |}
                             tableName' current).1 = Ok records ->
         r ∈ records ->
         ID r <> id.
Proof.
  intros Hkeyed. unfold TriggerAPI. rewrite FetchSchedRequests_run.
  destruct (fault env w _) as [e|].
  { eexists. split; [reflexivity|].
    intros k env' tr' tn' current records r [[=]|[]%elem_of_nil]%elem_of_cons. }
  cbv zeta. destruct (UnmarshalListOfMaps _) as [requests|e].
  2:{ eexists. split; [reflexivity|].
      intros k env' tr' tn' current records r [[=]|[]%elem_of_nil]%elem_of_cons. }
  set (w1 := record w _ None).
  destruct (spawn env w1 requests (config.TableName conf)) as [errc w2] eqn:Hsp.
  cbn [snd].
  destruct (spawn_settles env w1 requests (config.TableName conf)) as (_ & evs & Ht & Hc).
  pose proof (spawn_keyed env w1 requests (config.TableName conf) Hkeyed) as Hk2.
  rewrite Hsp in Ht, Hc, Hk2. cbn [snd] in Ht, Hc, Hk2.
  eexists. split; [rewrite Ht; unfold w1; cbn [trace record]; now rewrite <- app_assoc|].
  intros k env' tr' tn' current records r Hin Hq Hr Heq.
  apply elem_of_cons in Hin as [[=]|Hin].
  destruct (FetchSchedRequests_from_table _ _ _ _ _ _ Hq Hr) as (k' & it & Hit & Hdue & Hdec).
  cbn [table] in Hit.
  assert (ID r = k') by now apply (keyed_ID (table w2) k' it r). subst k' k.
  apply (Hc (ID r) Hin it Hit). now apply (dueItem_Locking current).
Qed.

Lemma claimed_record_is_not_due_again_witness :
  exists evs,
    trace (TriggerAPI (sampleEnv refuseDeletes sampleAnswer)
                      (sampleWorld [requestA; requestB]) sampleConf).2
    = trace (sampleWorld [requestA; requestB]) ++ evs
    /\ forall id env' tr' tableName' current records r,
         (claimCall (config.TableName sampleConf) id, None) ∈ evs ->
         (FetchSchedRequests env'
            {| table := table (TriggerAPI (sampleEnv refuseDeletes sampleAnswer)
                                          (sampleWorld [requestA; requestB]) sampleConf).2;
               trace := tr' |}
            tableName' current).1 = Ok records ->
         r ∈ records ->
         ID r <> id.
Proof.
  apply claimed_record_is_not_due_again.
  apply keyed_store. repeat constructor; discriminate.
Defined.

(** *** The calls of a pass *)

Lemma execute_calls env w req tableName :
  exists evs,
    trace (execute env w req tableName).2 = trace w ++ evs
    /\ List.filter isSetLocking evs
       = [(claimCall tableName (ID req), fault env w (claimCall tableName (ID req)))]
    /\ length (List.filter isExec evs) = length (List.filter accepted evs).
Proof.
  execute_cases env w req tableName;
    unfold claimed; cbn [fst snd table trace record setTable]; rewrite <- ?app_assoc;
    (eexists; split; [reflexivity|]); rewrite ?Hf; split; reflexivity.
Qed.

Lemma spawn_calls env w requests tableName :
  exists evs,
    trace (spawn env w requests tableName).2 = trace w ++ evs
    /\ fst <$> List.filter isSetLocking evs
       = (fun req => claimCall tableName (ID req)) <$> requests
    /\ length (List.filter isExec evs) = length (List.filter accepted evs).
Proof.
  revert w. induction requests as [|req rest IH]; intros w.
  - exists []. cbn. now rewrite app_nil_r.
  - rewrite spawn_cons. cbn [snd].
    destruct (execute_calls env w req tableName) as (evs1 & Ht1 & Hc1 & He1).
    destruct (IH (execute env w req tableName).2) as (evs2 & Ht2 & Hc2 & He2).
    exists (evs1 ++ evs2). split; [now rewrite Ht2, Ht1, app_assoc|].
    rewrite !List.filter_app, !length_app, fmap_app, Hc1, Hc2, He1, He2.
    split; reflexivity.
Qed.

Lemma filter_length_le {A} (f g : A -> bool) (l : list A) :
  (forall x, f x = true -> g x = true) ->
  length (List.filter f l) <= length (List.filter g l).
Proof.
  intros Hfg. induction l as [|x l IH]; cbn [List.filter]; [lia|].
  destruct (f x) eqn:Hf.
  - rewrite (Hfg x Hf). cbn. lia.
  - destruct (g x); cbn; lia.
Qed.

(** X11. A pass claims every record the due-query returned, and each
    once, whatever happens to the records before it: the writes of
    [Locking] made in the pass are the claims of the returned records, one
    each (in the order of the slice, in which the goroutines are run
    here). A failure for one record does not keep the others from being
    attempted. *)
Theorem every_due_record_is_claimed env w conf requests w1 :
  FetchSchedRequests env w (config.TableName conf) (Now env w) = (Ok requests, w1) ->
  exists evs,
    trace (TriggerAPI env w conf).2 = trace w1 ++ evs
    /\ fst <$> List.filter isSetLocking evs
       = (fun req => claimCall (config.TableName conf) (ID req)) <$> requests.
Proof.
  intros Hq. rewrite (TriggerAPI_run env w conf requests w1 Hq). cbn [snd].
  destruct (spawn_calls env w1 requests (config.TableName conf)) as (evs & Ht & Hc & _).
  eauto.
Qed.

Lemma every_due_record_is_claimed_witness :
  exists evs,
    trace (TriggerAPI (onceEnv sampleAnswer)
                      (sampleWorld [requestA; requestD; requestE]) sampleConf).2
    = trace (FetchSchedRequests (onceEnv sampleAnswer)
               (sampleWorld [requestA; requestD; requestE]) "citium_schedule" sampleClock).2
      ++ evs
    /\ length (List.filter isSetLocking evs) = 3.
Proof.
  destruct (every_due_record_is_claimed (onceEnv sampleAnswer)
              (sampleWorld [requestA; requestD; requestE]) sampleConf
              (match (FetchSchedRequests (onceEnv sampleAnswer)
                        (sampleWorld [requestA; requestD; requestE])
                        "citium_schedule" sampleClock).1 with
               | Ok requests => requests
               | Err _ => []
               end)
              (FetchSchedRequests (onceEnv sampleAnswer)
                 (sampleWorld [requestA; requestD; requestE])
                 "citium_schedule" sampleClock).2) as (evs & Ht & Hc); [reflexivity|].
  exists evs. split; [exact Ht|].
  rewrite <- (length_fmap fst), Hc. reflexivity.
Defined.

(** X12. In a pass the Request Executor is invoked once for each claim
    that was accepted and not otherwise: as many requests are made as
    claims were accepted, and never more than records were returned. *)
Theorem one_request_per_accepted_claim env w conf requests w1 :
  FetchSchedRequests env w (config.TableName conf) (Now env w) = (Ok requests, w1) ->
  exists evs,
    trace (TriggerAPI env w conf).2 = trace w1 ++ evs
    /\ length (List.filter isExec evs) = length (List.filter accepted evs)
    /\ length (List.filter isExec evs) <= length requests.
Proof.
  intros Hq. rewrite (TriggerAPI_run env w conf requests w1 Hq). cbn [snd].
  destruct (spawn_calls env w1 requests (config.TableName conf)) as (evs & Ht & Hc & He).
  exists evs. split; [assumption|]. split; [assumption|].
  rewrite He. etransitivity; [apply (filter_length_le accepted isSetLocking)|].
  - intros ev. unfold accepted. now intros [? _]%andb_true_iff.
  - rewrite <- (length_fmap fst), Hc, length_fmap. lia.
Qed.

Lemma one_request_per_accepted_claim_witness :
  exists evs,
    trace (TriggerAPI (onceEnv sampleAnswer)
                      (sampleWorld [requestA; requestD; requestE]) sampleConf).2
    = trace (FetchSchedRequests (onceEnv sampleAnswer)
               (sampleWorld [requestA; requestD; requestE]) "citium_schedule" sampleClock).2
      ++ evs
    /\ length (List.filter isExec evs) = length (List.filter accepted evs).
Proof.
  destruct (one_request_per_accepted_claim (onceEnv sampleAnswer)
              (sampleWorld [requestA; requestD; requestE]) sampleConf
              (match (FetchSchedRequests (onceEnv sampleAnswer)
                        (sampleWorld [requestA; requestD; requestE])
                        "citium_schedule" sampleClock).1 with
               | Ok requests => requests
               | Err _ => []
               end)
              (FetchSchedRequests (onceEnv sampleAnswer)
                 (sampleWorld [requestA; requestD; requestE])
                 "citium_schedule" sampleClock).2) as (evs & Ht & Hc & _); [reflexivity|].
  exists evs. split; assumption.
Defined.

(** *** What the aggregate holds *)

Lemma spawn_sent env w requests tableName g :
  Some g ∈ (spawn env w requests tableName).1 ->
  exists pre req post g0,
    requests = pre ++ req :: post
    /\ (execute env (spawn env w pre tableName).2 req tableName).1 = Some g0
    /\ g = errors.wrap g0 ("execute " +:+ ToString req +:+ " table_name=" +:+ tableName).
Proof.
  revert w. induction requests as [|req rest IH]; intros w.
  - now intros ?%elem_of_nil.
  - rewrite spawn_cons. cbn [fst]. intros [Hin|Hin]%elem_of_app.
    + destruct (execute env w req tableName).1 as [g0|] eqn:Hg; [|now apply elem_of_nil in Hin].
      apply list_elem_of_singleton in Hin as [= ->].
      exists [], req, rest, g0. cbn. auto.
    + destruct (IH _ Hin) as (pre & req' & post & g0 & -> & Hex & ->).
      exists (req :: pre), req', post, g0. split; [reflexivity|]. split; [|reflexivity].
      rewrite spawn_cons. cbn [snd]. exact Hex.
Qed.

Lemma spawn_length env w requests tableName :
  length (spawn env w requests tableName).1 <= length requests.
Proof.
  revert w. induction requests as [|req rest IH]; intros w; [cbn; lia|].
  rewrite spawn_cons. cbn [fst]. rewrite length_app.
  specialize (IH (execute env w req tableName).2).
  destruct (execute env w req tableName).1; cbn; lia.
Qed.

Lemma omap_id_length {A} (l : list (option A)) : length (omap id l) <= length l.
Proof. induction l as [|[x|] l IH]; cbn; lia. Qed.

(** X13. The aggregate of a pass holds nothing but the errors of its
    records: each of its errors is the error [execute] returned for one of
    the returned records, wrapped with a message that names the record, so
    that its text starts with that message; and there are no more of them
    than records. The two errors of a record whose request and whose
    failure record both failed count as one. *)
Theorem aggregate_holds_only_record_errors env w conf requests w1 :
  FetchSchedRequests env w (config.TableName conf) (Now env w) = (Ok requests, w1) ->
  (forall g, g ∈ multierr.Errors (TriggerAPI env w conf).1 ->
     exists pre req post g0,
       requests = pre ++ req :: post
       /\ (execute env (spawn env w1 pre (config.TableName conf)).2 req
                   (config.TableName conf)).1 = Some g0
       /\ g = errors.wrap g0 ("execute " +:+ ToString req +:+ " table_name="
                              +:+ config.TableName conf)
       /\ Error g = ("execute " +:+ ToString req +:+ " table_name="
                     +:+ config.TableName conf) +:+ ": " +:+ Error g0)
  /\ length (multierr.Errors (TriggerAPI env w conf).1) <= length requests.
Proof.
  intros Hq. rewrite (TriggerAPI_run env w conf requests w1 Hq). cbn [fst].
  rewrite Errors_drain by apply spawn_single. cbn [multierr.Errors app].
  split.
  - intros g Hg. apply list_elem_of_omap in Hg as (x & Hx & Hid).
    cbn in Hid. subst x.
    destruct (spawn_sent _ _ _ _ _ Hx) as (pre & req & post & g0 & H1 & H2 & ->).
    exists pre, req, post, g0. repeat split; assumption.
  - etransitivity; [apply omap_id_length|apply spawn_length].
Qed.

Lemma aggregate_holds_only_record_errors_witness :
  length (multierr.Errors
            (TriggerAPI (sampleEnv refuseNothing (Err (errorString "Request error")))
                        (sampleWorld [requestA; requestB; requestD]) sampleConf).1)
  <= 2.
Proof.
  refine (proj2
    (aggregate_holds_only_record_errors
       (sampleEnv refuseNothing (Err (errorString "Request error")))
       (sampleWorld [requestA; requestB; requestD]) sampleConf
       (match (FetchSchedRequests (sampleEnv refuseNothing (Err (errorString "Request error")))
                 (sampleWorld [requestA; requestB; requestD])
                 "citium_schedule" sampleClock).1 with
        | Ok requests => requests
        | Err _ => []
        end)
       (FetchSchedRequests (sampleEnv refuseNothing (Err (errorString "Request error")))
          (sampleWorld [requestA; requestB; requestD]) "citium_schedule" sampleClock).2 _)).
  vm_compute. reflexivity.
Defined.

(** *** The records a pass leaves alone *)

Lemma spawn_frame env w requests tableName :
  (forall k, k ∉ ID <$> requests ->
             table (spawn env w requests tableName).2 !! k = table w !! k)
  /\ exists evs,
       trace (spawn env w requests tableName).2 = trace w ++ evs
       /\ Forall (fun ev => exists req, req ∈ requests /\ concerns tableName (ID req) ev.1) evs.
Proof.
  revert w. induction requests as [|req rest IH]; intros w.
  - split; [reflexivity|]. exists []. cbn. now rewrite app_nil_r.
  - rewrite spawn_cons. cbn [snd].
    destruct (execute_frame env w req tableName) as (Hk1 & evs1 & Ht1 & Hc1).
    destruct (IH (execute env w req tableName).2) as (Hk2 & evs2 & Ht2 & Hc2).
    split.
    + intros k Hk. cbn [fmap list_fmap] in Hk. apply not_elem_of_cons in Hk as [Hne Hk].
      now rewrite Hk2, Hk1.
    + exists (evs1 ++ evs2). split; [now rewrite Ht2, Ht1, app_assoc|].
      apply Forall_app. split.
      * eapply Forall_impl; [exact Hc1|]. intros ev Hev. exists req. split; [now left|assumption].
      * eapply Forall_impl; [exact Hc2|]. intros ev (r & Hr & Hev).
        exists r. split; [now right|assumption].
Qed.

(** X14. A pass leaves alone every record that the due-query did not
    return: the item under any other id is as it was before the pass, and
    every call made after the scan is the request of a returned record or
    a write under the key of one. *)
Theorem pass_leaves_other_records env w conf requests w1 :
  FetchSchedRequests env w (config.TableName conf) (Now env w) = (Ok requests, w1) ->
  (forall k, k ∉ ID <$> requests -> table (TriggerAPI env w conf).2 !! k = table w !! k)
  /\ exists evs,
       trace (TriggerAPI env w conf).2 = trace w1 ++ evs
       /\ Forall (fun ev => exists req, req ∈ requests
                                        /\ concerns (config.TableName conf) (ID req) ev.1) evs.
Proof.
  intros Hq. rewrite (TriggerAPI_run env w conf requests w1 Hq). cbn [snd].
  assert (Ht : table w1 = table w).
  { rewrite FetchSchedRequests_run in Hq. destruct (fault env w _); [discriminate|].
    cbv zeta in Hq. now injection Hq as _ <-. }
  rewrite <- Ht. apply spawn_frame.
Qed.

Lemma pass_leaves_other_records_witness :
  table (TriggerAPI (sampleEnv refuseNothing sampleAnswer)
                    (sampleWorld [requestA; requestB; requestC]) sampleConf).2 !! "b"
  = table (sampleWorld [requestA; requestB; requestC]) !! "b".
Proof.
  refine (proj1
    (pass_leaves_other_records (sampleEnv refuseNothing sampleAnswer)
       (sampleWorld [requestA; requestB; requestC]) sampleConf
       (match (FetchSchedRequests (sampleEnv refuseNothing sampleAnswer)
                 (sampleWorld [requestA; requestB; requestC])
                 "citium_schedule" sampleClock).1 with
        | Ok requests => requests
        | Err _ => []
        end)
       (FetchSchedRequests (sampleEnv refuseNothing sampleAnswer)
          (sampleWorld [requestA; requestB; requestC]) "citium_schedule" sampleClock).2 _)
    "b" _).
  - vm_compute. reflexivity.
  - compute_done.
Defined.

(** *** The order of the goroutines *)










End Records.

(** ** The request that leaves the client *)

Section OutgoingRequest.

Import schema scheduler.

Lemma outgoing_Values {U} (net : http.Net U) c method urlStr headers body req key :
  outgoing net c method urlStr headers body = Ok req ->
  http.Values (http.Header_ req) key
  = if negb (String.eqb (token c) "")
       && String.eqb "Authorization" (http.CanonicalMIMEHeaderKey key)
    then ["Bearer " +:+ token c]
    else callerValues headers key
         ++ (if negb (String.eqb (userAgent c) "")
                && String.eqb "User-Agent" (http.CanonicalMIMEHeaderKey key)
             then [userAgent c] else []).
Proof.
  intros Hreq. rewrite (outgoing_Header net c method urlStr headers body req Hreq).
  cbv zeta.
  assert (Hua : http.Values
                  (if negb (String.eqb (userAgent c) "")
                   then http.Add (foldl (fun h kv => http.Add h (fst kv) (snd kv)) ∅ headers)
                                 "User-Agent" (userAgent c)
                   else foldl (fun h kv => http.Add h (fst kv) (snd kv)) ∅ headers) key
                = callerValues headers key
                  ++ (if negb (String.eqb (userAgent c) "")
                         && String.eqb "User-Agent" (http.CanonicalMIMEHeaderKey key)
                      then [userAgent c] else [])).
  { destruct (negb (String.eqb (userAgent c) "")); cbn [andb].
    - rewrite Values_Add, Values_foldl_Add.
      change (http.CanonicalMIMEHeaderKey "User-Agent") with "User-Agent".
      destruct (String.eqb "User-Agent" _); [reflexivity|now rewrite app_nil_r].
    - rewrite Values_foldl_Add. now rewrite app_nil_r. }
  destruct (negb (String.eqb (token c) "")); cbn [andb].
  - rewrite Values_Set.
    change (http.CanonicalMIMEHeaderKey "Authorization") with "Authorization".
    destruct (String.eqb "Authorization" _); [reflexivity|exact Hua].
  - exact Hua.
Qed.

(** X16. The request [DoRequest] hands to the transport has the method
    it was given, or GET when that is empty, the body it was given and the
    URL it was given, resolved against the base URL. Its headers are, for every key: the configured bearer
    token alone under [Authorization] when a token is configured; otherwise
    the values the caller gave for the key, in canonical form, followed
    under [User-Agent] by the configured user agent when there is one.
    Nothing else is added. *)
Theorem outgoing_request {U} (net : http.Net U) c method urlStr headers body req :
  outgoing net c method urlStr headers body = Ok req ->
  http.Method req = (if String.eqb method "" then "GET" else method)
  /\ http.Body req = body
  /\ (exists rel, http.Parse net urlStr = Ok rel
                  /\ http.URL req
                     = http.String_ net (http.ResolveReference net (baseURL c) rel))
  /\ forall key,
       http.Values (http.Header_ req) key
       = if negb (String.eqb (token c) "")
            && String.eqb "Authorization" (http.CanonicalMIMEHeaderKey key)
         then ["Bearer " +:+ token c]
         else callerValues headers key
              ++ (if negb (String.eqb (userAgent c) "")
                     && String.eqb "User-Agent" (http.CanonicalMIMEHeaderKey key)
                  then [userAgent c] else []).
Proof.
  intros Hreq. split; [|split; [|split]].
  4:{ intros key. now apply (outgoing_Values net c method urlStr headers body). }
  all: unfold outgoing, http.NewRequest in Hreq;
    destruct (http.Parse net urlStr) as [rel|]; [|discriminate];
    destruct (http.NewRequestError net _ _); [discriminate|];
    injection Hreq as <-; cbn; eauto.
Qed.

Lemma outgoing_request_witness :
  exists req,
    outgoing (answering 200 "") sampleClient "POST" "http://example.com/ping"
             [("content-type", "application/json"); ("Content-Type", "text/plain")] "{}"
    = Ok req
    /\ http.Method req = "POST"
    /\ http.Body req = "{}"
    /\ http.Values (http.Header_ req) "Content-Type" = ["application/json"; "text/plain"]
    /\ http.Values (http.Header_ req) "Authorization" = []
    /\ http.Values (http.Header_ req) "User-Agent" = ["citium/0.0.1"].
Proof.
  eexists. split; [reflexivity|].
  destruct (outgoing_request (answering 200 "") sampleClient "POST" "http://example.com/ping"
              [("content-type", "application/json"); ("Content-Type", "text/plain")] "{}"
              _ eq_refl) as (Hm & Hb & _ & Hv).
  split; [exact Hm|]. split; [exact Hb|].
  split; [exact (Hv "Content-Type")|]. split; [exact (Hv "Authorization")|].
  exact (Hv "User-Agent").
Defined.

(** X17. [DoRequest] fails in four ways and each error names its stage:
    the URL does not parse, the request cannot be built, the transport
    fails, the body cannot be read; the cause is wrapped with the stage's
    message. Otherwise it returns the status code and the body as read,
    whatever the status code is and whatever closing the body gives: the
    error of the deferred close is not returned. *)
Theorem DoRequest_outcomes {U} (net : http.Net U) c method urlStr headers body :
  (forall req hresp raw,
     outgoing net c method urlStr headers body = Ok req ->
     http.Do net req = Ok hresp ->
     http.ReadAll hresp = Ok raw ->
     HTTPClient_DoRequest net c method urlStr headers body
     = Ok {| Code := http.StatusCode hresp; Body := raw |})
  /\ forall e,
       HTTPClient_DoRequest net c method urlStr headers body = Err e ->
       (exists cause,
          http.Parse net urlStr = Err cause
          /\ e = errors.wrap cause ("url.Parse rawurl=" +:+ urlStr))
       \/ (exists rel cause,
             http.Parse net urlStr = Ok rel
             /\ http.NewRequestError net method
                  (http.String_ net (http.ResolveReference net (baseURL c) rel)) = Some cause
             /\ e = errors.wrap cause
                      ("http.NewRequest method=" +:+ method +:+ " url="
                       +:+ http.String_ net (http.ResolveReference net (baseURL c) rel)))
       \/ (exists req cause,
             outgoing net c method urlStr headers body = Ok req
             /\ http.Do net req = Err cause
             /\ e = errors.wrap cause "c.Do")
       \/ (exists req hresp cause,
             outgoing net c method urlStr headers body = Ok req
             /\ http.Do net req = Ok hresp
             /\ http.ReadAll hresp = Err cause
             /\ e = errors.wrap cause "ioutil.ReadAll resp.Body").
Proof.
  split.
  - intros req hresp raw Hreq Hdo Hread. unfold HTTPClient_DoRequest.
    now rewrite Hreq, Hdo, Hread.
  - intros e. unfold HTTPClient_DoRequest.
    destruct (outgoing net c method urlStr headers body) as [req|e0] eqn:Hreq.
    + destruct (http.Do net req) as [hresp|cause] eqn:Hdo.
      * destruct (http.ReadAll hresp) as [raw|cause] eqn:Hread; [discriminate|].
        intros [= <-]. do 3 right. eauto 10.
      * intros [= <-]. do 2 right. left. eauto.
    + intros [= <-]. unfold outgoing, http.NewRequest in Hreq.
      destruct (http.Parse net urlStr) as [rel|cause].
      * destruct (http.NewRequestError net _ _) as [cause|] eqn:Hnew; [|discriminate].
        injection Hreq as <-. right. left. eauto 10.
      * injection Hreq as <-. left. eauto.
Qed.

End OutgoingRequest.

(** ** Start-up and the handler *)

Section Startup.

Import dynamodb schema scheduler.

(** X18. The handler reports success exactly when the due-query
    succeeded and every call made for a record after it came back without
    an error: wrapping leaves a nil error nil. *)
Theorem handler_succeeds_iff env w conf :
  (lambda.handler env w conf).1 = None
  <-> exists requests w1 evs,
        FetchSchedRequests env w (config.TableName conf) (Now env w) = (Ok requests, w1)
        /\ trace (lambda.handler env w conf).2 = trace w1 ++ evs
        /\ Forall (fun ev => ev.2 = None) evs.
Proof.
  unfold lambda.handler.
  destruct (FetchSchedRequests env w (config.TableName conf) (Now env w))
    as [[requests|e] w1] eqn:Hq.
  - rewrite (TriggerAPI_run env w conf requests w1 Hq).
    destruct (spawn_events env w1 requests (config.TableName conf)) as (evs & Ht & Hf).
    cbn [fst snd]. split.
    + intros Hn. exists requests, w1, evs. split; [reflexivity|]. split; [assumption|].
      destruct (drain _ None) as [agg|] eqn:Hd; [discriminate|].
      apply drain_None in Hd as [_ Hd].
      apply Forall_forall. intros ev Hin.
      destruct (ev.2) as [e|] eqn:Hev; [|reflexivity].
      exfalso. apply (proj2 Hf); [|exact Hd].
      apply Exists_exists. exists ev. split; [assumption|]. unfold failed. now rewrite Hev.
    + intros (requests' & w1' & evs' & [= <- <-] & Ht' & Hall).
      rewrite Ht in Ht'. apply app_inv_head in Ht'. subst evs'.
      destruct (drain _ None) as [agg|] eqn:Hd; [|reflexivity].
      exfalso.
      assert (Hne : omap id (spawn env w1 requests (config.TableName conf)).1 <> []).
      { intros Hnil.
        assert (drain (spawn env w1 requests (config.TableName conf)).1 None = None)
          by now apply drain_None.
        congruence. }
      apply Hf, Exists_exists in Hne as (ev & Hin & Hfail).
      rewrite Forall_forall in Hall. apply Hfail, Hall, Hin.
  - unfold TriggerAPI. rewrite Hq. cbn. split; [discriminate|].
    now intros (requests' & w1' & evs' & [=] & _).
Qed.

(** X19. Start-up has three places where it panics, in this order:
    without [TABLE_NAME] it panics with the message of [NewConfiguration];
    when the AWS session cannot be opened it panics with the error of
    [NewSession]; with a base URL that does not parse it panics with the
    parser's error, wrapped. Otherwise the client is made of [BASE_URL],
    [USER_AGENT] and [API_TOKEN] as the environment has them, unset ones
    being empty, and with neither a user agent nor a token set its requests
    carry the caller's headers and no others. *)
Theorem main_panics_or_builds_client {U} (getenv : string -> string) (newSession : error)
    (net : http.Net U) :
  (getenv "TABLE_NAME" = "" ->
   lambda.main getenv newSession net = Panics "Require environment variable TABLE_NAME")
  /\ (forall e, getenv "TABLE_NAME" <> "" ->
        newSession = Some e ->
        lambda.main getenv newSession net = Panics (Error e))
  /\ (forall e, getenv "TABLE_NAME" <> "" ->
        newSession = None ->
        http.Parse net (getenv "BASE_URL") = Err e ->
        lambda.main getenv newSession net = Panics ("url.Parse: " +:+ Error e))
  /\ (forall u, getenv "TABLE_NAME" <> "" ->
        newSession = None ->
        http.Parse net (getenv "BASE_URL") = Ok u ->
        lambda.main getenv newSession net
        = Returns ({| config.TableName := getenv "TABLE_NAME";
                      config.BaseURL := getenv "BASE_URL";
                      config.Token := getenv "API_TOKEN";
                      config.UserAgent := getenv "USER_AGENT" |},
                   {| baseURL := u;
                      userAgent := getenv "USER_AGENT";
                      token := getenv "API_TOKEN" |}))
  /\ (forall conf c method urlStr headers body req key,
        lambda.main getenv newSession net = Returns (conf, c) ->
        getenv "USER_AGENT" = "" -> getenv "API_TOKEN" = "" ->
        outgoing net c method urlStr headers body = Ok req ->
        http.Values (http.Header_ req) key = callerValues headers key).
Proof.
  unfold lambda.main, config.NewConfiguration, NewClient.
  destruct (String.eqb_spec (getenv "TABLE_NAME") "") as [Ht|Ht];
    cbn [config.Must mbind outcome_bind config.BaseURL].
  { split; [reflexivity|]. repeat (split; [contradiction|]). discriminate. }
  split; [contradiction|].
  destruct newSession as [e0|]; cbn [session.Must mbind outcome_bind].
  { split; [now intros e _ [= <-]|]. repeat (split; [discriminate|]). discriminate. }
  split; [discriminate|].
  destruct (http.Parse net (getenv "BASE_URL")) as [u|e];
    cbn [Must mbind outcome_bind config.UserAgent config.Token].
  - split; [discriminate|]. split; [now intros u' _ _ [= <-]|].
    intros conf c method urlStr headers body req key [= <- <-] Hua Htok Hreq.
    rewrite (outgoing_Values net _ method urlStr headers body req key Hreq).
    cbn [userAgent token]. rewrite Hua, Htok. cbn. apply app_nil_r.
  - split; [now intros e' _ _ [= <-]|]. split; [discriminate|]. discriminate.
Qed.

End Startup.

(** ** The headers flag of the command *)

Section HeadersFlag.

Import cli.

Lemma Split_free s sep : free sep s = true -> Split s sep = [s].
Proof.
  induction s as [|c s IH]; [reflexivity|]. cbn [free Split].
  intros [Hc Hs]%andb_true_iff. apply negb_true_iff in Hc. rewrite Hc, (IH Hs). reflexivity.
Qed.

Lemma Split_cons s t sep :
  free sep s = true -> Split (s +:+ String sep t) sep = s :: Split t sep.
Proof.
  induction s as [|c s IH]; intros Hs.
  - change ("" +:+ String sep t) with (String sep t). cbn [Split]. now rewrite Ascii.eqb_refl.
  - cbn [free] in Hs. apply andb_true_iff in Hs as [Hc Hs]. apply negb_true_iff in Hc.
    rewrite append_cons. cbn [Split]. rewrite Hc, (IH Hs). reflexivity.
Qed.

Lemma free_append sep s t : free sep (s +:+ t) = free sep s && free sep t.
Proof.
  induction s as [|c s IH]; [reflexivity|].
  rewrite append_cons. cbn [free]. now rewrite IH, andb_assoc.
Qed.

Lemma Split_join l :
  l <> [] -> Forall (fun s => free "," s = true) l -> Split (join "," l) "," = l.
Proof.
  induction l as [|s l IH]; [congruence|]. intros _ Hl.
  apply Forall_cons in Hl as [Hs Hl]. destruct l as [|s' l].
  - cbn [join]. now apply Split_free.
  - change (join "," (s :: s' :: l)) with (s +:+ "," +:+ join "," (s' :: l)).
    change ("," +:+ join "," (s' :: l)) with (String "," (join "," (s' :: l))).
    rewrite Split_cons by assumption. now rewrite IH.
Qed.

Lemma Split_entry k v :
  free ":" k = true -> free ":" v = true -> Split (entry (k, v)) ":" = [k; v].
Proof.
  intros Hk Hv. unfold entry. cbn [fst snd].
  change (":" +:+ v) with (String ":" v).
  rewrite Split_cons by assumption. now rewrite Split_free.
Qed.

Lemma foldl_headers (kvs : list (string * string)) (m : gmap string string) :
  Forall (fun kv => free ":" kv.1 = true /\ free ":" kv.2 = true) kvs ->
  foldl (fun acc v =>
           m ← acc;
           match Split v ":" with
           | k :: val :: _ => Returns (<[k := val]> m)
           | _ => Panics "runtime error: index out of range"
           end) (Returns m) (entry <$> kvs)
  = Returns (foldl (fun m kv => <[kv.1 := kv.2]> m) m kvs).
Proof.
  intros H. revert m. induction H as [|[k v] kvs [Hk Hv] _ IH]; intros m; [reflexivity|].
  cbn [fmap list_fmap foldl mbind outcome_bind]. rewrite Split_entry by assumption. apply IH.
Qed.

Lemma entry_nonempty kv : entry kv <> "".
Proof. destruct kv as [[|c k] v]; discriminate. Qed.

Lemma join_nonempty sep l : l <> [] -> Forall (fun s => s <> "") l -> join sep l <> "".
Proof.
  destruct l as [|[|c s0] l]; [congruence| |].
  - intros _ [H _]%Forall_cons. congruence.
  - intros _ _. destruct l; discriminate.
Qed.

Lemma foldl_insert (kvs : list (string * string)) (m0 : gmap string string) :
  foldl (fun m kv => <[kv.1 := kv.2]> m) m0 kvs = list_to_map (reverse kvs) ∪ m0.
Proof.
  revert m0. induction kvs as [|[k v] kvs IH]; intros m0.
  - cbn. now rewrite (left_id_L ∅ (∪)).
  - cbn [foldl]. rewrite IH, reverse_cons, list_to_map_app. cbn [list_to_map foldr fst snd].
    now rewrite <- (assoc_L (∪)), <- insert_union_l, (left_id_L ∅ (∪)).
Qed.

(** X20. The headers flag reads back what was written in it: for a
    non-empty list of headers whose keys and values have neither a comma
    nor a colon, the flag made of the entries [key:value] joined by commas
    gives the map that holds exactly the keys of the list, each with its
    value; of two entries with one key the later one counts. *)
Theorem headersFlag_reads_entries kvs :
  kvs <> [] ->
  Forall (fun kv => plain kv.1 = true /\ plain kv.2 = true) kvs ->
  exists m,
    headersFlag (join "," (entry <$> kvs)) = Returns m
    /\ m = foldl (fun m kv => <[kv.1 := kv.2]> m) ∅ kvs
    /\ (forall k v, NoDup kvs.*1 -> (k, v) ∈ kvs -> m !! k = Some v)
    /\ (forall k, m !! k <> None <-> k ∈ kvs.*1).
Proof.
  intros Hne Hplain. eexists. split; [|split; [reflexivity|]].
  - unfold headersFlag.
    destruct (String.eqb_spec (join "," (entry <$> kvs)) "") as [He|_].
    { exfalso. revert He. apply join_nonempty.
      - now destruct kvs.
      - apply Forall_fmap, Forall_forall. intros kv _. apply entry_nonempty. }
    cbn [negb]. rewrite Split_join.
    + apply foldl_headers. eapply Forall_impl; [exact Hplain|].
      intros [k v]. unfold plain. cbn. rewrite !andb_true_iff. tauto.
    + now destruct kvs.
    + apply Forall_fmap. eapply Forall_impl; [exact Hplain|].
      intros [k v]. unfold compose, plain, entry. cbn [fst snd].
      rewrite !andb_true_iff. intros [[Hk _] [Hv _]].
      now rewrite !free_append, Hk, Hv.
  - rewrite foldl_insert, (right_id_L ∅ (∪)). split.
    + intros k v Hnd Hin. apply elem_of_list_to_map.
      * now rewrite fmap_reverse, reverse_Permutation.
      * now apply elem_of_reverse.
    + intros k. rewrite <- not_elem_of_list_to_map, fmap_reverse, elem_of_reverse.
      destruct (decide (k ∈ kvs.*1)); tauto.
Qed.

Lemma headersFlag_reads_entries_witness :
  exists m,
    headersFlag "Accept:application/json,X-Id:7" = Returns m
    /\ m !! "Accept" = Some "application/json"
    /\ m !! "X-Id" = Some "7".
Proof.
  destruct (headersFlag_reads_entries [("Accept", "application/json"); ("X-Id", "7")])
    as (m & Hm & _ & Hin & _); [discriminate|repeat constructor|].
  exists m. split; [exact Hm|].
  split.
  - apply Hin; [compute_done|now left].
  - apply Hin; [compute_done|right; now left].
Defined.

Lemma Split_colon v :
  if free ":" v then Split v ":" = [v]
  else exists k val more, Split v ":" = k :: val :: more.
Proof.
  induction v as [|c v IH]; [reflexivity|]. cbn [free Split].
  destruct (Ascii.eqb c ":") eqn:Hc; cbn [negb andb].
  - destruct (Split v ":") as [|p more] eqn:Hs; [|eauto].
    destruct (free ":" v); [discriminate|]. now destruct IH as (? & ? & ? & [=]).
  - destruct (free ":" v).
    + now rewrite IH.
    + destruct IH as (k & val & more & ->). eauto.
Qed.

Lemma foldl_headers_Panics msg pieces :
  foldl (fun acc v =>
           m ← acc;
           match Split v ":" with
           | k :: val :: _ => Returns (<[k := val]> m)
           | _ => Panics "runtime error: index out of range"
           end) (Panics msg) pieces
  = (Panics msg : outcome (gmap string string)).
Proof. induction pieces as [|v pieces IH]; [reflexivity|]. exact IH. Qed.

Lemma foldl_headers_cases pieces (m : gmap string string) :
  if forallb (fun v => negb (free ":" v)) pieces
  then exists m', foldl (fun acc v =>
                           m ← acc;
                           match Split v ":" with
                           | k :: val :: _ => Returns (<[k := val]> m)
                           | _ => Panics "runtime error: index out of range"
                           end) (Returns m) pieces = Returns m'
  else foldl (fun acc v =>
                m ← acc;
                match Split v ":" with
                | k :: val :: _ => Returns (<[k := val]> m)
                | _ => Panics "runtime error: index out of range"
                end) (Returns m) pieces
       = Panics "runtime error: index out of range".
Proof.
  revert m. induction pieces as [|v pieces IH]; intros m; [cbn; eauto|].
  cbn [forallb foldl mbind outcome_bind].
  pose proof (Split_colon v) as Hv. destruct (free ":" v); cbn [negb andb].
  - rewrite Hv. apply foldl_headers_Panics.
  - destruct Hv as (k & val & more & ->). apply IH.
Qed.

(** X21. The command panics on a headers flag one of whose comma
    separated entries has no colon, an empty entry such as the one after a
    trailing comma included, whatever the other entries are; it returns a
    map when every entry has a colon. *)
Theorem headersFlag_panics_without_colon headers :
  headers <> "" ->
  ((exists v, v ∈ Split headers "," /\ free ":" v = true) ->
   headersFlag headers = Panics "runtime error: index out of range")
  /\ ((forall v, v ∈ Split headers "," -> free ":" v = false) ->
      exists m, headersFlag headers = Returns m).
Proof.
  intros Hne. unfold headersFlag.
  destruct (String.eqb_spec headers ""); [contradiction|]. cbn [negb].
  pose proof (foldl_headers_cases (Split headers ",") ∅) as H.
  destruct (forallb _ _) eqn:Hall.
  - split; [|intros _; exact H].
    intros (v & Hin & Hv). exfalso.
    rewrite forallb_forall in Hall. apply list_elem_of_In, Hall in Hin.
    rewrite Hv in Hin. discriminate.
  - split; [intros _; exact H|].
    intros Hcol. exfalso.
    assert (forallb (fun v => negb (free ":" v)) (Split headers ",") = true); [|congruence].
    apply forallb_forall. intros v Hin%list_elem_of_In. now rewrite (Hcol v Hin).
Qed.

Lemma headersFlag_panics_without_colon_witness :
  headersFlag "Accept:application/json," = Panics "runtime error: index out of range".
Proof.
  refine (proj1 (headersFlag_panics_without_colon "Accept:application/json," _) _).
  - discriminate.
  - exists "". split; [compute_done|reflexivity].
Defined.

(** X22. Of an entry with more than one colon the command keeps what is
    between the first and the second as the value and drops the rest: the
    value of [Referer:http://example.com] is [http]. *)
Theorem headersFlag_cuts_value_at_colon k v rest :
  plain k = true -> plain v = true -> free "," rest = true ->
  headersFlag (k +:+ ":" +:+ v +:+ ":" +:+ rest) = Returns {[ k := v ]}.
Proof.
  unfold plain. rewrite !andb_true_iff. intros [Hk1 Hk2] [Hv1 Hv2] Hr.
  unfold headersFlag.
  destruct (String.eqb_spec (k +:+ ":" +:+ v +:+ ":" +:+ rest) "") as [He|_].
  { destruct k; discriminate. }
  cbn [negb]. rewrite Split_free.
  2:{ rewrite !free_append, Hk1, Hv1, Hr. reflexivity. }
  cbn [foldl mbind outcome_bind].
  change (":" +:+ v +:+ ":" +:+ rest) with (String ":" (v +:+ String ":" rest)).
  rewrite !Split_cons by assumption.
  destruct (Split rest ":"); reflexivity.
Qed.

Lemma headersFlag_cuts_value_at_colon_witness :
  headersFlag "Referer:http://example.com" = Returns {[ "Referer" := "http" ]}.
Proof.
  apply (headersFlag_cuts_value_at_colon "Referer" "http" "//example.com"); reflexivity.
Defined.

End HeadersFlag.

(** ** The properties on sample data *)

Section Witnesses.

Import dynamodb schema scheduler dynamodbattribute.

Lemma FetchSchedRequests_returns_due_witness :
  exists records,
    (FetchSchedRequests (sampleEnv refuseNothing sampleAnswer)
                        (sampleWorld [requestA; requestB; requestC; requestD])
                        "citium_schedule" sampleClock).1 = Ok records
    /\ Permutation records
                   (List.filter (due sampleClock) [requestA; requestB; requestC; requestD])
    /\ (forall req,
          gotime.After (gotime.Truncate (EffectiveAfter req)) (gotime.Truncate sampleClock)
          = true \/ Locking req = true ->
          req ∉ records)
    /\ (forall req,
          gotime.nanosecond (EffectiveAfter req) = 0%N ->
          due sampleClock req
          = negb (gotime.After (EffectiveAfter req) sampleClock) && negb (Locking req)).
Proof.
  refine (proj2 (FetchSchedRequests_returns_due
                   (sampleEnv refuseNothing sampleAnswer) [] "citium_schedule"
                   [requestA; requestB; requestC; requestD] sampleClock _ _ _ _)).
  - compute_done.
  - repeat constructor.
  - reflexivity.
  - reflexivity.
Defined.

Lemma claim_failure_stops_record_witness :
  errors.wrap
    (errors.wrap
       (errors.wrap (errorString "Internal error")
                    ("conn.UpdateItem id=" +:+ ID requestA +:+ " table_name="
                     +:+ config.TableName sampleConf))
       ("lock id=" +:+ ID requestA +:+ " table_name=" +:+ config.TableName sampleConf))
    ("execute " +:+ ToString requestA +:+ " table_name=" +:+ config.TableName sampleConf)
  ∈ multierr.Errors
      (TriggerAPI (sampleEnv refuseUpdates sampleAnswer)
                  (sampleWorld [requestA; requestB]) sampleConf).1.
Proof.
  refine (proj2 (proj2 (proj2
    (claim_failure_stops_record
       (sampleEnv refuseUpdates sampleAnswer) (sampleWorld [requestA; requestB]) sampleConf
       [requestA]
       (record (sampleWorld [requestA; requestB])
               (scanCall "citium_schedule" sampleClock) None)
       [] requestA [] (errorString "Internal error") _ _ _)))).
  - vm_compute. reflexivity.
  - reflexivity.
  - reflexivity.
Defined.

Lemma execution_failure_is_recorded_witness :
  (execute (sampleEnv refuseNothing (Err (errorString "Request error")))
           (sampleWorld [requestA]) requestA "citium_schedule").1
  = Some (errors.wrap
            (errors.wrap (errorString "Request error")
                         ("client.DoRequest method=" +:+ Method requestA
                          +:+ " url=" +:+ URL requestA))
            ("execRequest " +:+ ToString requestA)).
Proof.
  refine (proj2 (proj2 (proj2 (proj2
    (execution_failure_is_recorded
       (sampleEnv refuseNothing (Err (errorString "Request error")))
       (sampleWorld [requestA]) requestA "citium_schedule"
       (errorString "Request error") _ _))))); reflexivity.
Defined.

Lemma successful_execution_is_finalized_witness :
  (Get (sampleEnv refuseNothing sampleAnswer)
       {| table := table (execute (sampleEnv refuseNothing sampleAnswer)
                                  (sampleWorld [requestD]) requestD
                                  "citium_schedule").2;
          trace := [] |}
       "citium_schedule" (ID requestD)).1
  = Ok (withResult requestD
          ("{" +:+ json.quoted "code" +:+ ":200," +:+ json.quoted "body" +:+ ":"
           +:+ json.quoted "" +:+ "}")
          (gotime.Truncate sampleClock)).
Proof.
  destruct (successful_execution_is_finalized
              (sampleEnv refuseNothing sampleAnswer) (sampleWorld [requestD]) requestD
              "citium_schedule" {| Code := 200; Body := "" |} eq_refl eq_refl)
    as (s & Hs & Hform & Hne & Hp & _).
  destruct (Hp eq_refl) as [_ Hok]. destruct (Hok eq_refl) as (_ & _ & Hget).
  subst s.
  apply (Hget (encode requestD)); [vm_compute; reflexivity|vm_compute; reflexivity|
                                   reflexivity|reflexivity].
Defined.

Lemma aggregate_reports_failures_witness :
  exists evs,
    trace (TriggerAPI (sampleEnv refuseUpdates sampleAnswer)
                      (sampleWorld [requestA; requestB; requestD]) sampleConf).2
    = trace (FetchSchedRequests (sampleEnv refuseUpdates sampleAnswer)
                                (sampleWorld [requestA; requestB; requestD])
                                "citium_schedule" sampleClock).2 ++ evs
    /\ ((TriggerAPI (sampleEnv refuseUpdates sampleAnswer)
                    (sampleWorld [requestA; requestB; requestD]) sampleConf).1 <> None
        <-> Exists failed evs).
Proof.
  refine (proj1
    (aggregate_reports_failures
       (sampleEnv refuseUpdates sampleAnswer)
       (sampleWorld [requestA; requestB; requestD]) sampleConf
       (match (FetchSchedRequests (sampleEnv refuseUpdates sampleAnswer)
                                  (sampleWorld [requestA; requestB; requestD])
                                  "citium_schedule" sampleClock).1 with
        | Ok requests => requests
        | Err _ => []
        end)
       (FetchSchedRequests (sampleEnv refuseUpdates sampleAnswer)
                           (sampleWorld [requestA; requestB; requestD])
                           "citium_schedule" sampleClock).2 _)).
  vm_compute. reflexivity.
Defined.

Lemma failed_query_is_fatal_witness :
  exists e,
    TriggerAPI (sampleEnv refuseScan sampleAnswer) (sampleWorld [requestA]) sampleConf
    = (Some (errors.wrap e "fetchSchedRequests"),
       record (sampleWorld [requestA]) (scanCall "citium_schedule" sampleClock)
              (Some (errorString "internal error"))).
Proof.
  eexists.
  refine (proj1
    (failed_query_is_fatal (sampleEnv refuseScan sampleAnswer) (sampleWorld [requestA])
                           sampleConf _ _ _)).
  reflexivity.
Defined.

Lemma upstream_error_status_is_success_witness :
  HTTPClient_DoRequest (answering 500 "boom") sampleClient
                       (Method requestA) (URL requestA) (Headers requestA) (Payload requestA)
  = Ok {| Code := 500; Body := "boom" |}
  /\ (execute (clientEnv 500 "boom") (sampleWorld [requestA]) requestA "citium_schedule").1
     = None
  /\ table (execute (clientEnv 500 "boom") (sampleWorld [requestA]) requestA
                    "citium_schedule").2 !! ID requestA = None.
Proof.
  destruct (upstream_error_status_is_success
              (answering 500 "boom") sampleClient (clientEnv 500 "boom")
              (sampleWorld [requestA]) requestA "citium_schedule"
              _ _ "boom" eq_refl eq_refl eq_refl eq_refl eq_refl eq_refl eq_refl)
    as (H1 & H2 & _ & H4 & _).
  repeat split; assumption.
Defined.

End Witnesses.

(** ** The scenarios of the repository's tests *)

Section Scenarios.

Import schema scheduler.

Example Format_example :
  gotime.Format (gotime.Date 2018 9 2 0 2 3 123000000) unixFormat = "2018-09-02T00:02:03Z"
  /\ gotime.Format (gotime.Date 2018 9 2 0 2 3 123000000) dynamodbattribute.RFC3339Nano
     = "2018-09-02T00:02:03.123Z"
  /\ gotime.String_ (gotime.Date 2018 9 2 0 2 3 123000000)
     = "2018-09-02 00:02:03.123 +0000 UTC".
Proof. repeat split. Qed.

(** TestGetRequest: the instants of the stored texts. *)
Example Parse_example :
  gotime.Parse "2018-09-02T00:02:03Z" = Some (gotime.Date 2018 9 2 0 2 3 0)
  /\ gotime.Parse "2018-09-02T00:02:03.123Z" = Some (gotime.Date 2018 9 2 0 2 3 123000000)
  /\ gotime.Parse "2018-02-30T00:02:03Z" = None.
Proof. repeat split. Qed.

Example ToString_example :
  ToString requestA = "id=a effective_after=2018-09-02 00:02:03 +0000 UTC locking=false".
Proof. reflexivity. Qed.

(** TestUpdateResult: the serialized response. *)
Example Marshal_example :
  json.Marshal {| Code := 200; Body := "Success" |}
  = Ok ("{" +:+ json.quoted "code" +:+ ":200," +:+ json.quoted "body" +:+ ":"
        +:+ json.quoted "Success" +:+ "}").
Proof. reflexivity. Qed.

Example CanonicalMIMEHeaderKey_example :
  http.CanonicalMIMEHeaderKey "user-agent" = "User-Agent"
  /\ http.CanonicalMIMEHeaderKey "content type" = "content type".
Proof. split; reflexivity. Qed.

(** TestTriggerAPI, "empty": nothing is executed and the pass succeeds. *)
Example TriggerAPI_empty :
  let r := TriggerAPI (sampleEnv refuseNothing sampleAnswer) (sampleWorld []) sampleConf in
  r.1 = None /\ execCalls r.2 = 0.
Proof. vm_compute. split; reflexivity. Qed.

(** One record due and one not yet due: one execution, for the due one,
    and the pass succeeds. *)
Example TriggerAPI_due_and_future :
  let r := TriggerAPI (sampleEnv refuseNothing sampleAnswer)
                      (sampleWorld [requestA; requestB]) sampleConf in
  r.1 = None /\ execCalls r.2 = 1
  /\ table r.2 !! "a" = None
  /\ table r.2 !! "b" ≫= (.!! "Locking") = Some (dynamodb.AttrBOOL false).
Proof. vm_compute. repeat split. Qed.

(** TestTriggerAPI, "multiple requests": three due records, three
    executions, the pass succeeds. *)
Example TriggerAPI_three_due :
  let r := TriggerAPI (sampleEnv refuseNothing sampleAnswer)
                      (sampleWorld [requestA; requestD; requestE]) sampleConf in
  r.1 = None /\ execCalls r.2 = 3.
Proof. vm_compute. split; reflexivity. Qed.

(** TestTriggerAPI, "errors raised in middle of executing multiple
    requests": the first claim is refused; the other two records are
    executed and the pass reports an error. *)
Example TriggerAPI_first_claim_refused :
  let r := TriggerAPI (onceEnv sampleAnswer)
                      (sampleWorld [requestA; requestD; requestE]) sampleConf in
  r.1 <> None /\ execCalls r.2 = 2 /\ length (multierr.Errors r.1) = 1.
Proof. vm_compute. repeat split. discriminate. Qed.

(** TestTriggerAPI, "errors due to request execution". *)
Example TriggerAPI_execution_fails :
  let r := TriggerAPI (sampleEnv refuseNothing (Err (errorString "Request error")))
                      (sampleWorld [requestA]) sampleConf in
  r.1 <> None /\ execCalls r.2 = 1
  /\ table r.2 !! "a" ≫= (.!! "Locking") = Some (dynamodb.AttrBOOL true)
  /\ table r.2 !! "a" ≫= (.!! "FailureReason")
     = Some (dynamodb.AttrS
               ("execRequest " +:+ ToString requestA +:+ ": client.DoRequest method=GET"
                +:+ " url=http://example.com/ping: Request error")).
Proof. vm_compute. split; [discriminate|]. repeat split. Qed.

(** TestTriggerAPI, "errors due to remove request execution". *)
Example TriggerAPI_remove_fails :
  let r := TriggerAPI (sampleEnv refuseDeletes sampleAnswer)
                      (sampleWorld [requestA]) sampleConf in
  r.1 <> None /\ execCalls r.2 = 1
  /\ table r.2 !! "a" ≫= (.!! "Locking") = Some (dynamodb.AttrBOOL true).
Proof. vm_compute. split; [discriminate|]. repeat split. Qed.

(** TestFetchSchedRequests, "scan_error". *)
Example FetchSchedRequests_scan_error :
  exists e, (FetchSchedRequests (sampleEnv refuseScan sampleAnswer)
                                (sampleWorld [requestA]) "citium_schedule" sampleClock).1
            = Err e.
Proof. eexists. reflexivity. Qed.

(** A record stored without a method is sent as a GET. *)
Example outgoing_empty_method :
  exists req,
    outgoing (answering 200 "") sampleClient "" "http://example.com/ping" [] "" = Ok req
    /\ http.Method req = "GET".
Proof. eexists. split; reflexivity. Qed.

(** A header with an empty key, as the flag [:v] gives it, is refused by
    the encoder: [Create] returns its error and makes no call. *)
Example Create_empty_header_key :
  cli.headersFlag ":v" = Returns {[ "" := "v" ]}
  /\ Create (sampleEnv refuseNothing sampleAnswer) (sampleWorld [])
            "citium_schedule"
            {| ID := "g"; CreatedAt := sampleClock; ExecutedAt := gotime.zero;
               EffectiveAfter := sampleClock; Locking := false; FailureReason := "";
               Method := "GET"; URL := "/ping"; Payload := ""; Headers := [("", "v")];
               PersistentStore := false; ExecutionResult := "" |}
     = (Some (errors.wrap dynamodbattribute.InvalidMarshalError
                ("dynamodbattribute.MarshalMap req id=g effective_after="
                 +:+ "2018-09-03 00:02:03.5 +0000 UTC locking=false")),
        sampleWorld []).
Proof. split; reflexivity. Qed.

(** [strings.Split] as the command calls it. *)
Example Split_example :
  cli.Split "a:b,c:d,," "," = ["a:b"; "c:d"; ""; ""]
  /\ cli.Split "" "," = [""]
  /\ cli.Split "Referer:http://example.com" ":" = ["Referer"; "http"; "//example.com"].
Proof. repeat split. Qed.

(** The [create] action without a [-headers] flag: the map stays nil. *)
Example headersFlag_empty : cli.headersFlag "" = Returns ∅.
Proof. reflexivity. Qed.

(** TestNewClient and TestMustNewClient: start-up with the table name
    alone, and without it. *)
Example main_example :
  lambda.main (fun name => if String.eqb name "TABLE_NAME" then "citium_schedule" else "")
              None (answering 200 "")
  = Returns (sampleConf, {| baseURL := ""; userAgent := ""; token := "" |})
  /\ lambda.main (fun _ => "") None (answering 200 "")
     = Panics "Require environment variable TABLE_NAME".
Proof. split; reflexivity. Qed.

End Scenarios.
